(** * sniper: gradient-based iterative pruning with learning-rate coordination

    A shallow embedding of [src/sniper.py] and the properties of its
    mask creation, schedule controller, learning-rate coordinator and
    weight restorer.

    Conventions of the embedding:
    - Python floats and ints that hold sparsities, learning rates and tensor
      elements are exact rationals in canonical form ([Qc]), so that [=] is
      numeric equality; rounding, infinities and NaN are outside the model.
    - A tensor is the list of its elements in [view(-1)] order; a boolean
      tensor is a [list bool].
    - Python dicts whose iteration order the code relies on are association
      lists in insertion order.
    - A raised exception is a value [Raise e]; stateful methods run in a
      state-and-exception monad in which the mutations made before a raise
      stay visible, as they do in Python.
    - Logging calls have no effect on the modelled state and are left out. *)

From Stdlib Require Import ZArith QArith Qcanon Qcabs List String Ascii Bool Lia.
From Stdlib Require Import Permutation.
Import ListNotations.

Set Implicit Arguments.

(** ** Python primitives *)

Module Py.

Inductive Exn : Type :=
| AssertionError
| AttributeError
| KeyError
| ValueError
| TypeError
| ZeroDivisionError
| RuntimeError
| NameError
| IndexError
| FileNotFoundError.

Inductive Res (A : Type) : Type :=
| Ok (a : A)
| Raise (e : Exn).
Arguments Ok {A} a.
Arguments Raise {A} e.

Definition rbind {A B} (r : Res A) (k : A -> Res B) : Res B :=
  match r with
  | Ok a => k a
  | Raise e => Raise e
  end.

(** Numbers. *)

Definition num (z : Z) : Qc := Q2Qc (inject_Z z).
Definition frac (n : Z) (d : positive) : Qc := Q2Qc (n # d).

Definition eqb (x y : Qc) : bool :=
  match (x ?= y)%Qc with Eq => true | _ => false end.
Definition ltb (x y : Qc) : bool :=
  match (x ?= y)%Qc with Lt => true | _ => false end.
Definition leb (x y : Qc) : bool :=
  match (x ?= y)%Qc with Gt => false | _ => true end.
Definition gtb (x y : Qc) : bool := ltb y x.

(** Truthiness of a number: [if x:]. *)
Definition truthy (x : Qc) : bool := negb (eqb x 0%Qc).

(** [x / y] on floats raises on a zero divisor. *)
Definition div (x y : Qc) : Res Qc :=
  if eqb y 0%Qc then Raise ZeroDivisionError else Ok (x / y)%Qc.

(** [int(x)] truncates toward zero. *)
Definition int (x : Qc) : Z := Z.quot (Qnum x) (Zpos (Qden x)).

(** [min(a, b)] returns [b] only when it is strictly smaller. *)
Definition min (a b : Qc) : Qc := if ltb b a then b else a.

(** [len(l)] as a number. *)
Definition len {A} (l : list A) : Z := Z.of_nat (List.length l).

(** Strings. *)

(** [s.split(sep)] for a one-character separator. *)
Fixpoint split (sep : ascii) (s : string) : list string :=
  match s with
  | EmptyString => [EmptyString]
  | String c s' =>
      if Ascii.eqb c sep then EmptyString :: split sep s'
      else match split sep s' with
           | [] => [String c EmptyString]
           | w :: ws => String c w :: ws
           end
  end.

(** [s.rsplit(sep, 1)]: [None] stands for the one-element list [[s]]
    returned when [sep] does not occur; [Some (m, n)] for [[m, n]]. *)
Fixpoint rsplit1 (sep : ascii) (s : string) : option (string * string) :=
  match s with
  | EmptyString => None
  | String c s' =>
      match rsplit1 sep s' with
      | Some (m, n) => Some (String c m, n)
      | None => if Ascii.eqb c sep then Some (EmptyString, s') else None
      end
  end.

(** [m, n = s.rsplit('.', 1)]: unpacking a one-element list raises. *)
Definition unpack2 (s : string) : Res (string * string) :=
  match rsplit1 "."%char s with
  | Some mn => Ok mn
  | None => Raise ValueError
  end.

(** [s[k:]] *)
Fixpoint drop (k : nat) (s : string) : string :=
  match k, s with
  | O, _ => s
  | S k', EmptyString => EmptyString
  | S k', String _ s' => drop k' s'
  end.

(** [s.startswith(p)] *)
Definition startswith (s p : string) : bool := String.prefix p s.

(** [sub in s] *)
Fixpoint contains (sub s : string) : bool :=
  String.prefix sub s ||
  match s with
  | EmptyString => false
  | String _ s' => contains sub s'
  end.

(** Dicts in insertion order. *)

Definition dict (K V : Type) : Type := list (K * V).

Section Dict.
Variables (K V : Type) (keq : K -> K -> bool).

Fixpoint get (d : dict K V) (k : K) : option V :=
  match d with
  | [] => None
  | (k', v) :: d' => if keq k k' then Some v else get d' k
  end.

Definition mem (d : dict K V) (k : K) : bool :=
  match get d k with Some _ => true | None => false end.

(** [d[k] = v]: an existing key keeps its position. *)
Fixpoint set (d : dict K V) (k : K) (v : V) : dict K V :=
  match d with
  | [] => [(k, v)]
  | (k', v') :: d' => if keq k k' then (k', v) :: d' else (k', v') :: set d' k v
  end.

(** [del d[k]] *)
Fixpoint del (d : dict K V) (k : K) : dict K V :=
  match d with
  | [] => []
  | (k', v') :: d' => if keq k k' then d' else (k', v') :: del d' k
  end.

(** [d[k]] raises [KeyError] on a missing key. *)
Definition getitem (d : dict K V) (k : K) : Res V :=
  match get d k with Some v => Ok v | None => Raise KeyError end.
End Dict.

End Py.

Import Py.

Notation "x <- c1 ;; c2" := (rbind c1 (fun x => c2))
  (at level 61, c1 at next level, right associativity).

(** ** Tensors *)

Module Torch.

Definition Tensor : Type := list Qc.
Definition BoolTensor : Type := list bool.

(** [mask.sum().item()] on a boolean tensor. *)
Definition count_true (m : BoolTensor) : Z :=
  Z.of_nat (List.length (filter (fun b => b) m)).

Definition count_false (m : BoolTensor) : Z :=
  Z.of_nat (List.length (filter negb m)).

(** [t > c] *)
Definition gt_scalar (t : Tensor) (c : Qc) : BoolTensor :=
  map (fun x => Py.gtb x c) t.

(** [t == 0.0] *)
Definition eq_zero (t : Tensor) : BoolTensor :=
  map (fun x => Py.eqb x 0%Qc) t.

(** [mask.to(dtype)] *)
Definition to_dtype (m : BoolTensor) : Tensor :=
  map (fun b : bool => if b then 1%Qc else 0%Qc) m.

Fixpoint insert_sorted (x : Qc) (l : list Qc) : list Qc :=
  match l with
  | [] => [x]
  | y :: l' => if Py.leb x y then x :: l else y :: insert_sorted x l'
  end.

Definition sort (l : list Qc) : list Qc := fold_right insert_sorted [] l.

(** [torch.kthvalue(t, k).values.item()]: the k-th smallest element, counted
    from 1; [k] outside [1..len] is refused. *)
Definition kthvalue (t : Tensor) (k : Z) : Res Qc :=
  if ((1 <=? k) && (k <=? Py.len t))%Z then
    match nth_error (sort t) (Z.to_nat (k - 1)) with
    | Some v => Ok v
    | None => Raise RuntimeError
    end
  else Raise RuntimeError.

(** Element-wise operations on tensors of one shape; a size mismatch is
    refused (tensors of a state dict and of the model it was taken from have
    equal shapes). *)
Fixpoint zip_with (f : Qc -> Qc -> Qc) (a b : Tensor) : Res Tensor :=
  match a, b with
  | [], [] => Ok []
  | x :: a', y :: b' => r <- zip_with f a' b' ;; Ok (f x y :: r)
  | _, _ => Raise RuntimeError
  end.

Definition mul (a b : Tensor) : Res Tensor := zip_with Qcmult a b.
Definition add (a b : Tensor) : Res Tensor := zip_with Qcplus a b.

Fixpoint logical_and (a b : BoolTensor) : Res BoolTensor :=
  match a, b with
  | [], [] => Ok []
  | x :: a', y :: b' => r <- logical_and a' b' ;; Ok ((x && y) :: r)
  | _, _ => Raise RuntimeError
  end.

Definition abs (t : Tensor) : Tensor := map Qcabs t.
Definition zeros_like (t : Tensor) : Tensor := map (fun _ => 0%Qc) t.
Definition ones_like (t : Tensor) : Tensor := map (fun _ => 1%Qc) t.

(** *** Modules and parameters

    An object of the model tree is a parameter tensor or a module with its
    named attributes (sub-modules and parameters share one name space, as
    [register_parameter] and [add_module] enforce).  All parameters are
    trainable. *)
#[warnings="-register-all"]
Inductive Obj : Type :=
| Param (data : Tensor)
| Mod (attrs : list (string * Obj)).

(** [getattr(o, name)].  Attribute access on a tensor is refused: the
    model does not list the attributes of tensors.  No module has an
    attribute of empty name ([register_parameter] and [add_module] refuse
    it). *)
Definition getattr (o : Obj) (name : string) : Res Obj :=
  match o with
  | Mod attrs =>
      if String.eqb name EmptyString then Raise AttributeError
      else match Py.get String.eqb attrs name with
           | Some x => Ok x
           | None => Raise AttributeError
           end
  | Param _ => Raise AttributeError
  end.

(** [reduce(getattr, names, o)] *)
Fixpoint reduce_getattr (names : list string) (o : Obj) : Res Obj :=
  match names with
  | [] => Ok o
  | n :: ns => o' <- getattr o n ;; reduce_getattr ns o'
  end.

(** [param.data] *)
Definition data_of (o : Obj) : Res Tensor :=
  match o with
  | Param t => Ok t
  | Mod _ => Raise AttributeError
  end.

(** A reference to an object of the tree is its attribute path from the
    root.  [assign path v root] is [p.data = v] for the parameter [p] that
    the path refers to. *)
Definition Ref : Type := list string.

Fixpoint assign_attr (name : string) (f : Obj -> Res Obj)
    (attrs : list (string * Obj)) : Res (list (string * Obj)) :=
  match attrs with
  | [] => Raise AttributeError
  | (k, x) :: attrs' =>
      if String.eqb name k then x' <- f x ;; Ok ((k, x') :: attrs')
      else r <- assign_attr name f attrs' ;; Ok ((k, x) :: r)
  end.

Fixpoint assign (path : Ref) (v : Tensor) (o : Obj) : Res Obj :=
  match path with
  | [] => match o with
          | Param _ => Ok (Param v)
          | Mod _ => Raise AttributeError
          end
  | n :: ns => match o with
               | Mod attrs =>
                   attrs' <- assign_attr n (assign ns v) attrs ;; Ok (Mod attrs')
               | Param _ => Raise AttributeError
               end
  end.

(** Qualified names: [prefix + '.' + name], without the dot at the root. *)
Definition qualify (prefix name : string) : string :=
  match prefix with
  | EmptyString => name
  | _ => (prefix ++ "." ++ name)%string
  end.

(** [o.named_parameters()] and [o.state_dict()]: the parameters with their
    qualified names, in attribute order. *)
Fixpoint named_parameters_from (prefix : string) (o : Obj)
    : list (string * Tensor) :=
  match o with
  | Param t => [(prefix, t)]
  | Mod attrs =>
      (fix go (l : list (string * Obj)) : list (string * Tensor) :=
         match l with
         | [] => []
         | (n, c) :: l' => named_parameters_from (qualify prefix n) c ++ go l'
         end) attrs
  end.

Definition named_parameters (o : Obj) : list (string * Tensor) :=
  named_parameters_from EmptyString o.

Definition StateDict : Type := Py.dict string Tensor.

Definition state_dict (o : Obj) : StateDict := named_parameters o.

(** [model.load_state_dict(sd)] in strict mode: every parameter takes the
    value stored under its qualified name; a missing key, an unexpected key
    or a size mismatch is refused. *)
Fixpoint load_from (sd : StateDict) (prefix : string) (o : Obj) : Res Obj :=
  match o with
  | Param t =>
      match Py.get String.eqb sd prefix with
      | Some v =>
          if Nat.eqb (List.length v) (List.length t) then Ok (Param v)
          else Raise RuntimeError
      | None => Raise RuntimeError
      end
  | Mod attrs =>
      attrs' <-
        (fix go (l : list (string * Obj)) : Res (list (string * Obj)) :=
           match l with
           | [] => Ok []
           | (n, c) :: l' =>
               c' <- load_from sd (qualify prefix n) c ;;
               r <- go l' ;;
               Ok ((n, c') :: r)
           end) attrs ;;
      Ok (Mod attrs')
  end.

Definition load_state_dict (sd : StateDict) (o : Obj) : Res Obj :=
  if forallb (fun kv => Py.mem String.eqb (state_dict o) (fst kv)) sd
  then load_from sd EmptyString o
  else Raise RuntimeError.

(** *** Optimizers and schedulers *)

(** A parameter group: [pg['name']] (absent unless the caller built named
    groups) and [pg['lr']]. *)
Record ParamGroup : Type := {
  pg_name : option string;
  pg_lr : Qc
}.

Definition set_lr (lr : Qc) (pg : ParamGroup) : ParamGroup :=
  {| pg_name := pg_name pg; pg_lr := lr |}.

(** An optimizer is its [param_groups]. *)
Definition Optimizer : Type := list ParamGroup.

Inductive SchedulerClass : Type :=
| LambdaLR
| CyclicLR
| CosineAnnealingWarmRestarts
| OneCycleLR
| ChainableLR.

Definition SchedulerClass_eqb (a b : SchedulerClass) : bool :=
  match a, b with
  | LambdaLR, LambdaLR
  | CyclicLR, CyclicLR
  | CosineAnnealingWarmRestarts, CosineAnnealingWarmRestarts
  | OneCycleLR, OneCycleLR
  | ChainableLR, ChainableLR => true
  | _, _ => false
  end.

(** What [scheduler.step] is bound to: the step method of its class, or
    [partial(scheduler_step, self=scheduler, lr_factor=.., lr_factors=..)]. *)
Inductive StepFn : Type :=
| class_step
| partial_scheduler_step (lr_factor : option Qc) (lr_factors : option (list Qc)).

(** A scheduler: its class, a reference to its optimizer (an index into the
    list of optimizers), [last_epoch], and [get_lr()] as a function of
    [last_epoch] and of the current [lr] of the groups of its optimizer
    (closed-form schedulers ignore the latter). *)
Record Scheduler : Type := {
  sched_class : SchedulerClass;
  sched_optimizer : nat;
  last_epoch : Z;
  step_count : Z;
  get_lr : Z -> list Qc -> list Qc;
  get_closed_form_lr : option (Z -> list Qc);
  last_lr : list Qc;
  sched_step : StepFn
}.

Definition set_step (f : StepFn) (s : Scheduler) : Scheduler :=
  {| sched_class := sched_class s; sched_optimizer := sched_optimizer s;
     last_epoch := last_epoch s; step_count := step_count s;
     get_lr := get_lr s; get_closed_form_lr := get_closed_form_lr s;
     last_lr := last_lr s; sched_step := f |}.

(** [l[i] = f(l[i])] for a list of objects; nothing happens out of range. *)
Fixpoint update_nth {A} (i : nat) (f : A -> A) (l : list A) : list A :=
  match l, i with
  | [], _ => []
  | x :: l', O => f x :: l'
  | x :: l', S i' => x :: update_nth i' f l'
  end.

End Torch.

Import Torch.

(** ** MaskStore: [SniperTraining.create_masks] *)

Definition MaskSet : Type := Py.dict string BoolTensor.
Definition GradMap : Type := Py.dict string Tensor.

Section CreateMasks.

(** [random.Random(0).shuffle]: the fixed-seed permutation is a parameter
    of the model. *)
Variable shuffle : list bool -> list bool.

(** The body of the loop over [total_grads.items()] for one parameter. *)
Definition create_mask (threshold max_sparsity : Qc) (total_grad : Tensor)
  : Res BoolTensor :=
  let mask := gt_scalar total_grad threshold in
  let nonzero := count_true mask in
  let numel := Py.len mask in
  ratio <- Py.div (num nonzero) (num numel) ;;
  if Py.gtb (1 - ratio)%Qc max_sparsity then
    let grad := total_grad in
    param_threshold <-
      kthvalue grad (1 + Py.int (max_sparsity * num numel)%Qc) ;;
    let mask := gt_scalar total_grad param_threshold in
    let nonzero := count_true mask in
    if (nonzero =? 0)%Z && Py.ltb max_sparsity 1%Qc then
      let num_false := Py.int (max_sparsity * num numel)%Qc in
      let nonzero := (numel - num_false)%Z in
      let bools := repeat false (Z.to_nat num_false)
                   ++ repeat true (Z.to_nat nonzero) in
      if (Py.len bools =? numel)%Z then Ok (shuffle bools)
      else Raise RuntimeError
    else Ok mask
  else Ok mask.

Fixpoint create_masks_loop (threshold max_sparsity : Qc)
    (items : GradMap) (masks : MaskSet) : Res MaskSet :=
  match items with
  | [] => Ok masks
  | (full_name, total_grad) :: items' =>
      mask <- create_mask threshold max_sparsity total_grad ;;
      create_masks_loop threshold max_sparsity items'
        (Py.set String.eqb masks full_name mask)
  end.

Definition create_masks (sparsity : Qc) (total_grads : GradMap)
    (max_param_sparsity : Qc) : Res MaskSet :=
  match total_grads with
  | [] => Raise RuntimeError
  | _ =>
    let flattened_grads := List.concat (map snd total_grads) in
    threshold <-
      kthvalue flattened_grads
        (Py.int (sparsity / num 100 * num (Py.len flattened_grads))%Qc) ;;
    let max_sparsity := (max_param_sparsity / num 100)%Qc in
    create_masks_loop threshold max_sparsity total_grads []
  end.

End CreateMasks.

(** ** The trainer: configuration and state *)

(** A batch of [batch_iterator]: named input tensors. *)
Definition Batch : Type := Py.dict string Tensor.

(** The arguments of [SniperTraining.train], kept on [self] unchanged
    afterwards.  [model_builder] is the model that [self.model_builder()]
    returns; [get_loss_grads model batch] stands for
    [torch.autograd.grad(get_loss_fn(model, batch), masks)], the gradients of
    the loss with respect to the all-ones multipliers of the parameters to
    prune, in their order; [shuffle] is [random.Random(0).shuffle]. *)
Record Config : Type := {
  schedule : Py.dict Z Qc;
  model_builder : Obj;
  snip_module_name : string;
  batch_iterator : list Batch;
  get_loss_grads : Obj -> Batch -> Res (list Tensor);
  forward_mask : bool;
  scale_lr : bool;
  scale_lr_by_param : bool;
  max_lr_scaling : Qc;
  max_param_sparsity : Qc;
  exclude_params : list string;
  restore_init_values : bool;
  resume_epoch : Z;
  optim_lrs : list Qc;
  track_all_params_lr : bool;
  shuffle : list bool -> list bool
}.

(** The hook that [get_forward_hook(masks)] returns closes over [masks],
    which is whatever [self.current_masks] was, [None] included. *)
Inductive Hook : Type :=
| forward_hook_of (masks : option MaskSet).

Definition Handle : Type := nat.

(** The files of [sniper_dir]: [init_values.pt], [total_grads.pt] and the
    mask files, one per (sparsity, max_param_sparsity). *)
Record Disk : Type := {
  init_values_pt : option StateDict;
  total_grads_pt : option GradMap;
  masks_pt : Py.dict (Qc * Qc) MaskSet
}.

Definition key_eqb (a b : Qc * Qc) : bool :=
  Py.eqb (fst a) (fst b) && Py.eqb (snd a) (snd b).

(** The training state of [self] together with the objects it refers to:
    the caller's model, optimizers and schedulers, and the forward pre-hooks
    registered on the module to prune.  [module_to_snip] is a reference into
    [model]. *)
Record State : Type := {
  epoch : Z;
  current_sparsity : Qc;
  current_masks : option MaskSet;
  forward_hook : option Handle;
  optimizers : list Optimizer;
  schedulers : list Scheduler;
  step_fns : list StepFn;
  update_step_fns : list bool;
  lr_factor : Qc;
  optim_lr_factors : list (list Qc);
  track_pg_indices : list Z;
  init_values : option StateDict;
  model : Obj;
  module_to_snip : Ref;
  forward_pre_hooks : Py.dict Handle Hook;
  next_handle : Handle;
  disk : Disk
}.

Definition set_epoch (v : Z) (st : State) : State :=
  {| epoch := v; current_sparsity := current_sparsity st; current_masks := current_masks st; forward_hook := forward_hook st; optimizers := optimizers st; schedulers := schedulers st; step_fns := step_fns st; update_step_fns := update_step_fns st; lr_factor := lr_factor st; optim_lr_factors := optim_lr_factors st; track_pg_indices := track_pg_indices st; init_values := init_values st; model := model st; module_to_snip := module_to_snip st; forward_pre_hooks := forward_pre_hooks st; next_handle := next_handle st; disk := disk st |}.

Definition set_current_sparsity (v : Qc) (st : State) : State :=
  {| epoch := epoch st; current_sparsity := v; current_masks := current_masks st; forward_hook := forward_hook st; optimizers := optimizers st; schedulers := schedulers st; step_fns := step_fns st; update_step_fns := update_step_fns st; lr_factor := lr_factor st; optim_lr_factors := optim_lr_factors st; track_pg_indices := track_pg_indices st; init_values := init_values st; model := model st; module_to_snip := module_to_snip st; forward_pre_hooks := forward_pre_hooks st; next_handle := next_handle st; disk := disk st |}.

Definition set_current_masks (v : option MaskSet) (st : State) : State :=
  {| epoch := epoch st; current_sparsity := current_sparsity st; current_masks := v; forward_hook := forward_hook st; optimizers := optimizers st; schedulers := schedulers st; step_fns := step_fns st; update_step_fns := update_step_fns st; lr_factor := lr_factor st; optim_lr_factors := optim_lr_factors st; track_pg_indices := track_pg_indices st; init_values := init_values st; model := model st; module_to_snip := module_to_snip st; forward_pre_hooks := forward_pre_hooks st; next_handle := next_handle st; disk := disk st |}.

Definition set_forward_hook (v : option Handle) (st : State) : State :=
  {| epoch := epoch st; current_sparsity := current_sparsity st; current_masks := current_masks st; forward_hook := v; optimizers := optimizers st; schedulers := schedulers st; step_fns := step_fns st; update_step_fns := update_step_fns st; lr_factor := lr_factor st; optim_lr_factors := optim_lr_factors st; track_pg_indices := track_pg_indices st; init_values := init_values st; model := model st; module_to_snip := module_to_snip st; forward_pre_hooks := forward_pre_hooks st; next_handle := next_handle st; disk := disk st |}.

Definition set_optimizers (v : list Optimizer) (st : State) : State :=
  {| epoch := epoch st; current_sparsity := current_sparsity st; current_masks := current_masks st; forward_hook := forward_hook st; optimizers := v; schedulers := schedulers st; step_fns := step_fns st; update_step_fns := update_step_fns st; lr_factor := lr_factor st; optim_lr_factors := optim_lr_factors st; track_pg_indices := track_pg_indices st; init_values := init_values st; model := model st; module_to_snip := module_to_snip st; forward_pre_hooks := forward_pre_hooks st; next_handle := next_handle st; disk := disk st |}.

Definition set_schedulers (v : list Scheduler) (st : State) : State :=
  {| epoch := epoch st; current_sparsity := current_sparsity st; current_masks := current_masks st; forward_hook := forward_hook st; optimizers := optimizers st; schedulers := v; step_fns := step_fns st; update_step_fns := update_step_fns st; lr_factor := lr_factor st; optim_lr_factors := optim_lr_factors st; track_pg_indices := track_pg_indices st; init_values := init_values st; model := model st; module_to_snip := module_to_snip st; forward_pre_hooks := forward_pre_hooks st; next_handle := next_handle st; disk := disk st |}.

Definition set_step_fns (v : list StepFn) (st : State) : State :=
  {| epoch := epoch st; current_sparsity := current_sparsity st; current_masks := current_masks st; forward_hook := forward_hook st; optimizers := optimizers st; schedulers := schedulers st; step_fns := v; update_step_fns := update_step_fns st; lr_factor := lr_factor st; optim_lr_factors := optim_lr_factors st; track_pg_indices := track_pg_indices st; init_values := init_values st; model := model st; module_to_snip := module_to_snip st; forward_pre_hooks := forward_pre_hooks st; next_handle := next_handle st; disk := disk st |}.

Definition set_update_step_fns (v : list bool) (st : State) : State :=
  {| epoch := epoch st; current_sparsity := current_sparsity st; current_masks := current_masks st; forward_hook := forward_hook st; optimizers := optimizers st; schedulers := schedulers st; step_fns := step_fns st; update_step_fns := v; lr_factor := lr_factor st; optim_lr_factors := optim_lr_factors st; track_pg_indices := track_pg_indices st; init_values := init_values st; model := model st; module_to_snip := module_to_snip st; forward_pre_hooks := forward_pre_hooks st; next_handle := next_handle st; disk := disk st |}.

Definition set_lr_factor (v : Qc) (st : State) : State :=
  {| epoch := epoch st; current_sparsity := current_sparsity st; current_masks := current_masks st; forward_hook := forward_hook st; optimizers := optimizers st; schedulers := schedulers st; step_fns := step_fns st; update_step_fns := update_step_fns st; lr_factor := v; optim_lr_factors := optim_lr_factors st; track_pg_indices := track_pg_indices st; init_values := init_values st; model := model st; module_to_snip := module_to_snip st; forward_pre_hooks := forward_pre_hooks st; next_handle := next_handle st; disk := disk st |}.

Definition set_optim_lr_factors (v : list (list Qc)) (st : State) : State :=
  {| epoch := epoch st; current_sparsity := current_sparsity st; current_masks := current_masks st; forward_hook := forward_hook st; optimizers := optimizers st; schedulers := schedulers st; step_fns := step_fns st; update_step_fns := update_step_fns st; lr_factor := lr_factor st; optim_lr_factors := v; track_pg_indices := track_pg_indices st; init_values := init_values st; model := model st; module_to_snip := module_to_snip st; forward_pre_hooks := forward_pre_hooks st; next_handle := next_handle st; disk := disk st |}.

Definition set_track_pg_indices (v : list Z) (st : State) : State :=
  {| epoch := epoch st; current_sparsity := current_sparsity st; current_masks := current_masks st; forward_hook := forward_hook st; optimizers := optimizers st; schedulers := schedulers st; step_fns := step_fns st; update_step_fns := update_step_fns st; lr_factor := lr_factor st; optim_lr_factors := optim_lr_factors st; track_pg_indices := v; init_values := init_values st; model := model st; module_to_snip := module_to_snip st; forward_pre_hooks := forward_pre_hooks st; next_handle := next_handle st; disk := disk st |}.

Definition set_init_values (v : option StateDict) (st : State) : State :=
  {| epoch := epoch st; current_sparsity := current_sparsity st; current_masks := current_masks st; forward_hook := forward_hook st; optimizers := optimizers st; schedulers := schedulers st; step_fns := step_fns st; update_step_fns := update_step_fns st; lr_factor := lr_factor st; optim_lr_factors := optim_lr_factors st; track_pg_indices := track_pg_indices st; init_values := v; model := model st; module_to_snip := module_to_snip st; forward_pre_hooks := forward_pre_hooks st; next_handle := next_handle st; disk := disk st |}.

Definition set_model (v : Obj) (st : State) : State :=
  {| epoch := epoch st; current_sparsity := current_sparsity st; current_masks := current_masks st; forward_hook := forward_hook st; optimizers := optimizers st; schedulers := schedulers st; step_fns := step_fns st; update_step_fns := update_step_fns st; lr_factor := lr_factor st; optim_lr_factors := optim_lr_factors st; track_pg_indices := track_pg_indices st; init_values := init_values st; model := v; module_to_snip := module_to_snip st; forward_pre_hooks := forward_pre_hooks st; next_handle := next_handle st; disk := disk st |}.

Definition set_module_to_snip (v : Ref) (st : State) : State :=
  {| epoch := epoch st; current_sparsity := current_sparsity st; current_masks := current_masks st; forward_hook := forward_hook st; optimizers := optimizers st; schedulers := schedulers st; step_fns := step_fns st; update_step_fns := update_step_fns st; lr_factor := lr_factor st; optim_lr_factors := optim_lr_factors st; track_pg_indices := track_pg_indices st; init_values := init_values st; model := model st; module_to_snip := v; forward_pre_hooks := forward_pre_hooks st; next_handle := next_handle st; disk := disk st |}.

Definition set_forward_pre_hooks (v : Py.dict Handle Hook) (st : State) : State :=
  {| epoch := epoch st; current_sparsity := current_sparsity st; current_masks := current_masks st; forward_hook := forward_hook st; optimizers := optimizers st; schedulers := schedulers st; step_fns := step_fns st; update_step_fns := update_step_fns st; lr_factor := lr_factor st; optim_lr_factors := optim_lr_factors st; track_pg_indices := track_pg_indices st; init_values := init_values st; model := model st; module_to_snip := module_to_snip st; forward_pre_hooks := v; next_handle := next_handle st; disk := disk st |}.

Definition set_next_handle (v : Handle) (st : State) : State :=
  {| epoch := epoch st; current_sparsity := current_sparsity st; current_masks := current_masks st; forward_hook := forward_hook st; optimizers := optimizers st; schedulers := schedulers st; step_fns := step_fns st; update_step_fns := update_step_fns st; lr_factor := lr_factor st; optim_lr_factors := optim_lr_factors st; track_pg_indices := track_pg_indices st; init_values := init_values st; model := model st; module_to_snip := module_to_snip st; forward_pre_hooks := forward_pre_hooks st; next_handle := v; disk := disk st |}.

Definition set_disk (v : Disk) (st : State) : State :=
  {| epoch := epoch st; current_sparsity := current_sparsity st; current_masks := current_masks st; forward_hook := forward_hook st; optimizers := optimizers st; schedulers := schedulers st; step_fns := step_fns st; update_step_fns := update_step_fns st; lr_factor := lr_factor st; optim_lr_factors := optim_lr_factors st; track_pg_indices := track_pg_indices st; init_values := init_values st; model := model st; module_to_snip := module_to_snip st; forward_pre_hooks := forward_pre_hooks st; next_handle := next_handle st; disk := v |}.

(** The state after [SniperTraining.__init__]. *)
Definition init_state (m : Obj) (d : Disk) : State :=
  {| epoch := 0; current_sparsity := 0%Qc; current_masks := None;
     forward_hook := None; optimizers := []; schedulers := [];
     step_fns := []; update_step_fns := []; lr_factor := 1%Qc;
     optim_lr_factors := []; track_pg_indices := []; init_values := None;
     model := m; module_to_snip := []; forward_pre_hooks := [];
     next_handle := O; disk := d |}.

(** ** The state-and-exception monad of the methods *)

Definition M (A : Type) : Type := State -> Res A * State.

Definition ret {A} (a : A) : M A := fun st => (Ok a, st).
Definition raise {A} (e : Exn) : M A := fun st => (Raise e, st).
Definition bind {A B} (c : M A) (k : A -> M B) : M B :=
  fun st =>
    match c st with
    | (Ok a, st') => k a st'
    | (Raise e, st') => (Raise e, st')
    end.
Definition lift {A} (r : Res A) : M A := fun st => (r, st).
Definition gets {A} (f : State -> A) : M A := fun st => (Ok (f st), st).
Definition modify (f : State -> State) : M unit := fun st => (Ok tt, f st).

Notation "x <~ c1 ;; c2" := (bind c1 (fun x => c2))
  (at level 61, c1 at next level, right associativity).
Notation "c1 ;;; c2" := (bind c1 (fun _ => c2))
  (at level 61, right associativity).

Fixpoint for_each {A} (l : list A) (body : A -> M unit) : M unit :=
  match l with
  | [] => ret tt
  | x :: l' => body x ;;; for_each l' body
  end.

Fixpoint map_res {A B} (f : A -> Res B) (l : list A) : Res (list B) :=
  match l with
  | [] => Ok []
  | x :: l' => y <- f x ;; r <- map_res f l' ;; Ok (y :: r)
  end.

(** ** Module resolution *)

(** [get_module_by_name(model, access_string)] *)
Definition get_module_by_name (model : Obj) (access_string : string) : Res Obj :=
  reduce_getattr (Py.split "."%char access_string) model.

(** [get_module_to_snip(model, snip_module_name)], as a reference into
    [model]: the resolved sub-module, or the model itself when the lookup
    raises [AttributeError]. *)
Definition get_module_to_snip (model : Obj) (snip_module_name : string) : Res Ref :=
  match get_module_by_name model snip_module_name with
  | Ok _ => Ok (Py.split "."%char snip_module_name)
  | Raise AttributeError => Ok []
  | Raise e => Raise e
  end.

(** The object that [self.module_to_snip] refers to. *)
Definition deref (st : State) : Res Obj :=
  reduce_getattr (module_to_snip st) (model st).

(** [will_prune(param_name, exclude_params)] *)
Definition will_prune (param_name : string) (exclude_params : list string) : bool :=
  negb (existsb (fun exclude_param => Py.contains exclude_param param_name)
          exclude_params).

(** ** ScheduleController helpers *)

(** [sorted(schedule.keys())] *)
Fixpoint insert_epoch (x : Z) (l : list Z) : list Z :=
  match l with
  | [] => [x]
  | y :: l' => if (x <=? y)%Z then x :: l else y :: insert_epoch x l'
  end.

Definition sorted_epochs (l : list Z) : list Z := fold_right insert_epoch [] l.

(** [while i < len(schedule_epochs) and epoch >= schedule_epochs[i]: i += 1] *)
Fixpoint while_epoch (schedule_epochs : list Z) (epoch : Z) (i : nat) : nat :=
  match schedule_epochs with
  | [] => i
  | e :: rest => if (epoch >=? e)%Z then while_epoch rest epoch (S i) else i
  end.

(** [get_sparsity(schedule, epoch)].  [schedule_epochs[i-1]] with [i = 0]
    is the last element, and an empty list has none. *)
Definition get_sparsity (schedule : Py.dict Z Qc) (epoch : Z) : Res Qc :=
  let schedule_epochs := sorted_epochs (map fst schedule) in
  let i := while_epoch schedule_epochs epoch 0 in
  let index := match i with
               | O => (List.length schedule_epochs - 1)%nat
               | S j => j
               end in
  match nth_error schedule_epochs index with
  | Some match_epoch => Py.getitem Z.eqb schedule match_epoch
  | None => Raise IndexError
  end.

(** [SniperTraining.load_masks]: the file of (sparsity, max_param_sparsity),
    without the entries whose name contains an excluded string. *)
Definition drop_excluded (exclude_params : list string) (masks : MaskSet) : MaskSet :=
  fold_left
    (fun masks full_name =>
       if existsb (fun exclude_param => Py.contains exclude_param full_name)
            exclude_params
       then Py.del String.eqb masks full_name
       else masks)
    (map fst masks) masks.

Definition load_masks (cfg : Config) (sparsity : Qc) : M MaskSet :=
  fun st =>
    match Py.get key_eqb (masks_pt (disk st)) (sparsity, max_param_sparsity cfg) with
    | Some masks => (Ok (drop_excluded (exclude_params cfg) masks), st)
    | None => (Raise FileNotFoundError, st)
    end.

(** ** ForwardMaskHook *)

(** [module_to_snip.register_forward_pre_hook(hook=h)] *)
Definition register_forward_pre_hook (h : Hook) : M Handle :=
  fun st =>
    match deref st with
    | Ok (Mod _) =>
        let id := next_handle st in
        (Ok id, set_next_handle (S id)
                  (set_forward_pre_hooks (forward_pre_hooks st ++ [(id, h)]) st))
    | Ok (Param _) => (Raise AttributeError, st)
    | Raise e => (Raise e, st)
    end.

(** [handle.remove()] *)
Definition remove_handle (id : Handle) : M unit :=
  modify (fun st =>
    set_forward_pre_hooks (Py.del Nat.eqb (forward_pre_hooks st) id) st).

(** [SniperTraining.update_hooks] *)
Definition update_hooks (new_sparsity : Qc) : M unit :=
  old <~ gets forward_hook ;;
  match old with
  | Some id => remove_handle id
  | None => ret tt
  end ;;;
  if Py.truthy new_sparsity then
    masks <~ gets current_masks ;;
    id <~ register_forward_pre_hook (forward_hook_of masks) ;;
    modify (set_forward_hook (Some id))
  else modify (set_forward_hook None).

(** One iteration of the loop of the hook, or of [restore_init]: the
    parameter that [full_name] names inside the module to prune gets
    [f param.data] as its data. *)
Definition rewrite_param (m n : string) (f : Tensor -> Res Tensor) : M unit :=
  fun st =>
    match
      (module <- deref st ;;
       last_module <- get_module_by_name module m ;;
       param <- getattr last_module n ;;
       data <- data_of param ;;
       new <- f data ;;
       assign (module_to_snip st ++ Py.split "."%char m ++ [n]) new (model st))
    with
    | Ok model' => (Ok tt, set_model model' st)
    | Raise e => (Raise e, st)
    end.

(** The hook itself, called before each forward pass of the module:
    [param.data = param.data * mask.to(param.dtype)] for every entry. *)
Definition run_forward_hook (h : Hook) : M unit :=
  match h with
  | forward_hook_of None => raise AttributeError
  | forward_hook_of (Some masks) =>
      for_each masks (fun entry =>
        let '(full_name, mask) := entry in
        mn <~ lift (Py.unpack2 full_name) ;;
        rewrite_param (fst mn) (snd mn) (fun data => mul data (to_dtype mask)))
  end.

(** ** WeightRestorer: [SniperTraining.restore_init] *)

Definition restore_init (cfg : Config) : M unit :=
  init_values <~ (fun st => match init_values_pt (disk st) with
                            | Some v => (Ok v, st)
                            | None => (Raise FileNotFoundError, st)
                            end) ;;
  current <~ gets current_masks ;;
  match current with
  | None =>
      let drop_len :=
        match snip_module_name cfg with
        | EmptyString => O
        | name => (String.length name + 1)%nat
        end in
      for_each init_values (fun entry =>
        let '(full_name, param_init_values) := entry in
        if Py.startswith full_name (snip_module_name cfg) then
          mn <~ lift (Py.unpack2 full_name) ;;
          let m := Py.drop drop_len (fst mn) in
          rewrite_param m (snd mn) (fun data =>
            let values_to_update := eq_zero data in
            scaled <- mul param_init_values (to_dtype values_to_update) ;;
            add scaled data)
        else ret tt)
  | Some masks =>
      let prefix :=
        match snip_module_name cfg with
        | EmptyString => EmptyString
        | name => (name ++ ".")%string
        end in
      for_each masks (fun entry =>
        let '(full_name, mask) := entry in
        param_init_values <~
          lift (Py.getitem String.eqb init_values (prefix ++ full_name)%string) ;;
        mn <~ lift (Py.unpack2 full_name) ;;
        rewrite_param (fst mn) (snd mn) (fun data =>
          values_to_update <- logical_and (eq_zero data) mask ;;
          scaled <- mul param_init_values (to_dtype values_to_update) ;;
          add scaled data))
  end.

(** [SniperTraining.log_nonzeros_count]: only its division can be observed. *)
Definition log_nonzeros_count : M unit :=
  fun st =>
    match
      (module <- deref st ;;
       let params := map snd (named_parameters module) in
       let nonzeros := fold_left
         (fun acc t => (acc + Z.of_nat (List.length
                          (filter (fun x => negb (Py.eqb x 0%Qc)) t)))%Z)
         params 0%Z in
       let numels := fold_left (fun acc t => (acc + Py.len t)%Z) params 0%Z in
       Py.div (num nonzeros) (num numels))
    with
    | Ok _ => (Ok tt, st)
    | Raise e => (Raise e, st)
    end.

(** ** LearningRateCoordinator *)

(** [SniperTraining.scaling_fn]: the division is evaluated as an argument of
    [min], with no test on its divisor. *)
Definition scaling_fn (cfg : Config) (sparsity_ratio : Qc) : Res Qc :=
  q <- Py.div 1%Qc (1 - sparsity_ratio)%Qc ;;
  Ok (Py.min (max_lr_scaling cfg) q).

(** [for param_group in optimizer.param_groups: param_group['lr'] *= r] *)
Definition scale_groups (lr_ratio : Qc) (o : Optimizer) : Optimizer :=
  map (fun pg => set_lr (pg_lr pg * lr_ratio)%Qc pg) o.

(** [for lr_ratio, param_group in zip(lr_ratios, optimizer.param_groups):
     param_group['lr'] *= lr_ratio] *)
Fixpoint scale_groups_zip (lr_ratios : list Qc) (o : Optimizer) : Optimizer :=
  match lr_ratios, o with
  | r :: rs, pg :: o' => set_lr (pg_lr pg * r)%Qc pg :: scale_groups_zip rs o'
  | _, _ => o
  end.

(** [[new / old for new, old in zip(new_lr_factors, old_lr_factors)]] *)
Fixpoint lr_ratios_of (new_lr_factors old_lr_factors : list Qc) : Res (list Qc) :=
  match new_lr_factors, old_lr_factors with
  | new :: ns, old :: os =>
      r <- Py.div new old ;; rs <- lr_ratios_of ns os ;; Ok (r :: rs)
  | _, _ => Ok []
  end.

(** The factor of one parameter group in the per-parameter mode: the
    default unless the group's name (without the module prefix) has a mask of
    nonzero density. *)
Definition group_lr_factor (cfg : Config) (current : option MaskSet)
    (cutoff : nat) (new_lr_factor : Qc) (param_group : ParamGroup) : Res Qc :=
  match pg_name param_group with
  | None => Raise KeyError
  | Some model_full_name =>
      let full_name := Py.drop cutoff model_full_name in
      match current with
      | None => Raise TypeError
      | Some masks =>
          match Py.get String.eqb masks full_name with
          | Some mask =>
              density <- Py.div (num (count_true mask)) (num (Py.len mask)) ;;
              if Py.truthy density then scaling_fn cfg (1 - density)%Qc
              else Ok new_lr_factor
          | None => Ok new_lr_factor
          end
      end
  end.

Definition nth_default {A} (d : A) (l : list A) (i : nat) : A := nth i l d.

Definition min_len (ls : list nat) : nat :=
  match ls with
  | [] => O
  | n :: ns => fold_left Nat.min ns n
  end.

(** [SniperTraining.update_lrs] *)
Definition update_lrs (cfg : Config) (new_sparsity : Qc) : M unit :=
  if negb (scale_lr cfg) && negb (scale_lr_by_param cfg) then ret tt
  else
    new_lr_factor <~
      (if scale_lr cfg then lift (scaling_fn cfg (new_sparsity / num 100)%Qc)
       else ret 1%Qc) ;;
    if scale_lr_by_param cfg then
      let cutoff :=
        match snip_module_name cfg with
        | EmptyString => O
        | name => (String.length name + 1)%nat
        end in
      new_factors <~
        (fun st =>
           (map_res (fun optim =>
                       map_res (group_lr_factor cfg (current_masks st) cutoff
                                  new_lr_factor) optim)
                    (optimizers st), st)) ;;
      scheds <~ gets schedulers ;;
      match scheds with
      | _ :: _ =>
          st0 <~ gets (fun st => st) ;;
          for_each
            (seq 0 (min_len [List.length (update_step_fns st0);
                             List.length (optim_lr_factors st0);
                             List.length new_factors;
                             List.length (optimizers st0);
                             List.length (schedulers st0)]))
            (fun i =>
               let update := nth_default false (update_step_fns st0) i in
               let old_lr_factors := nth_default [] (optim_lr_factors st0) i in
               let new_lr_factors := nth_default [] new_factors i in
               if update then
                 modify (fun st => set_schedulers
                   (update_nth i
                      (set_step (partial_scheduler_step None (Some new_lr_factors)))
                      (schedulers st)) st)
               else
                 lr_ratios <~ lift (lr_ratios_of new_lr_factors old_lr_factors) ;;
                 modify (fun st => set_optimizers
                   (update_nth i (scale_groups_zip lr_ratios) (optimizers st)) st))
      | [] =>
          st0 <~ gets (fun st => st) ;;
          for_each
            (seq 0 (min_len [List.length (optim_lr_factors st0);
                             List.length new_factors;
                             List.length (optimizers st0)]))
            (fun i =>
               let old_lr_factors := nth_default [] (optim_lr_factors st0) i in
               let new_lr_factors := nth_default [] new_factors i in
               lr_ratios <~ lift (lr_ratios_of new_lr_factors old_lr_factors) ;;
               modify (fun st => set_optimizers
                 (update_nth i (scale_groups_zip lr_ratios) (optimizers st)) st))
      end ;;;
      modify (set_optim_lr_factors new_factors)
    else
      old_lr_factor <~ gets lr_factor ;;
      lr_ratio <~ lift (Py.div new_lr_factor old_lr_factor) ;;
      scheds <~ gets schedulers ;;
      match scheds with
      | _ :: _ =>
          st0 <~ gets (fun st => st) ;;
          for_each
            (seq 0 (min_len [List.length (update_step_fns st0);
                             List.length (optimizers st0);
                             List.length (schedulers st0)]))
            (fun i =>
               let update := nth_default false (update_step_fns st0) i in
               if update then
                 modify (fun st => set_schedulers
                   (update_nth i
                      (set_step (partial_scheduler_step (Some lr_ratio) None))
                      (schedulers st)) st)
               else
                 modify (fun st => set_optimizers
                   (update_nth i (scale_groups lr_ratio) (optimizers st)) st))
      | [] =>
          modify (fun st => set_optimizers
            (map (scale_groups lr_ratio) (optimizers st)) st)
      end ;;;
      modify (set_lr_factor new_lr_factor).

(** [for param_group in optimizer.param_groups:
     param_group['lr'] /= self.lr_factor], which stops at the first group when
    the factor is zero. *)
Definition unscale_groups (factor : Qc) (o : Optimizer) : Res Optimizer :=
  map_res (fun pg => lr <- Py.div (pg_lr pg) factor ;; Ok (set_lr lr pg)) o.

(** [for optim, optim_lr in zip(self.optimizers, self.optim_lrs):
     for param_group in optim.param_groups: param_group['lr'] = optim_lr] *)
Fixpoint reset_groups_zip (os : list Optimizer) (lrs : list Qc) : list Optimizer :=
  match os, lrs with
  | o :: os', optim_lr :: lrs' =>
      map (set_lr optim_lr) o :: reset_groups_zip os' lrs'
  | _, _ => os
  end.

(** [SniperTraining.reset_lrs] *)
Definition reset_lrs (cfg : Config) : M unit :=
  scheds <~ gets schedulers ;;
  match scheds with
  | _ :: _ =>
      st0 <~ gets (fun st => st) ;;
      for_each
        (seq 0 (min_len [List.length (update_step_fns st0);
                         List.length (optimizers st0);
                         List.length (schedulers st0);
                         List.length (step_fns st0)]))
        (fun i =>
           let update := nth_default false (update_step_fns st0) i in
           let step_fn := nth_default class_step (step_fns st0) i in
           if update then
             modify (fun st => set_schedulers
               (update_nth i (set_step step_fn) (schedulers st)) st)
           else
             fun st =>
               match unscale_groups (lr_factor st)
                       (nth_default [] (optimizers st) i) with
               | Ok o' => (Ok tt, set_optimizers
                                    (update_nth i (fun _ => o') (optimizers st)) st)
               | Raise e => (Raise e, st)
               end)
  | [] =>
      modify (fun st => set_optimizers
        (reset_groups_zip (optimizers st) (optim_lrs cfg)) st)
  end.

(** [scheduler_step(self, epoch, lr_factor, lr_factors)] for the scheduler
    at index [i]: the values of [get_lr()] (or of the closed form when an
    epoch is given), scaled by the factor(s), are written to the groups of the
    scheduler's own optimizer. *)
Definition scheduler_step (i : nat) (epoch : option Z)
    (lr_factor : option Qc) (lr_factors : option (list Qc)) : M unit :=
  fun st =>
    match nth_error (schedulers st) i with
    | None => (Raise IndexError, st)
    | Some self =>
        let groups := nth_default [] (optimizers st) (sched_optimizer self) in
        let new_epoch := match epoch with
                         | None => (last_epoch self + 1)%Z
                         | Some e => e
                         end in
        let values :=
          match epoch, get_closed_form_lr self with
          | Some _, Some closed_form => closed_form new_epoch
          | _, _ => get_lr self new_epoch (map pg_lr groups)
          end in
        let values :=
          match lr_factor, lr_factors with
          | Some factor, _ => map (fun value => (factor * value)%Qc) values
          | None, Some factors =>
              map (fun fv => (fst fv * snd fv)%Qc) (combine factors values)
          | None, None => values
          end in
        let groups' :=
          (fix write (gs : Optimizer) (vs : list Qc) : Optimizer :=
             match gs, vs with
             | g :: gs', lr :: vs' => set_lr lr g :: write gs' vs'
             | _, _ => gs
             end) groups values in
        let self' :=
          {| sched_class := sched_class self;
             sched_optimizer := sched_optimizer self;
             last_epoch := new_epoch;
             step_count := (step_count self + 1)%Z;
             get_lr := get_lr self;
             get_closed_form_lr := get_closed_form_lr self;
             last_lr := map pg_lr groups';
             sched_step := sched_step self |} in
        (Ok tt,
         set_optimizers
           (update_nth (sched_optimizer self) (fun _ => groups') (optimizers st))
           (set_schedulers (update_nth i (fun _ => self') (schedulers st)) st))
    end.

(** The training loop's call [scheduler.step()] on the scheduler at index
    [i]: whatever [step] is bound to.  The step method of the class is the
    one [scheduler_step] was copied from, without factors. *)
Definition call_step (i : nat) : M unit :=
  fun st =>
    match nth_error (schedulers st) i with
    | None => (Raise IndexError, st)
    | Some self =>
        match sched_step self with
        | class_step => scheduler_step i None None None st
        | partial_scheduler_step lr_factor lr_factors =>
            scheduler_step i None lr_factor lr_factors st
        end
    end.

(** ** ScheduleController: [step] and [resume_from] *)

Definition step (cfg : Config) : M unit :=
  modify (fun st => set_epoch (epoch st + 1)%Z st) ;;;
  e <~ gets epoch ;;
  match Py.get Z.eqb (schedule cfg) e with
  | Some new_sparsity =>
      modify (set_current_sparsity new_sparsity) ;;;
      (if Py.truthy new_sparsity then
         masks <~ load_masks cfg new_sparsity ;;
         modify (set_current_masks (Some masks)) ;;;
         update_lrs cfg new_sparsity
       else
         modify (set_current_masks None) ;;;
         reset_lrs cfg) ;;;
      (if forward_mask cfg then update_hooks new_sparsity else ret tt) ;;;
      (if restore_init_values cfg then restore_init cfg
       else log_nonzeros_count)
  | None => ret tt
  end.

Definition resume_from (cfg : Config) (epoch : Z)
    (optimizers : list Optimizer) (schedulers : list Scheduler) : M unit :=
  modify (set_epoch epoch) ;;;
  modify (set_optimizers optimizers) ;;;
  modify (set_schedulers schedulers) ;;;
  resume_sparsity <~ lift (get_sparsity (schedule cfg) epoch) ;;
  update_hooks resume_sparsity.

(** ** GradientSensitivity: [SniperTraining.compute_gradients] *)

(** [SniperTraining.load_model] *)
Definition load_model (cfg : Config) (init_values : StateDict) : Res Obj :=
  load_state_dict init_values (model_builder cfg).

(** [mask_params]: the all-ones multipliers of the parameters to prune.
    Multiplying a parameter by its multiplier leaves its value as it was. *)
Definition mask_params (module_to_snip : Obj) (params_to_prune : list string)
    : Res (list Tensor) :=
  fmn <- map_res (fun full_name =>
                    mn <- Py.unpack2 full_name ;;
                    module <- get_module_by_name module_to_snip (fst mn) ;;
                    Ok (module, snd mn))
                 params_to_prune ;;
  map_res (fun mn : Obj * string =>
             param <- getattr (fst mn) (snd mn) ;;
             match param with
             | Param data => Ok (ones_like data)
             | Mod _ => Raise TypeError
             end)
          fmn.

(** The model rebuilt from the initial values, with its multipliers. *)
Definition rebuild (cfg : Config) (init_values : StateDict)
    (params_to_prune : list string) : Res (Obj * list Tensor) :=
  model <- load_model cfg init_values ;;
  ref <- get_module_to_snip model (snip_module_name cfg) ;;
  module_to_snip <- reduce_getattr ref model ;;
  masks <- mask_params module_to_snip params_to_prune ;;
  Ok (model, masks).

(** [[total_grad + grad for total_grad, grad in zip(total_grads, grads)]] *)
Fixpoint add_grads (total_grads grads : list Tensor) : Res (list Tensor) :=
  match total_grads, grads with
  | total_grad :: ts, grad :: gs =>
      t <- add total_grad grad ;; r <- add_grads ts gs ;; Ok (t :: r)
  | _, _ => Ok []
  end.

Fixpoint grads_loop (cfg : Config) (init_values : StateDict)
    (params_to_prune : list string) (model : Obj) (batches : list Batch)
    (total_grads : list Tensor) : Res (list Tensor) :=
  match batches with
  | [] => Ok total_grads
  | batch :: rest =>
      grads <- get_loss_grads cfg model batch ;;
      total_grads <- add_grads total_grads grads ;;
      mm <- rebuild cfg init_values params_to_prune ;;
      grads_loop cfg init_values params_to_prune (fst mm) rest total_grads
  end.

Definition compute_gradients (cfg : Config) (init_values : StateDict) : Res GradMap :=
  model <- load_model cfg init_values ;;
  ref <- get_module_to_snip model (snip_module_name cfg) ;;
  module_to_snip <- reduce_getattr ref model ;;
  match module_to_snip with
  | Param _ => Raise AttributeError
  | Mod _ =>
      let params_to_prune :=
        filter (fun full_name => will_prune full_name (exclude_params cfg))
          (map fst (named_parameters module_to_snip)) in
      masks <- mask_params module_to_snip params_to_prune ;;
      let total_grads := map zeros_like masks in
      total_grads <-
        grads_loop cfg init_values params_to_prune model (batch_iterator cfg)
          total_grads ;;
      let result :=
        fold_left (fun d (nt : string * Tensor) =>
                     Py.set String.eqb d (fst nt) (abs (snd nt)))
          (combine params_to_prune total_grads) [] in
      match batch_iterator cfg with
      | [] => Raise NameError
      | _ :: _ => Ok result
      end
  end.

(** ** Setup: [SniperTraining.train] *)

Definition CLOSED_FORM_LR_SCHEDULERS : list SchedulerClass :=
  [LambdaLR; CyclicLR; CosineAnnealingWarmRestarts; OneCycleLR].

Fixpoint dedup (l : list Qc) : list Qc :=
  match l with
  | [] => []
  | x :: l' => x :: filter (fun y => negb (Py.eqb x y)) (dedup l')
  end.

(** The index of the first group whose [lr] is [optim_lr], or [-1]. *)
Fixpoint first_pg_index (optim_lr : Qc) (o : Optimizer) (pg_index : Z) : Z :=
  match o with
  | [] => (-1)%Z
  | pg :: o' => if Py.eqb (pg_lr pg) optim_lr then pg_index
                else first_pg_index optim_lr o' (pg_index + 1)%Z
  end.

Fixpoint pg_indices_zip (os : list Optimizer) (lrs : list Qc) : list Z :=
  match os, lrs with
  | o :: os', optim_lr :: lrs' =>
      first_pg_index optim_lr o 0%Z :: pg_indices_zip os' lrs'
  | _, _ => map (fun _ => (-1)%Z) os
  end.

Definition save_masks (key : Qc * Qc) (masks : MaskSet) (d : Disk) : Disk :=
  {| init_values_pt := init_values_pt d; total_grads_pt := total_grads_pt d;
     masks_pt := Py.set key_eqb (masks_pt d) key masks |}.

Definition save_total_grads (g : GradMap) (d : Disk) : Disk :=
  {| init_values_pt := init_values_pt d; total_grads_pt := Some g;
     masks_pt := masks_pt d |}.

Definition save_init_values (v : StateDict) (d : Disk) : Disk :=
  {| init_values_pt := Some v; total_grads_pt := total_grads_pt d;
     masks_pt := masks_pt d |}.

(** The part of [train] that prepares the files of [sniper_dir]. *)
Definition prepare_files (cfg : Config) : M unit :=
  st <~ gets (fun st => st) ;;
  init_values <~
    match init_values_pt (disk st) with
    | Some init_values =>
        (if (resume_epoch cfg =? 0)%Z then
           fun st => match load_state_dict init_values (model st) with
                     | Ok model' => (Ok tt, set_model model' st)
                     | Raise e => (Raise e, st)
                     end
         else ret tt) ;;;
        ret init_values
    | None =>
        let init_values := state_dict (model st) in
        modify (fun st => set_disk (save_init_values init_values (disk st)) st) ;;;
        ret init_values
    end ;;
  modify (set_init_values (Some init_values)) ;;;
  let sparsities := sort (map snd (schedule cfg)) in
  missing <~ gets (fun st =>
    dedup (filter (fun sparsity =>
                     Py.truthy sparsity
                     && negb (Py.mem key_eqb (masks_pt (disk st))
                                (sparsity, max_param_sparsity cfg)))
             sparsities)) ;;
  match missing with
  | [] => ret tt
  | _ :: _ =>
      total_grads <~
        (fun st => match total_grads_pt (disk st) with
                   | Some total_grads => (Ok total_grads, st)
                   | None =>
                       match compute_gradients cfg init_values with
                       | Ok total_grads =>
                           (Ok total_grads,
                            set_disk (save_total_grads total_grads (disk st)) st)
                       | Raise e => (Raise e, st)
                       end
                   end) ;;
      for_each (sort missing) (fun sparsity =>
        masks <~ lift (create_masks (shuffle cfg) sparsity total_grads
                         (max_param_sparsity cfg)) ;;
        modify (fun st => set_disk
          (save_masks (sparsity, max_param_sparsity cfg) masks (disk st)) st))
  end.

(** [SniperTraining.train], on the state left by [__init__] that holds the
    caller's model. *)
Definition train (cfg : Config) (optimizers : list Optimizer)
    (schedulers : list Scheduler) : M unit :=
  match Py.get Z.eqb (schedule cfg) 0%Z with
  | None => raise AssertionError
  | Some start_sparsity =>
      modify (set_current_sparsity start_sparsity) ;;;
      modify (set_optimizers optimizers) ;;;
      modify (set_schedulers schedulers) ;;;
      modify (set_step_fns (map sched_step schedulers)) ;;;
      ref <~ (fun st => (get_module_to_snip (model st) (snip_module_name cfg), st)) ;;
      modify (set_module_to_snip ref) ;;;
      prepare_files cfg ;;;
      modify (set_track_pg_indices
        (if track_all_params_lr cfg then map (fun _ => (-1)%Z) optimizers
         else pg_indices_zip optimizers (optim_lrs cfg))) ;;;
      modify (set_update_step_fns
        (map (fun scheduler =>
                existsb (SchedulerClass_eqb (sched_class scheduler))
                  CLOSED_FORM_LR_SCHEDULERS)
           schedulers)) ;;;
      (if scale_lr_by_param cfg then
         modify (set_optim_lr_factors
           (map (fun optimizer => map (fun _ => 1%Qc) optimizer) optimizers))
       else ret tt) ;;;
      if Py.truthy start_sparsity then
        match optimizers with
        | [] => raise AssertionError
        | _ :: _ =>
            if negb (resume_epoch cfg =? 0)%Z then
              resume_from cfg (resume_epoch cfg) optimizers schedulers
            else
              masks <~ load_masks cfg start_sparsity ;;
              modify (set_current_masks (Some masks)) ;;;
              update_lrs cfg start_sparsity ;;;
              if forward_mask cfg then
                current <~ gets current_masks ;;
                id <~ register_forward_pre_hook (forward_hook_of current) ;;
                modify (set_forward_hook (Some id))
              else ret tt
        end
      else ret tt
  end.

(** ** Helpers outside the trainer *)

(** [get_param_by_name(module, full_name)]: only the last [getattr] is
    inside the [try]; [None] is returned as [Ok None]. *)
Definition get_param_by_name (module : Obj) (full_name : string)
    : Res (option Obj) :=
  mn <- Py.unpack2 full_name ;;
  last_module <- get_module_by_name module (fst mn) ;;
  match getattr last_module (snd mn) with
  | Ok param => Ok (Some param)
  | Raise AttributeError => Ok None
  | Raise e => Raise e
  end.



(** * The vocabulary of the properties

    The views, invariants, relations and runs on a small model that the
    statements below are written with. *)

Unset Implicit Arguments.

(** ** The cap of [create_masks] *)

(** A parameter of 100 elements with the distinct sensitivities 1..100. *)
Definition grads_1_to_100 : GradMap :=
  [("w"%string, map (fun n => num (Z.of_nat n)) (seq 1 100))].

(** ** Frames: what a method leaves untouched *)

Definition frames {A V} (view : State -> V) (c : M A) : Prop :=
  forall st, view (snd (c st)) = view st.

(** The part of the state that the learning-rate coordinator owns, with the
    epoch counter and the files. *)
Definition lr_view (st : State) :=
  (optimizers st, schedulers st, lr_factor st, optim_lr_factors st,
   epoch st, disk st, update_step_fns st, step_fns st).

(** The part of the state that the hook life cycle owns. *)
Definition hook_view (st : State) :=
  (forward_hook st, forward_pre_hooks st, next_handle st, current_masks st).

(** ** The schedule controller, one transition at a time *)

(** What [step] does once the new epoch is found in the schedule. *)
Definition lr_transition (cfg : Config) (new_sparsity : Qc) : M unit :=
  if Py.truthy new_sparsity then
    masks <~ load_masks cfg new_sparsity ;;
    modify (set_current_masks (Some masks)) ;;;
    update_lrs cfg new_sparsity
  else
    modify (set_current_masks None) ;;;
    reset_lrs cfg.

(** What [step] does after the learning rates: the hook, then the weights. *)
Definition after_lrs (cfg : Config) (new_sparsity : Qc) : M unit :=
  (if forward_mask cfg then update_hooks new_sparsity else ret tt) ;;;
  (if restore_init_values cfg then restore_init cfg else log_nonzeros_count).

(** ** Invariants: what a method keeps true *)

Definition preserves {A} (P : State -> Prop) (c : M A) : Prop :=
  forall st, P st -> P (snd (c st)).

(** ** The learning-rate coordinator without schedulers *)

Definition no_schedulers (st : State) : Prop := schedulers st = [].

(** The training loop calling [step] once per epoch, [n] times, as long as
    no call raises. *)
Fixpoint steps (cfg : Config) (n : nat) : M unit :=
  match n with
  | O => ret tt
  | S n' => step cfg ;;; steps cfg n'
  end.

(** ** A small model for the scenarios

    A model with a pruned sub-module [tts] (an encoder and a decoder of four
    weights each) and a head outside of it; two batches whose gradients with
    respect to the multipliers are the halves of the batch tensor. *)

Definition tensor (l : list Z) : Tensor := map num l.

Definition fx_model : Obj :=
  Mod [("tts"%string,
        Mod [("encoder"%string, Mod [("weight"%string, Param (tensor [1; 0; 3; 0]%Z))]);
             ("decoder"%string, Mod [("weight"%string, Param (tensor [0; 2; 0; 4]%Z))])]);
       ("head"%string, Mod [("weight"%string, Param (tensor [5; 6]%Z))])].

Definition fx_batches : list Batch :=
  [[("x"%string, tensor [1; 2; 3; 4; 5; 6; 7; 8]%Z)];
   [("x"%string, tensor [-1; 2; -3; 4; 5; 6; 7; 8]%Z)]].

Definition fx_loss_grads (_ : Obj) (batch : Batch) : Res (list Tensor) :=
  match batch with
  | [(_, x)] => Ok [firstn 4 x; skipn 4 x]
  | _ => Raise KeyError
  end.

Definition fx_cfg (sched : Py.dict Z Qc) (fwd_mask : bool) (resume : Z)
    (max_scaling : Qc) : Config :=
  {| schedule := sched;
     model_builder := fx_model;
     snip_module_name := "tts"%string;
     batch_iterator := fx_batches;
     get_loss_grads := fx_loss_grads;
     forward_mask := fwd_mask;
     scale_lr := true;
     scale_lr_by_param := false;
     max_lr_scaling := max_scaling;
     max_param_sparsity := num 100;
     exclude_params := ["embed"%string; "norm"%string];
     restore_init_values := true;
     resume_epoch := resume;
     optim_lrs := [num 1];
     track_all_params_lr := false;
     shuffle := fun l => l |}.

Definition fx_disk : Disk :=
  {| init_values_pt := None; total_grads_pt := None; masks_pt := [] |}.

Definition fx_optimizer : Optimizer :=
  [ {| pg_name := Some "tts.encoder.weight"%string; pg_lr := num 1 |};
    {| pg_name := Some "tts.decoder.weight"%string; pg_lr := num 1 |} ].

(** The state that [train] leaves on the small model. *)
Definition fx_trained (cfg : Config) (schedulers : list Scheduler) : State :=
  snd (train cfg [fx_optimizer] schedulers (init_state fx_model fx_disk)).

Definition cfg_0_50_0 : Config :=
  fx_cfg [(0%Z, num 0); (2%Z, num 50); (4%Z, num 0)] true 0%Z (num 2).

(** ** Resuming *)

Definition masks_50 : MaskSet :=
  [("encoder.weight"%string, [false; false; false; false]);
   ("decoder.weight"%string, [true; true; true; true])].

Definition masks_75 : MaskSet :=
  [("encoder.weight"%string, [false; false; false; false]);
   ("decoder.weight"%string, [false; false; true; true])].

(** Schedule {0: 50, 2: 75}, resumed at epoch 3. *)
Definition cfg_resume : Config :=
  fx_cfg [(0%Z, num 50); (2%Z, num 75)] true 3%Z (num 2).

(** The same schedule with [forward_mask=False], resumed at epoch 1. *)
Definition cfg_resume_unmasked : Config :=
  fx_cfg [(0%Z, num 50); (2%Z, num 75)] false 1%Z (num 2).

(** ** Closed-form schedulers *)

(** A [LambdaLR] whose closed form is the constant 1.0 for both groups. *)
Definition fx_lambda_lr : Scheduler :=
  {| sched_class := LambdaLR; sched_optimizer := O; last_epoch := 0%Z;
     step_count := 1%Z; get_lr := fun _ _ => [num 1; num 1];
     get_closed_form_lr := None; last_lr := [num 1; num 1];
     sched_step := class_step |}.

(** Schedule {0: 0, 1: 50, 2: 75, 3: 0} with the factor capped at 100. *)
Definition cfg_closed_form : Config :=
  fx_cfg [(0%Z, num 0); (1%Z, num 50); (2%Z, num 75); (3%Z, num 0)]
    true 0%Z (num 100).

(** ** Gradient sensitivity *)






(** The value that a call returned. *)
Definition returned {A} (default : A) (r : Res A) : A :=
  match r with
  | Ok a => a
  | Raise _ => default
  end.

(** ** Looking parameters up before and after an assignment *)

(** Two results of a lookup are related when they are parameters with
    related data, or both modules, or the same failure. *)
Definition lookup_rel (R : Tensor -> Tensor -> Prop) (r r' : Res Obj) : Prop :=
  match r, r' with
  | Ok (Param t), Ok (Param t') => R t t'
  | Ok (Mod _), Ok (Mod _) => True
  | Raise e, Raise e' => e = e'
  | _, _ => False
  end.

(** Two models are related when every path resolves alike in both, to
    parameters that the relation of the path relates. *)
Definition model_rel (R : Ref -> Tensor -> Tensor -> Prop) (o o' : Obj) : Prop :=
  forall q, lookup_rel (R q) (reduce_getattr q o) (reduce_getattr q o').

(** ** The arithmetic of one restoration *)

(** The data that [restore_init] computes for one parameter:
    [init * values_to_update.to(dtype) + data], where [values_to_update] is
    [data == 0.0], and-ed with the mask when there is one. *)
Definition restore_fn (init : Tensor) (mask : option BoolTensor) (data : Tensor)
    : Res Tensor :=
  match mask with
  | None =>
      let values_to_update := eq_zero data in
      scaled <- mul init (to_dtype values_to_update) ;;
      add scaled data
  | Some mask =>
      values_to_update <- logical_and (eq_zero data) mask ;;
      scaled <- mul init (to_dtype values_to_update) ;;
      add scaled data
  end.

(** Whether the mask marks position [i] as active; every position is
    active without a mask. *)
Definition active (mask : option BoolTensor) (i : nat) (b : bool) : Prop :=
  match mask with
  | None => b = true
  | Some mk => nth_error mk i = Some b
  end.

(** ** The restoration loop *)

(** What one iteration of [restore_init] is about to do: the module path
    [m] and the attribute [n] of the parameter, its initial values and its
    mask, if any. *)
Record Job : Type := {
  job_m : string;
  job_n : string;
  job_init : Tensor;
  job_mask : option BoolTensor
}.

(** The path of the parameter from the module to prune. *)
Definition job_path (j : Job) : Ref := Py.split "."%char (job_m j) ++ [job_n j].

(** An iteration skips its entry, raises before it touches anything, or
    rewrites one parameter. *)
Definition run_plan (plan : option (Res Job)) : M unit :=
  match plan with
  | None => ret tt
  | Some (Raise e) => raise e
  | Some (Ok j) =>
      rewrite_param (job_m j) (job_n j) (restore_fn (job_init j) (job_mask j))
  end.

Fixpoint planned (plans : list (option (Res Job))) : list Job :=
  match plans with
  | [] => []
  | Some (Ok j) :: rest => j :: planned rest
  | _ :: rest => planned rest
  end.


(** Nonzero elements are where they were. *)
Definition frame_rel (t t' : Tensor) : Prop :=
  List.length t' = List.length t
  /\ forall i x, nth_error t i = Some x -> x <> 0%Qc -> nth_error t' i = Some x.


(** ** [restore_init] as a list of plans *)

Definition snip_prefix (cfg : Config) : string :=
  match snip_module_name cfg with
  | EmptyString => EmptyString
  | name => (name ++ ".")%string
  end.

Definition snip_drop_len (cfg : Config) : nat :=
  match snip_module_name cfg with
  | EmptyString => O
  | name => (String.length name + 1)%nat
  end.

(** The plan of the branch with masks, for one entry of [current_masks]. *)
Definition masked_plan (cfg : Config) (init_values : StateDict)
    (entry : string * BoolTensor) : option (Res Job) :=
  Some (param_init_values <-
          Py.getitem String.eqb init_values (snip_prefix cfg ++ fst entry)%string ;;
        mn <- Py.unpack2 (fst entry) ;;
        Ok {| job_m := fst mn; job_n := snd mn;
              job_init := param_init_values; job_mask := Some (snd entry) |}).

(** The plan of the branch without masks, for one entry of the initial
    values. *)
Definition unmasked_plan (cfg : Config) (entry : string * Tensor)
    : option (Res Job) :=
  if Py.startswith (fst entry) (snip_module_name cfg) then
    Some (mn <- Py.unpack2 (fst entry) ;;
          Ok {| job_m := Py.drop (snip_drop_len cfg) (fst mn); job_n := snd mn;
                job_init := snd entry; job_mask := None |})
  else None.

(** Without masks: no two entries of the initial values that belong to the
    module reach one parameter with different values. *)
Definition distinct_targets (cfg : Config) (iv : StateDict) : Prop :=
  forall name1 init1 name2 init2 m1 n1 m2 n2,
    In (name1, init1) iv -> In (name2, init2) iv ->
    Py.startswith name1 (snip_module_name cfg) = true ->
    Py.startswith name2 (snip_module_name cfg) = true ->
    Py.unpack2 name1 = Ok (m1, n1) -> Py.unpack2 name2 = Ok (m2, n2) ->
    Py.split "."%char (Py.drop (snip_drop_len cfg) m1) ++ [n1]
    = Py.split "."%char (Py.drop (snip_drop_len cfg) m2) ++ [n2] ->
    init1 = init2.

(** ** Masking and restoring on the small model *)

(** What a forward pass of the module to prune does before its own
    computation: it calls the registered forward pre-hooks in order. *)
Definition call_forward_pre_hooks : M unit :=
  hooks <~ gets forward_pre_hooks ;;
  for_each hooks (fun h => run_forward_hook (snd h)).

(** Schedule {0: 0, 2: 75, 4: 50, 6: 0}. *)
Definition cfg_0_75_50_0 : Config :=
  fx_cfg [(0%Z, num 0); (2%Z, num 75); (4%Z, num 50); (6%Z, num 0)]
    true 0%Z (num 2).

(** The state at epoch 2 (sparsity 75) after a forward pass has applied the
    masks. *)
Definition st_masked_75 : State :=
  snd ((steps cfg_0_75_50_0 2 ;;; call_forward_pre_hooks)
         (fx_trained cfg_0_75_50_0 [])).

(** The same state once sparsity 50 has become current, where [step] calls
    [restore_init]. *)
Definition st_relaxed_50 : State := set_current_masks (Some masks_50) st_masked_75.

Definition decoder_weight (st : State) : Tensor :=
  match data_of (returned (Mod [])
                   (reduce_getattr ["tts"; "decoder"; "weight"]%string (model st)))
  with
  | Ok t => t
  | Raise _ => []
  end.

(** ** Names that do not resolve *)

(** The parameter that [restore_init] looks for under the module to prune. *)
Definition finds_param (st : State) (path : Ref) : Prop :=
  exists t, reduce_getattr (module_to_snip st ++ path) (model st) = Ok (Param t).

(** An entry of the masks does not resolve: no initial values under its full
    name, no dot to split it at, or no parameter at its path. *)
Definition masked_unresolved (cfg : Config) (st : State) (iv : StateDict)
    (name : string) : Prop :=
  Py.get String.eqb iv (snip_prefix cfg ++ name)%string = None
  \/ Py.unpack2 name = Raise ValueError
  \/ exists m n, Py.unpack2 name = Ok (m, n)
                 /\ ~ finds_param st (Py.split "."%char m ++ [n]).

(** An entry of the initial values of the module does not resolve. *)
Definition unmasked_unresolved (cfg : Config) (st : State) (name : string) : Prop :=
  Py.unpack2 name = Raise ValueError
  \/ exists m n, Py.unpack2 name = Ok (m, n)
                 /\ ~ finds_param st
                        (Py.split "."%char (Py.drop (snip_drop_len cfg) m) ++ [n]).

(** A state whose current masks name a parameter that the model does not
    have. *)
Definition st_unknown_mask : State :=
  set_current_masks (Some [("vocoder.weight"%string, [true; true])])
    (fx_trained cfg_0_50_0 []).

(** ** The life cycle of the forward pre-hook *)

(** The hook registry and the handle that [self.forward_hook] holds. *)
Definition registry_view (st : State) :=
  (forward_hook st, forward_pre_hooks st, next_handle st).

(** Nothing is registered, or exactly the hook of the current handle. *)
Definition at_most_one_hook (st : State) : Prop :=
  forward_pre_hooks st = []
  \/ exists id h, forward_hook st = Some id /\ forward_pre_hooks st = [(id, h)].

(** The calls that the training script makes after [train]. *)
Inductive Call : Type :=
| do_step
| do_resume_from (epoch : Z) (optimizers : list Optimizer)
    (schedulers : list Scheduler).

Definition run_call (cfg : Config) (c : Call) : M unit :=
  match c with
  | do_step => step cfg
  | do_resume_from e os ss => resume_from cfg e os ss
  end.

(** The state after a sequence of calls, each started where the previous
    one stopped, whether it returned or raised. *)
Fixpoint after_calls (cfg : Config) (calls : list Call) (st : State) : State :=
  match calls with
  | [] => st
  | c :: rest => after_calls cfg rest (snd (run_call cfg c st))
  end.

(** ** Setup: what [train] leaves *)

Definition hoare {A} (P : State -> Prop) (c : M A) (Q : State -> Prop) : Prop :=
  forall st, P st -> Q (snd (c st)).

(** No hook is registered and no mask set is current. *)
Definition unhooked (st : State) : Prop :=
  hook_view st = (None, [], next_handle st, None).

(** No mask set is current, and a registered hook was built from [None]. *)
Definition masks_unbound (st : State) : Prop :=
  current_masks st = None
  /\ forall id h, In (id, h) (forward_pre_hooks st) -> h = forward_hook_of None.

(** ** Further runs on the small model *)

(** Schedule {0: 0, 1: 100}: the masks of sparsity 100 are created by
    [train], and the [step] call that reaches epoch 1 raises in
    [update_lrs]. *)
Definition cfg_0_100 : Config :=
  fx_cfg [(0%Z, num 0); (1%Z, num 100)] true 0%Z (num 2).

(** ** [get_sparsity]: the entry of the greatest key below the epoch *)

Inductive ascending : list Z -> Prop :=
| ascending_nil : ascending []
| ascending_cons x l :
    Forall (fun y => (x <= y)%Z) l -> ascending l -> ascending (x :: l).

(** ** The per-parameter threshold of [create_masks] *)

(** The number of elements that [t > c] marks false. *)
Definition count_le (c : Qc) (t : Tensor) : nat :=
  List.length (filter (fun x => negb (Py.gtb x c)) t).

Inductive ascendingQ : list Qc -> Prop :=
| ascendingQ_nil : ascendingQ []
| ascendingQ_cons x l :
    Forall (fun y => (x <= y)%Qc) l -> ascendingQ l -> ascendingQ (x :: l).

(** ** The schedule controller over a whole run *)

(** The epoch counter and the sparsity that the trainer believes current. *)
Definition sched_view (st : State) := (epoch st, current_sparsity st).

(** ** The files of [sniper_dir] *)

(** Every file of [d] is in [d'] with the same content. *)
Definition keeps_files (d d' : Disk) : Prop :=
  (forall iv, init_values_pt d = Some iv -> init_values_pt d' = Some iv)
  /\ (forall g, total_grads_pt d = Some g -> total_grads_pt d' = Some g)
  /\ (forall key masks, Py.get key_eqb (masks_pt d) key = Some masks ->
        Py.get key_eqb (masks_pt d') key = Some masks).

(** ** The per-parameter mode on the small model *)

(** A scheduler that is not closed-form: its rates follow the current
    ones. *)
Definition fx_chainable_lr : Scheduler :=
  {| sched_class := ChainableLR; sched_optimizer := O; last_epoch := 0%Z;
     step_count := 1%Z; get_lr := fun _ lrs => lrs;
     get_closed_form_lr := None; last_lr := [num 1; num 1];
     sched_step := class_step |}.

(** Schedule {0: 0, 1: 75, 2: 0} with [scale_lr=False] and
    [scale_lr_by_param=True]. *)
Definition cfg_by_param : Config :=
  {| schedule := [(0%Z, num 0); (1%Z, num 75); (2%Z, num 0)];
     model_builder := fx_model;
     snip_module_name := "tts"%string;
     batch_iterator := fx_batches;
     get_loss_grads := fx_loss_grads;
     forward_mask := true;
     scale_lr := false;
     scale_lr_by_param := true;
     max_lr_scaling := num 2;
     max_param_sparsity := num 100;
     exclude_params := ["embed"%string; "norm"%string];
     restore_init_values := true;
     resume_epoch := 0%Z;
     optim_lrs := [num 1];
     track_all_params_lr := false;
     shuffle := fun l => l |}.

(** The state that [train] leaves with the chainable scheduler, once the
    masks of sparsity 75 are current. *)
Definition st_by_param : State :=
  set_current_masks (Some masks_75) (fx_trained cfg_by_param [fx_chainable_lr]).

(** ** What the forward hook does to the weights *)



(** ** Names of parameters *)

(** The name that [named_parameters] gives the object at [path] below an
    object of name [prefix]. *)
Definition qualify_path (prefix : string) (path : Ref) : string :=
  fold_left qualify path prefix.

(** A name that [register_parameter] and [add_module] accept: not empty and
    without a dot. *)
Definition attr_name (n : string) : Prop :=
  n <> EmptyString /\ Py.contains "." n = false.

(** The attributes of every module of the tree have names that PyTorch
    accepts, no two alike. *)
Fixpoint well_named (o : Obj) : Prop :=
  match o with
  | Param _ => True
  | Mod attrs =>
      NoDup (map fst attrs)
      /\ (fix all (l : list (string * Obj)) : Prop :=
            match l with
            | [] => True
            | (n, c) :: l' => attr_name n /\ well_named c /\ all l'
            end) attrs
  end.

(** ** [global_prune] *)


(** * Properties *)

(** ** Frames: what a method leaves untouched *)

Lemma frames_ret {A V} (view : State -> V) (a : A) : frames view (ret a).
Proof. intro st. reflexivity. Qed.

Lemma frames_raise {A V} (view : State -> V) e : frames view (@raise A e).
Proof. intro st. reflexivity. Qed.

Lemma frames_lift {A V} (view : State -> V) (r : Res A) : frames view (lift r).
Proof. intro st. reflexivity. Qed.

Lemma frames_gets {A V} (view : State -> V) (f : State -> A) :
  frames view (gets f).
Proof. intro st. reflexivity. Qed.

Lemma frames_modify {V} (view : State -> V) f :
  (forall st, view (f st) = view st) -> frames view (modify f).
Proof. intros H st. simpl. apply H. Qed.

Lemma frames_bind {A B V} (view : State -> V) (c : M A) (k : A -> M B) :
  frames view c -> (forall a, frames view (k a)) -> frames view (bind c k).
Proof.
  intros Hc Hk st. unfold bind. specialize (Hc st).
  destruct (c st) as [[a|e] st1]; simpl in *.
  - rewrite Hk. exact Hc.
  - exact Hc.
Qed.

Lemma frames_for_each {A V} (view : State -> V) (l : list A) body :
  (forall x, frames view (body x)) -> frames view (for_each l body).
Proof.
  intros Hb. induction l as [|x l IH]; simpl.
  - apply frames_ret.
  - apply frames_bind; auto.
Qed.

(** A command followed by one that frames the view shows the view the
    command left, whether or not either of them raised. *)
Lemma frames_after {A B V} (view : State -> V) (c : M A) (k : M B) st :
  frames view k ->
  view (snd (bind c (fun _ => k) st)) = view (snd (c st)).
Proof.
  intros Hk. unfold bind. destruct (c st) as [[a|e] st1]; simpl.
  - apply Hk.
  - reflexivity.
Qed.

Lemma lr_view_eq st st' :
  lr_view st' = lr_view st ->
  optimizers st' = optimizers st /\ schedulers st' = schedulers st
  /\ lr_factor st' = lr_factor st /\ optim_lr_factors st' = optim_lr_factors st
  /\ epoch st' = epoch st /\ disk st' = disk st
  /\ update_step_fns st' = update_step_fns st /\ step_fns st' = step_fns st.
Proof. unfold lr_view. intro H. injection H. intuition. Qed.

Lemma rewrite_param_frames_lr m n f : frames lr_view (rewrite_param m n f).
Proof. intro st. unfold rewrite_param. destruct (rbind _ _); reflexivity. Qed.

Lemma rewrite_param_frames_hooks m n f : frames hook_view (rewrite_param m n f).
Proof. intro st. unfold rewrite_param. destruct (rbind _ _); reflexivity. Qed.

Ltac frame_step :=
  first
    [ apply frames_ret | apply frames_raise | apply frames_lift
    | apply frames_gets
    | apply rewrite_param_frames_lr | apply rewrite_param_frames_hooks
    | apply frames_bind; [| intro]
    | apply frames_for_each; intro
    | apply frames_modify; intro; reflexivity
    | match goal with
      | |- frames _ (match ?x with _ => _ end) => destruct x
      | |- frames _ (if ?x then _ else _) => destruct x
      end ].

Ltac frame := repeat frame_step.

Lemma restore_init_frames_lr cfg : frames lr_view (restore_init cfg).
Proof.
  unfold restore_init. frame.
  intro st. destruct (init_values_pt (disk st)); reflexivity.
Qed.

Lemma restore_init_frames_hooks cfg : frames hook_view (restore_init cfg).
Proof.
  unfold restore_init. frame.
  intro st. destruct (init_values_pt (disk st)); reflexivity.
Qed.

Lemma log_nonzeros_count_frames {V} (view : State -> V) :
  frames view log_nonzeros_count.
Proof. intro st. unfold log_nonzeros_count. destruct (rbind _ _); reflexivity. Qed.

Lemma update_hooks_frames_lr s : frames lr_view (update_hooks s).
Proof.
  unfold update_hooks, remove_handle. frame.
  intro st. unfold register_forward_pre_hook.
  destruct (deref st) as [[|]|]; reflexivity.
Qed.

Lemma load_masks_frames {V} (view : State -> V) cfg s :
  frames view (load_masks cfg s).
Proof. intro st. unfold load_masks. destruct (Py.get _ _ _); reflexivity. Qed.

(** ** The schedule controller, one transition at a time *)

Lemma step_unfold cfg st :
  step cfg st =
  let st1 := set_epoch (epoch st + 1)%Z st in
  match Py.get Z.eqb (schedule cfg) (epoch st + 1)%Z with
  | Some new_sparsity =>
      (lr_transition cfg new_sparsity ;;; after_lrs cfg new_sparsity)
        (set_current_sparsity new_sparsity st1)
  | None => (Ok tt, st1)
  end.
Proof.
  unfold step, bind, modify, gets; simpl.
  destruct (Py.get Z.eqb (schedule cfg) (epoch st + 1)%Z) as [s|]; reflexivity.
Qed.

Lemma after_lrs_frames_lr cfg s : frames lr_view (after_lrs cfg s).
Proof.
  unfold after_lrs. apply frames_bind; [|intro].
  - destruct (forward_mask cfg); [apply update_hooks_frames_lr | apply frames_ret].
  - destruct (restore_init_values cfg);
      [apply restore_init_frames_lr | apply log_nonzeros_count_frames].
Qed.

(** [prepare_files] only changes the model, the files and
    [self.init_values]. *)
Lemma prepare_files_frames {V} (view : State -> V) cfg :
  (forall st model, view (set_model model st) = view st) ->
  (forall st disk, view (set_disk disk st) = view st) ->
  (forall st iv, view (set_init_values iv st) = view st) ->
  frames view (prepare_files cfg).
Proof.
  intros Hmodel Hdisk Hinit. unfold prepare_files.
  apply frames_bind; [apply frames_gets|intro st].
  apply frames_bind; [|intro iv].
  { destruct (init_values_pt (disk st)).
    - apply frames_bind; [|intro; apply frames_ret].
      destruct (resume_epoch cfg =? 0)%Z; [|apply frames_ret].
      intro st'. destruct (load_state_dict _ _); simpl; auto.
    - apply frames_bind; [|intro; apply frames_ret].
      apply frames_modify. intro. apply Hdisk. }
  apply frames_bind; [apply frames_modify; intro; apply Hinit|intros _].
  cbv zeta.
  apply frames_bind; [apply frames_gets|intro missing].
  destruct missing as [|x missing]; [apply frames_ret|].
  apply frames_bind; [|intro tg].
  { intro st'. destruct (total_grads_pt (disk st')); [reflexivity|].
    destruct (compute_gradients _ _); simpl; auto. }
  apply frames_for_each. intro sp.
  apply frames_bind; [apply frames_lift|intro masks].
  apply frames_modify. intro. apply Hdisk.
Qed.

(** The epoch counter advances by one at every call, and the files are only
    read. *)
Lemma step_epoch cfg st : epoch (snd (step cfg st)) = (epoch st + 1)%Z.
Proof.
  assert (F : forall s, frames (fun st => epoch st)
                          (lr_transition cfg s ;;; after_lrs cfg s)).
  { intro s. apply frames_bind; [|intro].
    - unfold lr_transition, update_lrs, reset_lrs.
      frame; try apply load_masks_frames;
        intro st'; destruct (unscale_groups _ _); reflexivity.
    - intro st'. apply (lr_view_eq _ _ (after_lrs_frames_lr cfg s st')). }
  rewrite step_unfold; simpl.
  destruct (Py.get Z.eqb (schedule cfg) (epoch st + 1)%Z) as [s|]; simpl.
  - rewrite F. reflexivity.
  - reflexivity.
Qed.

(** ** Invariants: what a method keeps true *)

Lemma preserves_ret {A} (P : State -> Prop) (a : A) : preserves P (ret a).
Proof. intros st H. exact H. Qed.

Lemma preserves_raise {A} (P : State -> Prop) e : preserves P (@raise A e).
Proof. intros st H. exact H. Qed.

Lemma preserves_lift {A} (P : State -> Prop) (r : Res A) : preserves P (lift r).
Proof. intros st H. exact H. Qed.


Lemma preserves_modify (P : State -> Prop) f :
  (forall st, P st -> P (f st)) -> preserves P (modify f).
Proof. intros H st HP. simpl. apply H, HP. Qed.

Lemma preserves_bind {A B} (P : State -> Prop) (c : M A) (k : A -> M B) :
  preserves P c -> (forall a, preserves P (k a)) -> preserves P (bind c k).
Proof.
  intros Hc Hk st HP. unfold bind. specialize (Hc st HP).
  destruct (c st) as [[a|e] st1]; simpl in *.
  - apply Hk, Hc.
  - exact Hc.
Qed.

Lemma preserves_for_each {A} (P : State -> Prop) (l : list A) body :
  (forall x, preserves P (body x)) -> preserves P (for_each l body).
Proof.
  intros Hb. induction l as [|x l IH]; simpl.
  - apply preserves_ret.
  - apply preserves_bind; auto.
Qed.

Lemma frames_preserves {A V} (view : State -> V) (P : V -> Prop) (c : M A) :
  frames view c -> preserves (fun st => P (view st)) c.
Proof. intros F st H. rewrite F. exact H. Qed.

(** ** The learning-rate coordinator without schedulers *)



Lemma reset_lrs_no_schedulers_eq cfg st :
  no_schedulers st ->
  reset_lrs cfg st =
  (Ok tt, set_optimizers (reset_groups_zip (optimizers st) (optim_lrs cfg)) st).
Proof.
  intro H. unfold reset_lrs, bind, gets. simpl. rewrite H. reflexivity.
Qed.




(** The effect of a transition to sparsity 0 on the optimizers when there
    are no schedulers. *)
Lemma step_to_zero_optimizers cfg st s :
  no_schedulers st ->
  Py.get Z.eqb (schedule cfg) (epoch st + 1)%Z = Some s ->
  Py.truthy s = false ->
  optimizers (snd (step cfg st))
  = reset_groups_zip (optimizers st) (optim_lrs cfg).
Proof.
  intros Hs Hget Hz. rewrite step_unfold. simpl. rewrite Hget.
  assert (E : optimizers (snd ((lr_transition cfg s ;;; after_lrs cfg s)
                (set_current_sparsity s (set_epoch (epoch st + 1)%Z st))))
              = optimizers (snd (lr_transition cfg s
                (set_current_sparsity s (set_epoch (epoch st + 1)%Z st))))).
  { apply (frames_after (fun st => optimizers st)).
    intro st'. apply (lr_view_eq _ _ (after_lrs_frames_lr cfg s st')). }
  rewrite E. unfold lr_transition. rewrite Hz.
  unfold bind, modify. simpl.
  rewrite reset_lrs_no_schedulers_eq by exact Hs. reflexivity.
Qed.



Lemma step_not_scheduled cfg st :
  Py.get Z.eqb (schedule cfg) (epoch st + 1)%Z = None ->
  step cfg st = (Ok tt, set_epoch (epoch st + 1)%Z st).
Proof. intro H. rewrite step_unfold. simpl. rewrite H. reflexivity. Qed.

(** The effect of a transition to a nonzero sparsity in the uniform mode
    when there are no schedulers: every group's rate is multiplied by the
    ratio of the new factor to the old one. *)
Lemma step_to_nonzero_uniform cfg st s masks f r :
  no_schedulers st ->
  Py.get Z.eqb (schedule cfg) (epoch st + 1)%Z = Some s ->
  Py.truthy s = true ->
  Py.get key_eqb (masks_pt (disk st)) (s, max_param_sparsity cfg) = Some masks ->
  scale_lr cfg = true ->
  scale_lr_by_param cfg = false ->
  scaling_fn cfg (s / num 100)%Qc = Ok f ->
  Py.div f (lr_factor st) = Ok r ->
  lr_view (snd (step cfg st))
  = lr_view (set_lr_factor f
               (set_optimizers (map (scale_groups r) (optimizers st))
                  (set_epoch (epoch st + 1)%Z st))).
Proof.
  intros Hs Hget Ht Hm Hscale Hby Hf Hr.
  rewrite step_unfold. simpl. rewrite Hget.
  rewrite (frames_after lr_view) by apply after_lrs_frames_lr.
  unfold lr_transition. rewrite Ht.
  unfold bind at 1. unfold load_masks at 1. simpl. rewrite Hm.
  unfold bind at 1. simpl.
  unfold update_lrs. rewrite Hscale, Hby. simpl.
  unfold bind at 1. unfold lift at 1. rewrite Hf.
  unfold bind at 1. simpl.
  unfold bind at 1. unfold lift at 1. rewrite Hr.
  unfold bind at 1. simpl. red in Hs. rewrite Hs.
  reflexivity.
Qed.

(** ** The scenario of the schedule 0 -> 50 -> 0 *)

Lemma bind_ok_inv {A B} (c : M A) (k : A -> M B) st b st' :
  bind c k st = (Ok b, st') ->
  exists a st1, c st = (Ok a, st1) /\ k a st1 = (Ok b, st').
Proof.
  unfold bind. destruct (c st) as [[a|e] st1]; [eauto | discriminate].
Qed.

Lemma key_eqb_refl k : key_eqb k k = true.
Proof.
  unfold key_eqb, Py.eqb.
  replace (fst k ?= fst k)%Qc with Eq by (symmetry; apply Qceq_alt; reflexivity).
  replace (snd k ?= snd k)%Qc with Eq by (symmetry; apply Qceq_alt; reflexivity).
  reflexivity.
Qed.

Lemma mem_set_same (d : Py.dict (Qc * Qc) MaskSet) k v :
  Py.mem key_eqb (Py.set key_eqb d k v) k = true.
Proof.
  unfold Py.mem. induction d as [|[k' v'] d IH]; simpl.
  - rewrite key_eqb_refl. reflexivity.
  - destruct (key_eqb k k') eqn:E; simpl; rewrite E; [reflexivity | exact IH].
Qed.

Lemma mem_set_mono (d : Py.dict (Qc * Qc) MaskSet) k v k2 :
  Py.mem key_eqb d k2 = true -> Py.mem key_eqb (Py.set key_eqb d k v) k2 = true.
Proof.
  unfold Py.mem. induction d as [|[k' v'] d IH]; simpl; intro H.
  - discriminate.
  - destruct (key_eqb k k'); simpl; destruct (key_eqb k2 k'); auto.
Qed.

Lemma sort_In t x : In x (sort t) <-> In x t.
Proof.
  induction t as [|y t IH]; simpl; [tauto|].
  assert (Ins : forall l, In x (insert_sorted y l) <-> x = y \/ In x l).
  { induction l as [|z l IHl]; simpl; [intuition|].
    destruct (Py.leb y z); simpl; [intuition|]. rewrite IHl. intuition. }
  rewrite Ins, IH. intuition.
Qed.

Lemma dedup_In l x : In x l -> In x (dedup l).
Proof.
  induction l as [|y l IH]; simpl; intro H; [contradiction|].
  destruct H as [->|H]; [left; reflexivity|].
  destruct (Py.eqb y x) eqn:E.
  - left. unfold Py.eqb in E. apply Qceq_alt.
    destruct (y ?= x)%Qc; [reflexivity | discriminate | discriminate].
  - right. apply filter_In. split; [apply IH, H|]. rewrite E. reflexivity.
Qed.

(** The loop of [train] that creates the missing mask files keeps the files
    that are there and, when it completes, has written one for each missing
    sparsity. *)
Lemma create_missing_masks cfg total_grads l :
  forall st st',
    for_each l (fun sparsity =>
      masks <~ lift (create_masks (shuffle cfg) sparsity total_grads
                       (max_param_sparsity cfg)) ;;
      modify (fun st => set_disk
        (save_masks (sparsity, max_param_sparsity cfg) masks (disk st)) st))
      st = (Ok tt, st') ->
    (forall key, Py.mem key_eqb (masks_pt (disk st)) key = true ->
                 Py.mem key_eqb (masks_pt (disk st')) key = true)
    /\ (forall sparsity, In sparsity l ->
          Py.mem key_eqb (masks_pt (disk st'))
            (sparsity, max_param_sparsity cfg) = true).
Proof.
  induction l as [|sp l IH]; intros st st' H; simpl in H.
  - injection H as <-. split; [auto | intros ? []].
  - apply bind_ok_inv in H. destruct H as ([] & st1 & H1 & H).
    apply bind_ok_inv in H1. destruct H1 as (masks & st1' & Hc & Hs).
    unfold lift in Hc. injection Hc as Hc <-.
    unfold modify in Hs. injection Hs as <-.
    destruct (IH _ _ H) as [Hmono Hall]. split.
    + intros key Hk. apply Hmono. simpl. apply mem_set_mono, Hk.
    + intros sparsity [<-|Hin]; [|apply Hall, Hin].
      apply Hmono. simpl. apply mem_set_same.
Qed.

(** When [prepare_files] completes, the mask file of every nonzero sparsity
    of the schedule exists. *)
Lemma prepare_files_masks cfg st st' :
  prepare_files cfg st = (Ok tt, st') ->
  forall sparsity, In sparsity (map snd (schedule cfg)) ->
    Py.truthy sparsity = true ->
    Py.mem key_eqb (masks_pt (disk st')) (sparsity, max_param_sparsity cfg) = true.
Proof.
  unfold prepare_files. intro H.
  apply bind_ok_inv in H. destruct H as (st_ & st1 & H1 & H).
  unfold gets in H1. injection H1 as <- <-.
  apply bind_ok_inv in H. destruct H as (iv & st2 & Hiv & H).
  assert (D2 : masks_pt (disk st2) = masks_pt (disk st)).
  { destruct (init_values_pt (disk st)).
    - apply bind_ok_inv in Hiv. destruct Hiv as ([] & st2' & Hl & Hr).
      unfold ret in Hr. injection Hr as _ <-.
      destruct (resume_epoch cfg =? 0)%Z.
      + destruct (load_state_dict s (model st)); [|discriminate].
        injection Hl as <-. reflexivity.
      + unfold ret in Hl. injection Hl as <-. reflexivity.
    - apply bind_ok_inv in Hiv. destruct Hiv as ([] & st2' & Hl & Hr).
      unfold ret in Hr. injection Hr as _ <-.
      unfold modify in Hl. injection Hl as <-. reflexivity. }
  apply bind_ok_inv in H. destruct H as ([] & st3 & H3 & H).
  unfold modify in H3. injection H3 as <-.
  cbv zeta in H.
  apply bind_ok_inv in H. destruct H as (missing & st4 & H4 & H).
  unfold gets in H4. injection H4 as <- <-.
  intros sparsity Hin Htr.
  destruct (Py.mem key_eqb (masks_pt (disk st2)) (sparsity, max_param_sparsity cfg))
    eqn:Emem.
  - (* the file was there *)
    destruct (dedup _) as [|x missing] in H.
    + unfold ret in H. injection H as <-. simpl. exact Emem.
    + apply bind_ok_inv in H. destruct H as (tg & st5 & H5 & H).
      apply create_missing_masks in H. destruct H as [Hmono _].
      apply Hmono.
      destruct (total_grads_pt (disk (set_init_values (Some iv) st2))).
      * injection H5 as _ <-. exact Emem.
      * destruct (compute_gradients cfg iv); [|discriminate].
        injection H5 as _ <-. exact Emem.
  - (* the file was missing *)
    assert (Hmiss : In sparsity
              (dedup (filter (fun sparsity =>
                 Py.truthy sparsity
                 && negb (Py.mem key_eqb
                            (masks_pt (disk (set_init_values (Some iv) st2)))
                            (sparsity, max_param_sparsity cfg)))
                 (sort (map snd (schedule cfg)))))).
    { apply dedup_In, filter_In. split; [apply sort_In, Hin|].
      simpl. rewrite Htr, Emem. reflexivity. }
    destruct (dedup _) as [|x missing] eqn:Ed in H, Hmiss; [contradiction|].
    apply bind_ok_inv in H. destruct H as (tg & st5 & H5 & H).
    apply create_missing_masks in H. destruct H as [_ Hall].
    apply Hall, sort_In, Hmiss.
Qed.

(** What [train] leaves when the schedule starts at sparsity 0: the epoch
    counter at 0, the factor at 1.0, the caller's optimizers, no scheduler
    when none was given, and the mask file of every nonzero sparsity of the
    schedule. *)
Lemma train_from_zero cfg m d os start st0 :
  Py.get Z.eqb (schedule cfg) 0%Z = Some start ->
  Py.truthy start = false ->
  train cfg os [] (init_state m d) = (Ok tt, st0) ->
  epoch st0 = 0%Z /\ lr_factor st0 = num 1 /\ schedulers st0 = []
  /\ optimizers st0 = os
  /\ forall sparsity, In sparsity (map snd (schedule cfg)) ->
       Py.truthy sparsity = true ->
       Py.mem key_eqb (masks_pt (disk st0)) (sparsity, max_param_sparsity cfg)
       = true.
Proof.
  intros Hget Hz H. unfold train in H. rewrite Hget, Hz in H.
  repeat (apply bind_ok_inv in H;
          let u := fresh "u" in let st := fresh "st" in
          let E := fresh "E" in
          destruct H as (u & st & E & H)).
  unfold ret in H. injection H as <-.
  destruct u, u0, u1, u2, u4, u6, u7, u8.
  unfold modify in E, E0, E1, E2, E4, E6, E7.
  injection E as <-. injection E0 as <-. injection E1 as <-. injection E2 as <-.
  injection E3 as _ <-. injection E4 as <-.
  injection E6 as <-. injection E7 as <-.
  destruct u5.
  pose proof (prepare_files_masks cfg _ _ E5) as Hm.
  assert (V : frames (fun st => (epoch st, lr_factor st, schedulers st, optimizers st))
                (prepare_files cfg)).
  { apply prepare_files_frames; intros; reflexivity. }
  specialize (V (set_module_to_snip u3
                   (set_step_fns []
                      (set_schedulers []
                         (set_optimizers os
                            (set_current_sparsity start (init_state m d))))))).
  simpl map in E5. unfold frames in V. rewrite E5 in V. simpl in V. injection V as V1 V2 V3 V4.
  assert (E9 : epoch st9 = 0%Z /\ lr_factor st9 = num 1 /\ schedulers st9 = []
               /\ optimizers st9 = os /\ disk st9 = disk st6).
  { destruct (scale_lr_by_param cfg).
    - unfold modify in E8. injection E8 as <-. simpl. auto.
    - unfold ret in E8. injection E8 as <-. simpl. auto. }
  destruct E9 as (F1 & F2 & F3 & F4 & F5). rewrite F5. auto.
Qed.

Lemma qc_eq (x y : Qc) : (x == y)%Q -> x = y.
Proof. apply Qc_is_canon. Qed.

Lemma scaling_fn_half cfg :
  max_lr_scaling cfg = num 2 ->
  scaling_fn cfg (num 50 / num 100)%Qc = Ok (num 2).
Proof.
  intro H. unfold scaling_fn. rewrite H.
  assert (E : (1 - num 50 / num 100)%Qc = frac 1 2) by (apply qc_eq; reflexivity).
  rewrite E. unfold Py.div.
  replace (Py.eqb (frac 1 2) 0%Qc) with false by reflexivity.
  assert (E2 : Py.min (num 2) (1 / frac 1 2)%Qc = num 2)
    by (apply qc_eq; reflexivity).
  change (Ok (Py.min (num 2) (1 / frac 1 2)%Qc) = Ok (num 2)).
  rewrite E2. reflexivity.
Qed.

Lemma scale_groups_const (a r b : Qc) groups :
  (a * r)%Qc = b ->
  Forall (fun pg => pg_lr pg = a) groups ->
  scale_groups r groups = map (set_lr b) groups.
Proof.
  intros Hab H. induction H as [|pg groups Hpg _ IH]; simpl.
  - reflexivity.
  - rewrite Hpg, Hab, IH. reflexivity.
Qed.

Lemma set_lr_set_lr a b groups :
  map (set_lr a) (map (set_lr b) groups) = map (set_lr a) groups.
Proof. rewrite map_map. reflexivity. Qed.

(** The scenario from a state at epoch 0 with the factor 1.0 in which the
    mask file of sparsity 50 is present. *)
Lemma learning_rates_from_epoch_0 cfg st0 groups masks :
  schedule cfg = [(0%Z, num 0); (2%Z, num 50); (4%Z, num 0)] ->
  scale_lr cfg = true ->
  scale_lr_by_param cfg = false ->
  max_lr_scaling cfg = num 2 ->
  optim_lrs cfg = [num 1] ->
  epoch st0 = 0%Z ->
  lr_factor st0 = num 1 ->
  schedulers st0 = [] ->
  optimizers st0 = [groups] ->
  Forall (fun pg => pg_lr pg = num 1) groups ->
  Py.get key_eqb (masks_pt (disk st0)) (num 50, max_param_sparsity cfg)
    = Some masks ->
  let st1 := snd (step cfg st0) in
  let st2 := snd (step cfg st1) in
  let st3 := snd (step cfg st2) in
  let st4 := snd (step cfg st3) in
  (epoch st2 = 2%Z /\ optimizers st2 = [map (set_lr (num 2)) groups])
  /\ (epoch st4 = 4%Z /\ optimizers st4 = [map (set_lr (num 1)) groups]).
Proof.
  intros Hsched Hscale Hby Hmax Hlrs He Hf Hs Ho Hg Hm st1 st2 st3 st4.
  (* epoch 1: not scheduled *)
  assert (E1 : st1 = set_epoch 1%Z st0).
  { unfold st1. rewrite step_not_scheduled; rewrite ?He, ?Hsched; reflexivity. }
  (* epoch 2: sparsity 50 *)
  assert (V2 : lr_view st2
               = lr_view (set_lr_factor (num 2)
                   (set_optimizers (map (scale_groups (num 2)) (optimizers st1))
                      (set_epoch (epoch st1 + 1)%Z st1)))).
  { unfold st2.
    apply step_to_nonzero_uniform with (s := num 50) (masks := masks);
      rewrite ?E1; simpl; rewrite ?He, ?Hsched, ?Hf; try assumption;
      try reflexivity.
    apply scaling_fn_half; assumption. }
  apply lr_view_eq in V2. simpl in V2.
  destruct V2 as (O2 & S2 & F2 & _ & Ep2 & _).
  rewrite E1 in O2, S2, Ep2. simpl in O2, S2, Ep2. rewrite Ho in O2.
  simpl in O2.
  rewrite (scale_groups_const (num 1) (num 2) (num 2)) in O2;
    [| apply qc_eq; reflexivity | assumption].
  (* epoch 3: not scheduled *)
  assert (E3 : st3 = set_epoch 3%Z st2).
  { unfold st3. rewrite step_not_scheduled; rewrite ?Ep2, ?Hsched; reflexivity. }
  (* epoch 4: sparsity 0 *)
  assert (O4 : optimizers st4
               = reset_groups_zip (optimizers st3) (optim_lrs cfg)).
  { unfold st4.
    apply step_to_zero_optimizers with (s := num 0);
      rewrite ?E3; simpl; rewrite ?Hsched; try reflexivity.
    red. simpl. congruence. }
  split; split.
  - exact Ep2.
  - exact O2.
  - unfold st4. rewrite step_epoch. rewrite E3. simpl. reflexivity.
  - rewrite O4, E3, Hlrs. simpl. rewrite O2. simpl.
    rewrite set_lr_set_lr. reflexivity.
Qed.

(** ** The scenario on the small model *)

(** C2. Schedule {0: 0, 2: 50, 4: 0}, one optimizer whose groups all have
    the rate 1.0, uniform scaling capped at 2.0, [optim_lrs = (1.0,)], no
    schedulers, once [train] has returned: after the second [step] call the
    epoch is 2 and every group has the rate 2.0, after the fourth the epoch
    is 4 and every group has the rate 1.0. *)
Theorem schedule_0_50_0_learning_rates cfg m d groups st0 :
  schedule cfg = [(0%Z, num 0); (2%Z, num 50); (4%Z, num 0)] ->
  scale_lr cfg = true ->
  scale_lr_by_param cfg = false ->
  max_lr_scaling cfg = num 2 ->
  optim_lrs cfg = [num 1] ->
  Forall (fun pg => pg_lr pg = num 1) groups ->
  train cfg [groups] [] (init_state m d) = (Ok tt, st0) ->
  let st1 := snd (step cfg st0) in
  let st2 := snd (step cfg st1) in
  let st3 := snd (step cfg st2) in
  let st4 := snd (step cfg st3) in
  (epoch st2 = 2%Z /\ optimizers st2 = [map (set_lr (num 2)) groups])
  /\ (epoch st4 = 4%Z /\ optimizers st4 = [map (set_lr (num 1)) groups]).
Proof.
  intros Hsched Hscale Hby Hmax Hlrs Hg Ht.
  destruct (train_from_zero cfg m d [groups] (num 0) st0) as (He & Hf & Hs & Ho & Hm);
    [rewrite Hsched; reflexivity | reflexivity | exact Ht |].
  destruct (Py.get key_eqb (masks_pt (disk st0)) (num 50, max_param_sparsity cfg))
    as [masks|] eqn:Em.
  - apply (learning_rates_from_epoch_0 cfg st0 groups masks); assumption.
  - specialize (Hm (num 50)). unfold Py.mem in Hm. rewrite Em in Hm.
    rewrite Hsched in Hm. simpl in Hm.
    assert (false = true); [|discriminate]. apply Hm; [auto | reflexivity].
Qed.

Lemma schedule_0_50_0_learning_rates_witness :
  let st0 := fx_trained cfg_0_50_0 [] in
  let st1 := snd (step cfg_0_50_0 st0) in
  let st2 := snd (step cfg_0_50_0 st1) in
  let st3 := snd (step cfg_0_50_0 st2) in
  let st4 := snd (step cfg_0_50_0 st3) in
  (epoch st2 = 2%Z /\ optimizers st2 = [map (set_lr (num 2)) fx_optimizer])
  /\ (epoch st4 = 4%Z /\ optimizers st4 = [map (set_lr (num 1)) fx_optimizer]).
Proof.
  apply (schedule_0_50_0_learning_rates cfg_0_50_0 fx_model fx_disk fx_optimizer
           (fx_trained cfg_0_50_0 []));
    try (vm_compute; reflexivity).
  repeat constructor.
Defined.


(** ** The uniform scaling factor at the ends of the sparsity range *)

Lemma eqb_true_eq (x y : Qc) : Py.eqb x y = true -> x = y.
Proof.
  unfold Py.eqb. intro H. apply Qceq_alt.
  destruct (x ?= y)%Qc; [reflexivity | discriminate | discriminate].
Qed.

Lemma eqb_refl (x : Qc) : Py.eqb x x = true.
Proof.
  unfold Py.eqb. replace (x ?= x)%Qc with Eq; [reflexivity|].
  symmetry. apply Qceq_alt. reflexivity.
Qed.

Lemma eqb_false_neq (x y : Qc) : Py.eqb x y = false -> x <> y.
Proof. intros H E. subst. rewrite eqb_refl in H. discriminate. Qed.

Lemma neq_eqb_false (x y : Qc) : x <> y -> Py.eqb x y = false.
Proof.
  intro H. destruct (Py.eqb x y) eqn:E; [|reflexivity].
  elim H. apply eqb_true_eq, E.
Qed.

(** Below full sparsity the factor is defined. *)
Lemma scaling_fn_defined cfg (s : Qc) :
  s <> num 100 -> exists f, scaling_fn cfg (s / num 100)%Qc = Ok f.
Proof.
  intro H. unfold scaling_fn, Py.div.
  rewrite neq_eqb_false.
  - eexists. reflexivity.
  - intro E. apply H.
    assert (N : num 100 <> 0%Qc) by discriminate.
    assert (E2 : s = ((1 - (1 - s / num 100)) * num 100)%Qc) by (field; exact N).
    rewrite E2, E. apply qc_eq. reflexivity.
Qed.

(** C10. At the scheduled sparsity 100 the uniform factor is
    [1.0 / (1.0 - 1.0)]: [update_lrs] raises [ZeroDivisionError] before it
    changes anything, whenever [scale_lr] is enabled. *)
Theorem update_lrs_full_sparsity_raises cfg st :
  scale_lr cfg = true ->
  scaling_fn cfg (num 100 / num 100)%Qc = Raise ZeroDivisionError
  /\ update_lrs cfg (num 100) st = (Raise ZeroDivisionError, st).
Proof.
  intro H.
  assert (E : scaling_fn cfg (num 100 / num 100)%Qc = Raise ZeroDivisionError).
  { unfold scaling_fn, Py.div.
    replace (1 - num 100 / num 100)%Qc with 0%Qc by (apply qc_eq; reflexivity).
    reflexivity. }
  split; [exact E|].
  unfold update_lrs. rewrite H. simpl.
  unfold bind at 1. unfold lift at 1. rewrite E. reflexivity.
Qed.

Lemma update_lrs_full_sparsity_raises_witness :
  scaling_fn cfg_0_50_0 (num 100 / num 100)%Qc = Raise ZeroDivisionError
  /\ update_lrs cfg_0_50_0 (num 100) (fx_trained cfg_0_50_0 [])
     = (Raise ZeroDivisionError, fx_trained cfg_0_50_0 []).
Proof.
  apply (update_lrs_full_sparsity_raises cfg_0_50_0 (fx_trained cfg_0_50_0 [])).
  reflexivity.
Defined.

(** ** Resuming *)

(** C7. [train] with schedule {0: 50, 2: 75} and [resume_epoch=3] returns
    normally with the epoch counter at 3 and the learning rates untouched; the
    schedule entry with the greatest key below 3 gives sparsity 75 and the
    mask file of sparsity 75 is there, but [resume_from] never loads it:
    [current_masks] stays [None], and the hook it registers was built from
    [None], so that calling it raises [AttributeError]. *)
Theorem resume_from_loads_no_masks :
  let r := train cfg_resume [fx_optimizer] [] (init_state fx_model fx_disk) in
  let st := snd r in
  fst r = Ok tt
  /\ epoch st = 3%Z
  /\ get_sparsity (schedule cfg_resume) 3%Z = Ok (num 75)
  /\ Py.get key_eqb (masks_pt (disk st)) (num 75, num 100) = Some masks_75
  /\ current_masks st = None
  /\ forward_pre_hooks st = [(O, forward_hook_of None)]
  /\ fst (run_forward_hook (forward_hook_of None) st) = Raise AttributeError
  /\ optimizers st = [fx_optimizer]
  /\ lr_factor st = num 1.
Proof. repeat split; vm_compute; reflexivity. Qed.

(** C3. After the setup call [train] with schedule {0: 50, 2: 75} and
    [resume_epoch=3], one forward pre-hook is registered while the current
    sparsity is 50, and it applies no MaskSet at all: it was built from
    [None] although the mask files of sparsities 50 and 75 exist.  With
    [forward_mask=False] and [resume_epoch=1] the hook is registered all the
    same, and the [step] call that reaches epoch 2 makes the MaskSet of
    sparsity 75 current and leaves the old hook in place. *)
Theorem resumed_hook_ignores_current_masks :
  (let st := fx_trained cfg_resume [] in
   current_sparsity st = num 50
   /\ Py.get key_eqb (masks_pt (disk st)) (num 50, num 100) = Some masks_50
   /\ forward_hook st = Some O
   /\ forward_pre_hooks st = [(O, forward_hook_of None)])
  /\
  (let st1 := fx_trained cfg_resume_unmasked [] in
   let r2 := step cfg_resume_unmasked st1 in
   forward_pre_hooks st1 = [(O, forward_hook_of None)]
   /\ fst r2 = Ok tt
   /\ epoch (snd r2) = 2%Z
   /\ current_sparsity (snd r2) = num 75
   /\ current_masks (snd r2) = Some masks_75
   /\ forward_pre_hooks (snd r2) = [(O, forward_hook_of None)]).
Proof. repeat split; vm_compute; reflexivity. Qed.

(** ** Closed-form schedulers *)

Lemma all_rates_dec (x : Qc) (os : list Optimizer) :
  forallb (forallb (fun pg => Py.eqb (pg_lr pg) x)) os = true ->
  Forall (Forall (fun pg => pg_lr pg = x)) os.
Proof.
  intro H. apply Forall_forall. intros o Ho. apply Forall_forall. intros pg Hpg.
  rewrite forallb_forall in H. specialize (H o Ho).
  rewrite forallb_forall in H. apply eqb_true_eq, H, Hpg.
Qed.

(** C6. A [LambdaLR] scheduler is classified as closed-form and its step is
    replaced at each transition, and put back at the transition to sparsity
    0.  In the uniform mode the replacement multiplies the closed-form values
    by the ratio of the new factor to the previous one: at the second
    transition (50 -> 75) the current factor is 4.0, the step is bound to
    [lr_factor=2.0], and calling it writes 2.0 (not 4.0) times the
    closed-form value 1.0 into the groups. *)
Theorem closed_form_step_scaled_by_ratio :
  let cfg := cfg_closed_form in
  let st0 := fx_trained cfg [fx_lambda_lr] in
  let st1 := snd (step cfg st0) in
  let st2 := snd (step cfg st1) in
  let st2' := snd (call_step O st2) in
  let st3 := snd (step cfg st2') in
  update_step_fns st0 = [true]
  /\ (lr_factor st1 = num 2
      /\ exists f, map sched_step (schedulers st1)
                   = [partial_scheduler_step (Some f) None] /\ f = num 2)
  /\ (lr_factor st2 = num 4
      /\ exists f, map sched_step (schedulers st2)
                   = [partial_scheduler_step (Some f) None] /\ f = num 2)
  /\ Forall (Forall (fun pg => pg_lr pg = num 2)) (optimizers st2')
  /\ map sched_step (schedulers st3) = [class_step].
Proof.
  repeat split; try (vm_compute; reflexivity);
    try (apply qc_eq; vm_compute; reflexivity).
  - eexists. split; [vm_compute; reflexivity | apply qc_eq; reflexivity].
  - eexists. split; [vm_compute; reflexivity | apply qc_eq; reflexivity].
  - apply all_rates_dec. vm_compute. reflexivity.
Qed.

(** ** Gradient sensitivity *)









Lemma tensor_this_inj (t t' : Tensor) : map this t = map this t' -> t = t'.
Proof.
  revert t'. induction t as [|x t IH]; intros [|y t'] H; try discriminate.
  - reflexivity.
  - simpl in H. injection H as Hx Ht. f_equal.
    + apply Qc_decomp, Hx.
    + apply IH, Ht.
Qed.



(** ** Looking parameters up before and after an assignment *)

Lemma lookup_rel_refl (R : Tensor -> Tensor -> Prop) r :
  (forall t, R t t) -> lookup_rel R r r.
Proof. intro H. destruct r as [[t|attrs]|e]; simpl; auto. Qed.

Lemma lookup_rel_impl (R R' : Tensor -> Tensor -> Prop) r r' :
  (forall t t', R t t' -> R' t t') -> lookup_rel R r r' -> lookup_rel R' r r'.
Proof.
  intro H. destruct r as [[t|attrs]|e], r' as [[t'|attrs']|e']; simpl; auto.
Qed.

Lemma lookup_rel_trans (R1 R2 R3 : Tensor -> Tensor -> Prop) r1 r2 r3 :
  (forall a b c, R1 a b -> R2 b c -> R3 a c) ->
  lookup_rel R1 r1 r2 -> lookup_rel R2 r2 r3 -> lookup_rel R3 r1 r3.
Proof.
  intro H.
  destruct r1 as [[t1|a1]|e1], r2 as [[t2|a2]|e2], r3 as [[t3|a3]|e3];
    simpl; try tauto; try congruence.
  apply H.
Qed.

Lemma reduce_getattr_app p q o :
  reduce_getattr (p ++ q) o = rbind (reduce_getattr p o) (reduce_getattr q).
Proof.
  revert o. induction p as [|n p IH]; intro o; simpl.
  - reflexivity.
  - destruct (getattr o n) as [o'|e]; simpl; [apply IH | reflexivity].
Qed.

Lemma assign_attr_spec name f attrs attrs' :
  assign_attr name f attrs = Ok attrs' ->
  (exists x x', Py.get String.eqb attrs name = Some x /\ f x = Ok x'
                /\ Py.get String.eqb attrs' name = Some x')
  /\ (forall other, String.eqb other name = false ->
        Py.get String.eqb attrs' other = Py.get String.eqb attrs other).
Proof.
  revert attrs'. induction attrs as [|[k x] attrs IH]; intros attrs' H; simpl in H.
  - discriminate.
  - destruct (String.eqb name k) eqn:E.
    + destruct (f x) as [x'|] eqn:Ef; simpl in H; [|discriminate].
      injection H as <-. split.
      * exists x, x'. simpl. rewrite E. auto.
      * intros other Ho. simpl. apply String.eqb_eq in E. subst k.
        rewrite Ho. reflexivity.
    + destruct (assign_attr name f attrs) as [r|] eqn:Er; simpl in H; [|discriminate].
      injection H as <-. destruct (IH r eq_refl) as [(x0 & x0' & G & F & G') Hother].
      split.
      * exists x0, x0'. simpl. rewrite E. auto.
      * intros other Ho. simpl. destruct (String.eqb other k); [reflexivity|].
        apply Hother, Ho.
Qed.

(** After [p.data = v] the parameter at [p] holds [v] and every other path
    resolves as before. *)
Lemma assign_rel p v o o' :
  assign p v o = Ok o' ->
  model_rel (fun q t t' => (q = p -> t' = v) /\ (q <> p -> t' = t)) o o'.
Proof.
  revert o o'. induction p as [|n p IH]; intros o o' H q.
  - destruct o as [t|attrs]; simpl in H; [|discriminate].
    injection H as <-. destruct q as [|m q]; simpl.
    + split; [reflexivity | congruence].
    + reflexivity.
  - destruct o as [t|attrs]; simpl in H; [discriminate|].
    destruct (assign_attr n (assign p v) attrs) as [attrs'|] eqn:Ea;
      simpl in H; [|discriminate].
    injection H as <-.
    destruct (assign_attr_spec _ _ _ _ Ea) as [(x & x' & G & F & G') Hother].
    destruct q as [|m q]; simpl; [exact I|].
    destruct (String.eqb m EmptyString); [simpl; reflexivity|].
    destruct (String.eqb m n) eqn:E.
    + apply String.eqb_eq in E. subst m. rewrite G, G'. simpl.
      eapply lookup_rel_impl; [|apply (IH x x' F q)].
      intros t t' [H1 H2]. split.
      * intro Hq. injection Hq as Hq. auto.
      * intro Hq. apply H2. congruence.
    + rewrite (Hother m E).
      apply lookup_rel_refl. intro t. split; [|reflexivity].
      intro Hq. injection Hq as Hm _. subst m.
      rewrite String.eqb_refl in E. discriminate.
Qed.

(** ** Strings: paths of qualified names *)

Lemma split_cons sep s : exists w ws, Py.split sep s = w :: ws.
Proof.
  induction s as [|c s [w [ws IH]]]; simpl.
  - eauto.
  - destruct (Ascii.eqb c sep); [eauto|]. rewrite IH. eauto.
Qed.

Lemma split_inj sep s s' : Py.split sep s = Py.split sep s' -> s = s'.
Proof.
  revert s'. induction s as [|c s IH]; intros [|c' s'] H; simpl in H.
  - reflexivity.
  - destruct (split_cons sep s') as [w [ws E]]. rewrite E in H.
    destruct (Ascii.eqb c' sep); discriminate.
  - destruct (split_cons sep s) as [w [ws E]]. rewrite E in H.
    destruct (Ascii.eqb c sep); discriminate.
  - destruct (Ascii.eqb c sep) eqn:Ec, (Ascii.eqb c' sep) eqn:Ec'.
    + apply Ascii.eqb_eq in Ec, Ec'. subst. injection H as H.
      f_equal. apply IH, H.
    + destruct (split_cons sep s') as [w [ws E]]. rewrite E in H. discriminate.
    + destruct (split_cons sep s) as [w [ws E]]. rewrite E in H. discriminate.
    + destruct (split_cons sep s) as [w [ws E]].
      destruct (split_cons sep s') as [w' [ws' E']].
      rewrite E, E' in H. injection H as Hc Hw Hws. subst c'.
      f_equal. apply IH. rewrite E, E'. congruence.
Qed.

(** The path that [m, n = name.rsplit('.', 1)] followed by [m.split('.')]
    walks is the one of [name.split('.')]. *)
Lemma split_rsplit1 sep s m n :
  Py.rsplit1 sep s = Some (m, n) -> Py.split sep s = Py.split sep m ++ [n].
Proof.
  revert m n. induction s as [|c s IH]; intros m n H; simpl in H.
  - discriminate.
  - destruct (Py.rsplit1 sep s) as [[m' n']|] eqn:E.
    + injection H as <- <-. simpl. rewrite (IH m' n' eq_refl).
      destruct (Ascii.eqb c sep); [reflexivity|].
      destruct (split_cons sep m') as [w [ws Ew]]. rewrite Ew. reflexivity.
    + destruct (Ascii.eqb c sep) eqn:Ec; [|discriminate].
      injection H as <- <-. simpl. rewrite Ec.
      clear IH. f_equal.
      (* no separator in [s] *)
      revert E. induction s as [|d s IHs]; simpl; intro E.
      * reflexivity.
      * destruct (Py.rsplit1 sep s) as [[? ?]|]; [discriminate|].
        destruct (Ascii.eqb d sep); [discriminate|].
        rewrite (IHs eq_refl). reflexivity.
Qed.

(** ** The arithmetic of one restoration *)

Lemma nth_error_ex {A} (l : list A) i :
  (i < List.length l)%nat -> exists x, nth_error l i = Some x.
Proof.
  intro H. destruct (nth_error l i) eqn:E; [eauto|].
  apply nth_error_None in E. lia.
Qed.

Lemma nth_error_lt {A} (l : list A) i x :
  nth_error l i = Some x -> (i < List.length l)%nat.
Proof. intro H. apply nth_error_Some. congruence. Qed.

Lemma zip_with_spec f a b r :
  zip_with f a b = Ok r ->
  List.length b = List.length a /\ List.length r = List.length a
  /\ forall i x y, nth_error a i = Some x -> nth_error b i = Some y ->
       nth_error r i = Some (f x y).
Proof.
  revert b r. induction a as [|x a IH]; intros [|y b] r H; simpl in H;
    try discriminate.
  - injection H as <-. repeat split. intros [|i]; discriminate.
  - destruct (zip_with f a b) as [r'|] eqn:E; simpl in H; [|discriminate].
    injection H as <-. destruct (IH b r' E) as (L1 & L2 & N).
    simpl. repeat split; try congruence.
    intros [|i] x0 y0 Hx Hy; simpl in *.
    + congruence.
    + apply N; assumption.
Qed.

Lemma logical_and_spec a b r :
  logical_and a b = Ok r ->
  List.length b = List.length a /\ List.length r = List.length a
  /\ forall i x y, nth_error a i = Some x -> nth_error b i = Some y ->
       nth_error r i = Some (x && y).
Proof.
  revert b r. induction a as [|x a IH]; intros [|y b] r H; simpl in H;
    try discriminate.
  - injection H as <-. repeat split. intros [|i]; discriminate.
  - destruct (logical_and a b) as [r'|] eqn:E; simpl in H; [|discriminate].
    injection H as <-. destruct (IH b r' E) as (L1 & L2 & N).
    simpl. repeat split; try congruence.
    intros [|i] x0 y0 Hx Hy; simpl in *.
    + congruence.
    + apply N; assumption.
Qed.

Lemma scaled_plus (a x : Qc) (c : bool) :
  (c = true -> x = 0%Qc) ->
  (a * (if c then 1 else 0) + x)%Qc = if c then a else x.
Proof. intro H. destruct c; [rewrite H by reflexivity|]; ring. Qed.

(** Element by element: a zero that is active takes the initial value,
    every other element stays. *)
Lemma restore_fn_spec init mask data new :
  restore_fn init mask data = Ok new ->
  List.length new = List.length data
  /\ forall i x, nth_error data i = Some x ->
       exists a b, nth_error init i = Some a /\ active mask i b
                   /\ nth_error new i = Some (if Py.eqb x 0%Qc && b then a else x).
Proof.
  intro H.
  assert (G : exists vtu,
             List.length vtu = List.length data
             /\ (forall i x, nth_error data i = Some x ->
                   exists b, active mask i b
                             /\ nth_error vtu i = Some (Py.eqb x 0%Qc && b))
             /\ rbind (mul init (to_dtype vtu)) (fun scaled => add scaled data)
                = Ok new).
  { destruct mask as [mk|]; simpl in H.
    - destruct (logical_and (eq_zero data) mk) as [vtu|] eqn:E; simpl in H;
        [|discriminate].
      destruct (logical_and_spec _ _ _ E) as (L1 & L2 & N).
      unfold eq_zero in L1, L2, N. rewrite length_map in L1, L2.
      exists vtu. split; [exact L2|]. split; [|exact H].
      intros i x Hx.
      destruct (nth_error_ex mk i) as [b Hb].
      { rewrite L1. eapply nth_error_lt, Hx. }
      exists b. split; [exact Hb|].
      apply N; [|exact Hb]. rewrite nth_error_map, Hx. reflexivity.
    - exists (eq_zero data). unfold eq_zero at 1. rewrite length_map.
      split; [reflexivity|]. split; [|exact H].
      intros i x Hx. exists true. split; [reflexivity|].
      unfold eq_zero. rewrite nth_error_map, Hx. simpl.
      rewrite andb_true_r. reflexivity. }
  destruct G as (vtu & Lv & Nv & H').
  destruct (mul init (to_dtype vtu)) as [scaled|] eqn:Em; simpl in H';
    [|discriminate].
  unfold mul in Em. unfold add in H'.
  destruct (zip_with_spec _ _ _ _ Em) as (L1 & L2 & N1).
  destruct (zip_with_spec _ _ _ _ H') as (L3 & L4 & N2).
  unfold to_dtype in L1, N1. rewrite length_map in L1.
  split; [lia|].
  intros i x Hx.
  destruct (Nv i x Hx) as (b & Hb & Hv).
  destruct (nth_error_ex init i) as [a Ha].
  { rewrite <- L1, Lv. eapply nth_error_lt, Hx. }
  exists a, b. split; [exact Ha|]. split; [exact Hb|].
  assert (Hs : nth_error scaled i
               = Some (a * (if Py.eqb x 0%Qc && b then 1 else 0))%Qc).
  { apply N1; [exact Ha|]. rewrite nth_error_map, Hv. reflexivity. }
  rewrite (N2 i _ x Hs Hx). f_equal. apply scaled_plus.
  intro Hc. apply andb_prop in Hc. apply eqb_true_eq, Hc.
Qed.

(** ** The restoration loop *)

Lemma frame_rel_refl t : frame_rel t t.
Proof. split; auto. Qed.

Lemma frame_rel_trans a b c : frame_rel a b -> frame_rel b c -> frame_rel a c.
Proof.
  intros [L1 N1] [L2 N2]. split; [congruence|].
  intros i x Hx Hnz. apply N2; auto.
Qed.





Lemma rewrite_param_ok m n f st st' :
  rewrite_param m n f st = (Ok tt, st') ->
  exists data new,
    reduce_getattr (module_to_snip st ++ Py.split "."%char m ++ [n]) (model st)
      = Ok (Param data)
    /\ f data = Ok new
    /\ assign (module_to_snip st ++ Py.split "."%char m ++ [n]) new (model st)
       = Ok (model st')
    /\ st' = set_model (model st') st.
Proof.
  unfold rewrite_param, deref, get_module_by_name. intro H.
  rewrite reduce_getattr_app.
  destruct (reduce_getattr (module_to_snip st) (model st)) as [module|];
    simpl in *; [|discriminate].
  rewrite reduce_getattr_app.
  destruct (reduce_getattr (Py.split "."%char m) module) as [last|];
    simpl in *; [|discriminate].
  destruct (getattr last n) as [[data|attrs]|]; simpl in *; try discriminate.
  destruct (f data) as [new|] eqn:Ef; simpl in *; [|discriminate].
  destruct (assign _ new (model st)) as [model'|] eqn:Ea; [|discriminate].
  injection H as <-. exists data, new. simpl. auto.
Qed.

Lemma rewrite_param_raise m n f st e st' :
  rewrite_param m n f st = (Raise e, st') -> st' = st.
Proof.
  unfold rewrite_param. destruct (rbind _ _); intro H; [discriminate|].
  injection H as _ <-. reflexivity.
Qed.

(** The effect of one rewrite on every lookup. *)
Lemma rewrite_rel p data new o o' :
  reduce_getattr p o = Ok (Param data) ->
  assign p new o = Ok o' ->
  model_rel (fun q t t' => (q = p /\ t = data /\ t' = new) \/ (q <> p /\ t' = t))
    o o'.
Proof.
  intros Hl Ha q. pose proof (assign_rel p new o o' Ha q) as H.
  destruct (list_eq_dec string_dec q p) as [->|Hq].
  - rewrite Hl in *. destruct (reduce_getattr p o') as [[t'|attrs]|e];
      simpl in *; try contradiction.
    left. destruct H as [H _]. auto.
  - eapply lookup_rel_impl; [|exact H].
    intros t t' [_ H2]. right. auto.
Qed.

Lemma lookup_rel_param_inv (R : Tensor -> Tensor -> Prop) r t' :
  lookup_rel R r (Ok (Param t')) -> exists t, r = Ok (Param t) /\ R t t'.
Proof. destruct r as [[t|attrs]|e]; simpl; intro H; try contradiction. eauto. Qed.

Lemma lookup_rel_param (R : Tensor -> Tensor -> Prop) t r' :
  lookup_rel R (Ok (Param t)) r' -> exists t', r' = Ok (Param t') /\ R t t'.
Proof. destruct r' as [[t'|attrs]|e]; simpl; intro H; try contradiction. eauto. Qed.

(** Whatever the outcome of the loop, nonzero elements are where they
    were. *)
Lemma run_plans_frame plans :
  forall st r st',
    for_each plans run_plan st = (r, st') ->
    module_to_snip st' = module_to_snip st
    /\ disk st' = disk st /\ current_masks st' = current_masks st
    /\ model_rel (fun _ => frame_rel) (model st) (model st').
Proof.
  induction plans as [|plan plans IH]; intros st r st' H; simpl in H.
  - injection H as _ <-. repeat split.
    intro q. apply lookup_rel_refl, frame_rel_refl.
  - unfold bind in H. destruct (run_plan plan st) as [[[]|e] st1] eqn:E.
    + assert (S1 : module_to_snip st1 = module_to_snip st
                   /\ disk st1 = disk st /\ current_masks st1 = current_masks st
                   /\ model_rel (fun _ => frame_rel) (model st) (model st1)).
      { destruct plan as [[j|e]|]; simpl in E.
        - destruct (rewrite_param_ok _ _ _ _ _ E) as (data & new & Hl & Hf & Ha & ->).
          repeat split. simpl. intro q.
          eapply lookup_rel_impl; [|apply (rewrite_rel _ _ _ _ _ Hl Ha q)].
          intros t t' [(_ & -> & ->)|(_ & ->)]; [|apply frame_rel_refl].
          destruct (restore_fn_spec _ _ _ _ Hf) as [Ln Sp].
          split; [exact Ln|]. intros i x Hx Hnz.
          destruct (Sp i x Hx) as (a & b & _ & _ & Hn).
          rewrite (neq_eqb_false _ _ Hnz) in Hn. exact Hn.
        - discriminate.
        - injection E as <-. repeat split.
          intro q. apply lookup_rel_refl, frame_rel_refl. }
      destruct S1 as (M1 & D1 & C1 & R1).
      destruct (IH _ _ _ H) as (M2 & D2 & C2 & R2).
      repeat split; try congruence.
      intro q. eapply lookup_rel_trans; [|apply R1|apply R2].
      apply frame_rel_trans.
    + injection H as _ <-.
      assert (st1 = st) as ->.
      { destruct plan as [[j|e']|]; simpl in E.
        - eapply rewrite_param_raise, E.
        - injection E as _ <-. reflexivity.
        - discriminate. }
      repeat split. intro q. apply lookup_rel_refl, frame_rel_refl.
Qed.


(** ** [restore_init] as a list of plans *)

Lemma for_each_ext {A} (l : list A) (f g : A -> M unit) :
  (forall x st, f x st = g x st) ->
  forall st, for_each l f st = for_each l g st.
Proof.
  intro H. induction l as [|x l IH]; intro st; simpl.
  - reflexivity.
  - unfold bind. rewrite H. destruct (g x st) as [[u|e] st1]; [apply IH | reflexivity].
Qed.

Lemma for_each_map {A B} (h : A -> B) (l : list A) (f : B -> M unit) :
  forall st, for_each (map h l) f st = for_each l (fun x => f (h x)) st.
Proof.
  induction l as [|x l IH]; intro st; simpl.
  - reflexivity.
  - unfold bind. destruct (f (h x) st) as [[u|e] st1]; [apply IH | reflexivity].
Qed.

Lemma restore_init_plans cfg st :
  restore_init cfg st =
  match init_values_pt (disk st) with
  | None => (Raise FileNotFoundError, st)
  | Some init_values =>
      match current_masks st with
      | None => for_each (map (unmasked_plan cfg) init_values) run_plan st
      | Some masks =>
          for_each (map (masked_plan cfg init_values) masks) run_plan st
      end
  end.
Proof.
  unfold restore_init. unfold bind at 1.
  destruct (init_values_pt (disk st)) as [iv|]; [|reflexivity].
  unfold bind at 1. simpl.
  destruct (current_masks st) as [masks|].
  - rewrite for_each_map. apply for_each_ext. intros [name mask] st1.
    unfold masked_plan, snip_prefix, bind, lift. simpl.
    destruct (Py.getitem String.eqb iv _) as [init|]; simpl; [|reflexivity].
    destruct (Py.unpack2 name) as [mn|]; reflexivity.
  - rewrite for_each_map. apply for_each_ext. intros [name init] st1.
    unfold unmasked_plan, snip_drop_len, bind, lift. simpl.
    destruct (Py.startswith name (snip_module_name cfg)); [|reflexivity].
    destruct (Py.unpack2 name) as [mn|]; reflexivity.
Qed.

Lemma In_planned j plans : In j (planned plans) <-> In (Some (Ok j)) plans.
Proof.
  induction plans as [|[[j'|e]|] plans IH]; simpl.
  - tauto.
  - rewrite IH. split; intros [H|H]; auto; left; congruence.
  - rewrite IH. split; [auto | intros [H|H]; [discriminate | exact H]].
  - rewrite IH. split; [auto | intros [H|H]; [discriminate | exact H]].
Qed.

Lemma masked_plan_ok cfg iv name mask j :
  masked_plan cfg iv (name, mask) = Some (Ok j) ->
  exists init m n,
    Py.get String.eqb iv (snip_prefix cfg ++ name)%string = Some init
    /\ Py.unpack2 name = Ok (m, n)
    /\ j = {| job_m := m; job_n := n; job_init := init; job_mask := Some mask |}.
Proof.
  unfold masked_plan, Py.getitem. simpl.
  destruct (Py.get String.eqb iv _) as [init|]; simpl; [|discriminate].
  destruct (Py.unpack2 name) as [[m n]|]; simpl; [|discriminate].
  intro H. injection H as <-. exists init, m, n. auto.
Qed.

Lemma unmasked_plan_ok cfg name init j :
  unmasked_plan cfg (name, init) = Some (Ok j) ->
  exists m n,
    Py.startswith name (snip_module_name cfg) = true
    /\ Py.unpack2 name = Ok (m, n)
    /\ j = {| job_m := Py.drop (snip_drop_len cfg) m; job_n := n;
              job_init := init; job_mask := None |}.
Proof.
  unfold unmasked_plan. simpl.
  destruct (Py.startswith name (snip_module_name cfg)); [|discriminate].
  destruct (Py.unpack2 name) as [[m n]|]; simpl; [|discriminate].
  intro H. injection H as <-. exists m, n. auto.
Qed.

Lemma unpack2_path name m n :
  Py.unpack2 name = Ok (m, n) ->
  Py.split "."%char name = Py.split "."%char m ++ [n].
Proof.
  unfold Py.unpack2. destruct (Py.rsplit1 "."%char name) as [[m' n']|] eqn:E;
    [|discriminate].
  intro H. injection H as <- <-. apply split_rsplit1, E.
Qed.



Lemma get_of_In_NoDup (iv : StateDict) name init :
  NoDup (map fst iv) -> In (name, init) iv ->
  Py.get String.eqb iv name = Some init.
Proof.
  induction iv as [|[k v] iv IH]; intros Hnd Hin; simpl in *.
  - contradiction.
  - inversion Hnd as [|? ? Hk Hnd']; subst.
    destruct Hin as [E|Hin].
    + injection E as -> ->. rewrite String.eqb_refl. reflexivity.
    + destruct (String.eqb name k) eqn:Ek.
      * apply String.eqb_eq in Ek. subst k. elim Hk.
        apply in_map_iff. exists (name, init). auto.
      * apply IH; assumption.
Qed.

(** When the whole model is pruned ([snip_module_name = ""]) and the
    initial values are a dict (no key twice), the targets are distinct. *)
Lemma distinct_targets_whole_model cfg iv :
  snip_module_name cfg = EmptyString ->
  NoDup (map fst iv) -> distinct_targets cfg iv.
Proof.
  intros Hs Hnd name1 init1 name2 init2 m1 n1 m2 n2 I1 I2 _ _ U1 U2 Hp.
  unfold snip_drop_len in Hp. rewrite Hs in Hp. simpl in Hp.
  rewrite <- (unpack2_path _ _ _ U1), <- (unpack2_path _ _ _ U2) in Hp.
  apply split_inj in Hp. subst name2.
  pose proof (get_of_In_NoDup _ _ _ Hnd I1).
  pose proof (get_of_In_NoDup _ _ _ Hnd I2). congruence.
Qed.

(** When the loop completes, no plan had raised and every job found its
    parameter in the model as it was before the loop. *)
Lemma run_plans_resolved plans :
  forall st st',
    for_each plans run_plan st = (Ok tt, st') ->
    (forall e, ~ In (Some (Raise e)) plans)
    /\ (forall j, In j (planned plans) ->
          exists t, reduce_getattr (module_to_snip st ++ job_path j) (model st)
                    = Ok (Param t)).
Proof.
  induction plans as [|plan plans IH]; intros st st' H; simpl in H.
  - split; [intros e [] | intros j []].
  - unfold bind in H. destruct (run_plan plan st) as [[[]|e] st1] eqn:E;
      [|discriminate].
    destruct plan as [[j|e]|]; simpl in E.
    + destruct (rewrite_param_ok _ _ _ _ _ E) as (data & new & Hl & Hf & Ha & E1).
      destruct (IH st1 st' H) as (NR & Res).
      assert (M1 : module_to_snip st1 = module_to_snip st) by (rewrite E1; reflexivity).
      rewrite M1 in Res. fold (job_path j) in Hl, Ha.
      pose proof (rewrite_rel _ _ _ _ _ Hl Ha) as R1.
      split.
      * intros e [He|He]; [discriminate|]. apply (NR e He).
      * intros j' [<-|Hin]; [eauto|].
        destruct (Res j' Hin) as [t1 Ht1].
        pose proof (R1 (module_to_snip st ++ job_path j')) as Hr.
        rewrite Ht1 in Hr. destruct (lookup_rel_param_inv _ _ _ Hr) as (t & Ht & _).
        eauto.
    + discriminate.
    + injection E as <-. destruct (IH st st' H) as (NR & Res).
      split; [|exact Res].
      intros e [He|He]; [discriminate|]. apply (NR e He).
Qed.

(** The job of an entry of the masks, when [restore_init] completes. *)
Lemma masked_entry_job cfg iv masks name mask :
  (forall e, ~ In (Some (Raise e)) (map (masked_plan cfg iv) masks)) ->
  In (name, mask) masks ->
  exists init m n,
    Py.get String.eqb iv (snip_prefix cfg ++ name)%string = Some init
    /\ Py.unpack2 name = Ok (m, n)
    /\ In {| job_m := m; job_n := n; job_init := init; job_mask := Some mask |}
         (planned (map (masked_plan cfg iv) masks)).
Proof.
  intros NR Hin.
  assert (Hp : In (masked_plan cfg iv (name, mask)) (map (masked_plan cfg iv) masks))
    by (apply in_map, Hin).
  destruct (masked_plan cfg iv (name, mask)) as [[j|e]|] eqn:E.
  - destruct (masked_plan_ok _ _ _ _ _ E) as (init & m & n & G & U & ->).
    exists init, m, n. split; [exact G|]. split; [exact U|].
    apply In_planned, Hp.
  - elim (NR e Hp).
  - discriminate.
Qed.

Lemma unmasked_entry_job cfg iv name init :
  (forall e, ~ In (Some (Raise e)) (map (unmasked_plan cfg) iv)) ->
  In (name, init) iv ->
  Py.startswith name (snip_module_name cfg) = true ->
  exists m n,
    Py.unpack2 name = Ok (m, n)
    /\ In {| job_m := Py.drop (snip_drop_len cfg) m; job_n := n;
             job_init := init; job_mask := None |}
         (planned (map (unmasked_plan cfg) iv)).
Proof.
  intros NR Hin Hs.
  assert (Hp : In (unmasked_plan cfg (name, init)) (map (unmasked_plan cfg) iv))
    by (apply in_map, Hin).
  destruct (unmasked_plan cfg (name, init)) as [[j|e]|] eqn:E.
  - destruct (unmasked_plan_ok _ _ _ _ E) as (m & n & _ & U & ->).
    exists m, n. split; [exact U|]. apply In_planned, Hp.
  - elim (NR e Hp).
  - unfold unmasked_plan in E. simpl in E. rewrite Hs in E. discriminate.
Qed.


(** ** Masking and restoring on the small model *)


(** Masking at sparsity 75 zeroes the decoder weights 0, 1 and 2 of
    [0; 2; 0; 4]; when the mask of sparsity 50 re-activates them,
    [restore_init] gives weight 1 its initial value 2 back and keeps 4. *)
Example restore_init_after_relaxing :
  decoder_weight (fx_trained cfg_0_75_50_0 []) = tensor [0; 2; 0; 4]%Z
  /\ decoder_weight st_masked_75 = tensor [0; 0; 0; 4]%Z
  /\ fst (restore_init cfg_0_75_50_0 st_relaxed_50) = Ok tt
  /\ decoder_weight (snd (restore_init cfg_0_75_50_0 st_relaxed_50))
     = tensor [0; 2; 0; 4]%Z.
Proof.
  split; [apply tensor_this_inj; vm_compute; reflexivity|].
  split; [apply tensor_this_inj; vm_compute; reflexivity|].
  split; [vm_compute; reflexivity|].
  apply tensor_this_inj; vm_compute; reflexivity.
Qed.

(** ** Names that do not resolve *)

Lemma unpack2_cases name :
  Py.unpack2 name = Raise ValueError \/ exists m n, Py.unpack2 name = Ok (m, n).
Proof.
  unfold Py.unpack2. destruct (Py.rsplit1 "."%char name) as [[m n]|]; eauto.
Qed.

Lemma get_module_by_name_raises model name e :
  get_module_by_name model name = Raise e -> e = AttributeError.
Proof.
  unfold get_module_by_name. generalize (Py.split "."%char name). intro names.
  revert model. induction names as [|n names IH]; intros model H; simpl in H.
  - discriminate.
  - destruct (getattr model n) as [o|e'] eqn:E; simpl in H.
    + eapply IH, H.
    + injection H as <-. destruct model as [t|attrs]; simpl in E.
      * congruence.
      * destruct (String.eqb n EmptyString); [congruence|].
        destruct (Py.get String.eqb attrs n); congruence.
Qed.

(** C9, as the code has it.  During weight restoration an entry that does
    not resolve makes [restore_init] raise: nothing is skipped.  Submodule
    resolution by [get_module_by_name] raises [AttributeError] on a name that
    does not resolve, but [get_module_to_snip] catches it and returns the
    whole model in its place. *)
Theorem unresolved_name_raises_or_falls_back cfg st iv :
  init_values_pt (disk st) = Some iv ->
  match current_masks st with
  | Some masks =>
      forall name mask, In (name, mask) masks ->
        masked_unresolved cfg st iv name ->
        exists e, fst (restore_init cfg st) = Raise e
  | None =>
      forall name init, In (name, init) iv ->
        Py.startswith name (snip_module_name cfg) = true ->
        unmasked_unresolved cfg st name ->
        exists e, fst (restore_init cfg st) = Raise e
  end
  /\ forall model name,
       (exists o, get_module_by_name model name = Ok o
                  /\ get_module_to_snip model name = Ok (Py.split "."%char name))
       \/ (get_module_by_name model name = Raise AttributeError
           /\ get_module_to_snip model name = Ok []
           /\ reduce_getattr [] model = Ok model).
Proof.
  intro Ei. split.
  - pose proof (restore_init_plans cfg st) as E. rewrite Ei in E.
    destruct (current_masks st) as [masks|].
    + intros name mask Hin Hun.
      destruct (restore_init cfg st) as [[[]|e] st'] eqn:Er; [|simpl; eauto].
      exfalso. symmetry in E.
      destruct (run_plans_resolved _ _ _ E) as (NR & Res).
      destruct (masked_entry_job cfg iv masks name mask NR Hin)
        as (init & m & n & G & U & Hj).
      destruct Hun as [Hg|[Hu|(m' & n' & Hu & Hf)]].
      * congruence.
      * congruence.
      * rewrite U in Hu. injection Hu as <- <-. apply Hf. apply (Res _ Hj).
    + intros name init Hin Hs Hun.
      destruct (restore_init cfg st) as [[[]|e] st'] eqn:Er; [|simpl; eauto].
      exfalso. symmetry in E.
      destruct (run_plans_resolved _ _ _ E) as (NR & Res).
      destruct (unmasked_entry_job cfg iv name init NR Hin Hs) as (m & n & U & Hj).
      destruct Hun as [Hu|(m' & n' & Hu & Hf)].
      * congruence.
      * rewrite U in Hu. injection Hu as <- <-. apply Hf. apply (Res _ Hj).
  - intros model name. unfold get_module_to_snip.
    destruct (get_module_by_name model name) as [o|e] eqn:E.
    + left. eauto.
    + right. rewrite (get_module_by_name_raises _ _ _ E). auto.
Qed.

Lemma unresolved_name_raises_or_falls_back_witness :
  (forall name mask, In (name, mask) [("vocoder.weight"%string, [true; true])] ->
     masked_unresolved cfg_0_50_0 st_unknown_mask (state_dict fx_model) name ->
     exists e, fst (restore_init cfg_0_50_0 st_unknown_mask) = Raise e)
  /\ forall model name,
       (exists o, get_module_by_name model name = Ok o
                  /\ get_module_to_snip model name = Ok (Py.split "."%char name))
       \/ (get_module_by_name model name = Raise AttributeError
           /\ get_module_to_snip model name = Ok []
           /\ reduce_getattr [] model = Ok model).
Proof.
  apply (unresolved_name_raises_or_falls_back cfg_0_50_0 st_unknown_mask
           (state_dict fx_model)).
  vm_compute. reflexivity.
Defined.

(** Submodule resolution does not fail on a name that does not resolve:
    the model has no attribute [vocoder], [get_module_by_name] raises, and
    [get_module_to_snip] returns the whole model in its place. *)
Lemma get_module_to_snip_substitutes_model :
  get_module_by_name fx_model "vocoder"%string = Raise AttributeError
  /\ get_module_to_snip fx_model "vocoder"%string = Ok []
  /\ reduce_getattr [] fx_model = Ok fx_model.
Proof. repeat split. Qed.

(** ** The life cycle of the forward pre-hook *)

Lemma lr_transition_frames_registry cfg s :
  frames registry_view (lr_transition cfg s).
Proof.
  unfold lr_transition, update_lrs, reset_lrs.
  frame; try apply load_masks_frames; try (intro st; reflexivity);
    intro st; destruct (unscale_groups _ _); reflexivity.
Qed.

Lemma restore_init_frames_registry cfg : frames registry_view (restore_init cfg).
Proof.
  intro st.
  pose proof (restore_init_frames_hooks cfg st) as H. unfold hook_view in H.
  unfold registry_view. congruence.
Qed.

Lemma update_hooks_at_most_one s : preserves at_most_one_hook (update_hooks s).
Proof.
  intros st H. unfold update_hooks, remove_handle, bind, gets, modify. simpl.
  assert (E : forward_pre_hooks
                (match forward_hook st with
                 | Some id =>
                     set_forward_pre_hooks
                       (Py.del Nat.eqb (forward_pre_hooks st) id) st
                 | None => st
                 end) = []).
  { destruct H as [H|(id & h & Hf & Hh)].
    - destruct (forward_hook st); simpl; rewrite H; reflexivity.
    - rewrite Hf. simpl. rewrite Hh. simpl. rewrite Nat.eqb_refl. reflexivity. }
  destruct (forward_hook st) as [id|]; simpl in *;
    destruct (Py.truthy s); simpl;
    unfold register_forward_pre_hook, deref; simpl;
    try (left; exact E);
    destruct (reduce_getattr (module_to_snip st) (model st)) as [[t|attrs]|e];
    simpl; try (left; exact E);
    right; eexists; eexists; (split; [reflexivity|]); rewrite E; reflexivity.
Qed.

Lemma step_at_most_one cfg : preserves at_most_one_hook (step cfg).
Proof.
  intros st H. rewrite step_unfold. simpl.
  destruct (Py.get Z.eqb (schedule cfg) (epoch st + 1)%Z) as [s|]; [|exact H].
  apply preserves_bind; [|intros _|exact H].
  - apply (frames_preserves registry_view
             (fun v => snd (fst v) = []
                       \/ exists id h, fst (fst v) = Some id /\ snd (fst v) = [(id, h)])).
    apply lr_transition_frames_registry.
  - unfold after_lrs. apply preserves_bind; [|intros _].
    + destruct (forward_mask cfg);
        [apply update_hooks_at_most_one | apply preserves_ret].
    + destruct (restore_init_values cfg).
      * apply (frames_preserves registry_view
                 (fun v => snd (fst v) = []
                           \/ exists id h, fst (fst v) = Some id
                                           /\ snd (fst v) = [(id, h)])).
        apply restore_init_frames_registry.
      * apply (frames_preserves registry_view
                 (fun v => snd (fst v) = []
                           \/ exists id h, fst (fst v) = Some id
                                           /\ snd (fst v) = [(id, h)])).
        apply log_nonzeros_count_frames.
Qed.

Lemma resume_from_at_most_one cfg e os ss :
  preserves at_most_one_hook (resume_from cfg e os ss).
Proof.
  unfold resume_from.
  repeat (apply preserves_bind;
          [apply preserves_modify; intros st H; exact H | intros _]).
  apply preserves_bind; [apply preserves_lift | intro s].
  apply update_hooks_at_most_one.
Qed.

(** At most one forward pre-hook is registered after any sequence of [step]
    and [resume_from] calls, from any state in which at most one was. *)
Lemma at_most_one_hook_after_calls cfg calls :
  forall st, at_most_one_hook st -> at_most_one_hook (after_calls cfg calls st).
Proof.
  induction calls as [|c calls IH]; intros st H; simpl.
  - exact H.
  - apply IH. destruct c; simpl.
    + apply step_at_most_one, H.
    + apply resume_from_at_most_one, H.
Qed.

(** ** Setup: what [train] leaves *)

Lemma hoare_bind {A B} (P R Q : State -> Prop) (c : M A) (k : A -> M B) :
  hoare P c R -> (forall st, R st -> Q st) -> (forall a, hoare R (k a) Q) ->
  hoare P (bind c k) Q.
Proof.
  intros Hc Hrq Hk st HP. unfold bind. specialize (Hc st HP).
  destruct (c st) as [[a|e] st1]; simpl in *.
  - apply Hk, Hc.
  - apply Hrq, Hc.
Qed.

Lemma hoare_pre {A B} (P Q : State -> Prop) (c : M A) (k : A -> M B) :
  preserves P c -> (forall st, P st -> Q st) -> (forall a, hoare P (k a) Q) ->
  hoare P (bind c k) Q.
Proof. intros Hc. apply hoare_bind. exact Hc. Qed.

Lemma hoare_weaken {A} (P Q : State -> Prop) (c : M A) :
  preserves P c -> (forall st, P st -> Q st) -> hoare P c Q.
Proof. intros Hc H st HP. apply H, Hc, HP. Qed.

Lemma frames_hook_view_unhooked {A} (c : M A) :
  frames hook_view c -> preserves unhooked c.
Proof.
  intros F st H. unfold unhooked in *.
  pose proof (F st) as E. unfold hook_view in *.
  injection E as E1 E2 E3 E4. injection H as H1 H2 H3.
  rewrite E1, E2, E4, H1, H2, H3. reflexivity.
Qed.

Lemma prepare_files_frames_hooks cfg : frames hook_view (prepare_files cfg).
Proof. apply prepare_files_frames; intros; reflexivity. Qed.

Lemma update_lrs_frames_hooks cfg s : frames hook_view (update_lrs cfg s).
Proof.
  unfold update_lrs. frame; intro st; reflexivity.
Qed.

Lemma unhooked_at_most_one st : unhooked st -> at_most_one_hook st.
Proof. unfold unhooked, hook_view. intro H. left. congruence. Qed.

(** The commands of [train] that come before its last conditional. *)
Ltac train_setup Q :=
  repeat (apply hoare_pre;
          [ apply frames_hook_view_unhooked;
            first [ apply prepare_files_frames_hooks
                  | apply frames_modify; intro; reflexivity
                  | intro; reflexivity
                  | destruct (scale_lr_by_param _);
                    [apply frames_modify; intro; reflexivity | apply frames_ret] ]
          | exact Q
          | intro ]).

Lemma register_from_empty h :
  hoare (fun st => forward_pre_hooks st = [])
    (id <~ register_forward_pre_hook h ;; modify (set_forward_hook (Some id)))
    (fun st => forward_pre_hooks st = []
               \/ exists id, forward_hook st = Some id
                             /\ forward_pre_hooks st = [(id, h)]).
Proof.
  intros st H. unfold bind, register_forward_pre_hook, modify.
  destruct (deref st) as [[t|attrs]|e]; simpl; auto.
  right. exists (next_handle st). rewrite H. auto.
Qed.

(** After [train] on a freshly initialised trainer at most one forward
    pre-hook is registered. *)
Lemma train_at_most_one cfg os ss :
  hoare unhooked (train cfg os ss) at_most_one_hook.
Proof.
  unfold train.
  destruct (Py.get Z.eqb (schedule cfg) 0%Z) as [s|];
    [|apply hoare_weaken;
      [apply preserves_raise | apply unhooked_at_most_one]].
  train_setup unhooked_at_most_one.
  destruct (Py.truthy s);
    [|apply hoare_weaken; [apply preserves_ret | apply unhooked_at_most_one]].
  destruct os as [|o os];
    [apply hoare_weaken; [apply preserves_raise | apply unhooked_at_most_one]|].
  destruct (negb (resume_epoch cfg =? 0)%Z).
  - intros st H. apply resume_from_at_most_one, unhooked_at_most_one, H.
  - apply hoare_bind with (R := fun st => forward_pre_hooks st = []).
    + intros st H. rewrite (load_masks_frames forward_pre_hooks).
      unfold unhooked, hook_view in H. congruence.
    + intros st H. left. exact H.
    + intro masks.
      apply hoare_bind with (R := fun st => forward_pre_hooks st = []).
      * intros st H. exact H.
      * intros st H. left. exact H.
      * intros _.
        apply hoare_bind with (R := fun st => forward_pre_hooks st = []).
        -- intros st H. pose proof (update_lrs_frames_hooks cfg s st) as E.
           unfold hook_view in E. congruence.
        -- intros st H. left. exact H.
        -- intros _. destruct (forward_mask cfg).
           ++ apply hoare_bind with (R := fun st => forward_pre_hooks st = []).
              ** intros st H. exact H.
              ** intros st H. left. exact H.
              ** intros current st H.
                 destruct (register_from_empty (forward_hook_of current) st H)
                   as [E|(id & E1 & E2)]; [left; exact E|].
                 right. eauto.
           ++ intros st H. left. exact H.
Qed.

(** After [train] on a freshly initialised trainer and any sequence of
    [step] and [resume_from] calls, at most one forward pre-hook is
    registered. *)
Lemma at_most_one_hook_registered cfg m d os ss calls :
  at_most_one_hook
    (after_calls cfg calls (snd (train cfg os ss (init_state m d)))).
Proof.
  apply at_most_one_hook_after_calls, train_at_most_one. reflexivity.
Qed.

Lemma unhooked_masks_unbound st : unhooked st -> masks_unbound st.
Proof.
  unfold unhooked, hook_view. intro H. injection H as _ H2 H4.
  split; [exact H4|]. rewrite H2. intros id h [].
Qed.

Lemma update_hooks_unhooked s : hoare unhooked (update_hooks s) masks_unbound.
Proof.
  intros st H. pose proof (unhooked_masks_unbound st H) as U.
  unfold unhooked, hook_view in H. injection H as H1 H2 H4.
  unfold update_hooks, bind, gets, modify. simpl. rewrite H1. simpl.
  destruct (Py.truthy s); simpl; [|exact U].
  unfold register_forward_pre_hook.
  destruct (deref st) as [[t|attrs]|e]; simpl; try exact U.
  split; [exact H4|]. rewrite H2, H4. simpl.
  intros id h [E|[]]. congruence.
Qed.

(** The resume path in general: whenever [train] is called with a nonzero
    [resume_epoch] on a freshly initialised trainer, it loads no MaskSet, and
    the hook it registers, if any, applies none. *)
Lemma train_resume_loads_no_masks cfg m d os ss :
  resume_epoch cfg <> 0%Z ->
  masks_unbound (snd (train cfg os ss (init_state m d))).
Proof.
  intro Hr.
  assert (H : hoare unhooked (train cfg os ss) masks_unbound).
  { unfold train.
    destruct (Py.get Z.eqb (schedule cfg) 0%Z) as [s|];
      [|apply hoare_weaken;
        [apply preserves_raise | apply unhooked_masks_unbound]].
    train_setup unhooked_masks_unbound.
    destruct (Py.truthy s);
      [|apply hoare_weaken; [apply preserves_ret | apply unhooked_masks_unbound]].
    destruct os as [|o os];
      [apply hoare_weaken; [apply preserves_raise | apply unhooked_masks_unbound]|].
    apply Z.eqb_neq in Hr. rewrite Hr. simpl.
    unfold resume_from.
    repeat (apply hoare_pre;
            [ apply frames_hook_view_unhooked, frames_modify; intro; reflexivity
            | exact unhooked_masks_unbound
            | intros _ ]).
    apply hoare_pre;
      [ apply frames_hook_view_unhooked, frames_lift
      | exact unhooked_masks_unbound
      | intro sp ].
    apply update_hooks_unhooked. }
  apply H. reflexivity.
Qed.

(** ** Further runs on the small model *)

Example step_to_full_sparsity_raises :
  fst (train cfg_0_100 [fx_optimizer] [] (init_state fx_model fx_disk)) = Ok tt
  /\ fst (step cfg_0_100 (fx_trained cfg_0_100 [])) = Raise ZeroDivisionError.
Proof. split; vm_compute; reflexivity. Qed.

(** A mask entry without initial values makes [restore_init] raise
    [KeyError]. *)
Example restore_init_unknown_mask_raises :
  masked_unresolved cfg_0_50_0 st_unknown_mask (state_dict fx_model)
    "vocoder.weight"%string
  /\ fst (restore_init cfg_0_50_0 st_unknown_mask) = Raise KeyError.
Proof. split; [left|]; vm_compute; reflexivity. Qed.

(** ** [get_sparsity]: the entry of the greatest key below the epoch *)

Lemma insert_epoch_In x l y : In y (insert_epoch x l) <-> y = x \/ In y l.
Proof.
  induction l as [|z l IH]; simpl.
  - intuition.
  - destruct (x <=? z)%Z; simpl; [intuition|]. rewrite IH. intuition.
Qed.

Lemma sorted_epochs_In l y : In y (sorted_epochs l) <-> In y l.
Proof.
  induction l as [|x l IH]; simpl.
  - tauto.
  - rewrite insert_epoch_In, IH. intuition.
Qed.

Lemma insert_epoch_ascending x l : ascending l -> ascending (insert_epoch x l).
Proof.
  induction 1 as [|z l Hz Hl IH]; simpl.
  - constructor; constructor.
  - destruct (x <=? z)%Z eqn:E.
    + apply Z.leb_le in E. constructor; [|constructor; assumption].
      constructor; [exact E|].
      eapply Forall_impl; [|exact Hz]. intros; simpl in *; lia.
    + apply Z.leb_gt in E. constructor; [|exact IH].
      apply Forall_forall. intros y Hy. apply insert_epoch_In in Hy.
      destruct Hy as [->|Hy]; [lia|].
      rewrite Forall_forall in Hz. apply Hz, Hy.
Qed.

Lemma sorted_epochs_ascending l : ascending (sorted_epochs l).
Proof.
  induction l as [|x l IH]; simpl; [constructor|].
  apply insert_epoch_ascending, IH.
Qed.

(** The loop stops after the keys that are at most the epoch; in an
    ascending list the others are all greater. *)
Lemma while_epoch_spec l e :
  ascending l ->
  forall i0, exists pre post,
    l = pre ++ post
    /\ while_epoch l e i0 = (i0 + List.length pre)%nat
    /\ Forall (fun k => (k <= e)%Z) pre
    /\ Forall (fun k => (e < k)%Z) post.
Proof.
  induction 1 as [|x l Hx Hl IH]; intro i0; simpl.
  - exists [], []. repeat split; auto.
  - destruct (e >=? x)%Z eqn:E.
    + destruct (IH (S i0)) as (pre & post & -> & Hw & Hpre & Hpost).
      exists (x :: pre), post. repeat split; auto.
      * rewrite Hw. simpl. lia.
      * constructor; [|exact Hpre]. apply Z.geb_le in E. lia.
    + exists [], (x :: l). repeat split; auto.
      assert (e < x)%Z by (rewrite Z.geb_leb in E; apply Z.leb_gt in E; lia).
      constructor; [assumption|].
      eapply Forall_impl; [|exact Hx]. intros; simpl in *; lia.
Qed.

Lemma ascending_app_last pre k post :
  ascending ((pre ++ [k]) ++ post) -> Forall (fun y => (y <= k)%Z) pre.
Proof.
  induction pre as [|x pre IH]; simpl; intro H.
  - constructor.
  - inversion H as [|? ? Hx Hl]; subst. constructor; [|apply IH, Hl].
    rewrite Forall_forall in Hx. apply Hx.
    rewrite <- app_assoc. apply in_or_app. right. left. reflexivity.
Qed.

Lemma get_of_key (schedule : Py.dict Z Qc) k :
  In k (map fst schedule) -> exists s, Py.get Z.eqb schedule k = Some s.
Proof.
  induction schedule as [|[k' s'] schedule IH]; simpl; intro H.
  - contradiction.
  - destruct (Z.eqb k k') eqn:E; [eauto|].
    destruct H as [->|H]; [rewrite Z.eqb_refl in E; discriminate|]. auto.
Qed.

(** For an epoch that is not below every key, [get_sparsity] returns the
    sparsity of the greatest key that is at most the epoch. *)
Lemma get_sparsity_greatest_key schedule e k0 :
  In k0 (map fst schedule) -> (k0 <= e)%Z ->
  exists k s,
    In k (map fst schedule) /\ (k <= e)%Z
    /\ (forall k', In k' (map fst schedule) -> (k' <= e)%Z -> (k' <= k)%Z)
    /\ Py.get Z.eqb schedule k = Some s
    /\ get_sparsity schedule e = Ok s.
Proof.
  intros Hin Hle. unfold get_sparsity.
  pose proof (sorted_epochs_ascending (map fst schedule)) as Hasc.
  destruct (while_epoch_spec _ e Hasc 0) as (pre & post & El & Hw & Hpre & Hpost).
  rewrite Hw. simpl.
  assert (Hk0 : In k0 pre).
  { assert (H : In k0 (pre ++ post))
      by (rewrite <- El; apply sorted_epochs_In, Hin).
    apply in_app_or in H. destruct H as [H|H]; [exact H|].
    rewrite Forall_forall in Hpost. specialize (Hpost _ H). lia. }
  destruct (exists_last (l := pre)) as (pre' & k & Ep).
  { intro E. rewrite E in Hk0. contradiction. }
  subst pre. rewrite El in Hasc |- *.
  rewrite length_app. simpl.
  replace (List.length pre' + 1)%nat with (S (List.length pre')) by lia.
  assert (Hnth : nth_error ((pre' ++ [k]) ++ post) (List.length pre') = Some k).
  { rewrite <- app_assoc. rewrite nth_error_app2 by lia.
    rewrite Nat.sub_diag. reflexivity. }
  rewrite Hnth.
  assert (Hk : In k (map fst schedule)).
  { apply sorted_epochs_In. rewrite El. apply in_or_app. left.
    apply in_or_app. right. left. reflexivity. }
  destruct (get_of_key schedule k Hk) as [s Hs].
  exists k, s. split; [exact Hk|]. split.
  { rewrite Forall_forall in Hpre. apply Hpre.
    apply in_or_app. right. left. reflexivity. }
  split.
  { intros k' Hk' Hle'.
    assert (H : In k' ((pre' ++ [k]) ++ post))
      by (rewrite <- El; apply sorted_epochs_In, Hk').
    apply in_app_or in H. destruct H as [H|H].
    - apply in_app_or in H. destruct H as [H|[<-|[]]]; [|lia].
      pose proof (ascending_app_last _ _ _ Hasc) as Hf.
      rewrite Forall_forall in Hf. apply Hf, H.
    - rewrite Forall_forall in Hpost. specialize (Hpost _ H). lia. }
  split; [exact Hs|].
  unfold Py.getitem. rewrite Hs. reflexivity.
Qed.

(** ** The per-parameter threshold of [create_masks] *)

Lemma ltb_lt (x y : Qc) : Py.ltb x y = true <-> (x < y)%Qc.
Proof.
  unfold Py.ltb. rewrite Qclt_alt. destruct (x ?= y)%Qc; split; congruence.
Qed.

Lemma leb_le (x y : Qc) : Py.leb x y = true <-> (x <= y)%Qc.
Proof.
  unfold Py.leb. rewrite Qcle_alt. destruct (x ?= y)%Qc; split; congruence.
Qed.

Lemma gtb_false_le (x y : Qc) : Py.gtb x y = false <-> (x <= y)%Qc.
Proof.
  unfold Py.gtb. split; intro H.
  - apply Qcnot_lt_le. intro L. apply ltb_lt in L. congruence.
  - destruct (Py.ltb y x) eqn:E; [|reflexivity].
    apply ltb_lt in E. elim (Qcle_not_lt _ _ H E).
Qed.

Lemma count_false_gt t c : count_false (gt_scalar t c) = Z.of_nat (count_le c t).
Proof.
  unfold count_false, gt_scalar, count_le. f_equal.
  induction t as [|x t IH]; simpl; [reflexivity|].
  destruct (Py.gtb x c); simpl; rewrite IH; reflexivity.
Qed.

Lemma count_le_cons c x t :
  count_le c (x :: t)
  = ((if Py.gtb x c then 0 else 1) + count_le c t)%nat.
Proof. unfold count_le. simpl. destruct (Py.gtb x c); reflexivity. Qed.

Lemma count_le_insert c x t : count_le c (insert_sorted x t) = count_le c (x :: t).
Proof.
  induction t as [|y t IH]; simpl; [reflexivity|].
  destruct (Py.leb x y); [reflexivity|].
  rewrite (count_le_cons c y (insert_sorted x t)), IH, !count_le_cons. lia.
Qed.

Lemma count_le_sort c t : count_le c (sort t) = count_le c t.
Proof.
  induction t as [|x t IH]; simpl; [reflexivity|].
  rewrite count_le_insert, !count_le_cons, IH. reflexivity.
Qed.

Lemma insert_sorted_In x l y : In y (insert_sorted x l) <-> y = x \/ In y l.
Proof.
  induction l as [|z l IH]; simpl.
  - intuition.
  - destruct (Py.leb x z); simpl; [intuition|]. rewrite IH. intuition.
Qed.

Lemma insert_sorted_ascending x l : ascendingQ l -> ascendingQ (insert_sorted x l).
Proof.
  induction 1 as [|z l Hz Hl IH]; simpl.
  - constructor; constructor.
  - destruct (Py.leb x z) eqn:E.
    + apply leb_le in E. constructor; [|constructor; assumption].
      constructor; [exact E|].
      eapply Forall_impl; [|exact Hz]. intros y Hy. simpl in Hy.
      eapply Qcle_trans; eassumption.
    + assert (Hzx : (z <= x)%Qc).
      { apply Qcnot_lt_le. intro L. apply Qclt_le_weak, leb_le in L. congruence. }
      constructor; [|exact IH].
      apply Forall_forall. intros y Hy. apply insert_sorted_In in Hy.
      destruct Hy as [->|Hy]; [exact Hzx|].
      rewrite Forall_forall in Hz. apply Hz, Hy.
Qed.

Lemma sort_ascending t : ascendingQ (sort t).
Proof.
  induction t as [|x t IH]; simpl; [constructor|].
  apply insert_sorted_ascending, IH.
Qed.

(** In an ascending list at least [j + 1] elements are at most the one at
    index [j]. *)
Lemma ascending_count l :
  ascendingQ l ->
  forall j c, nth_error l j = Some c -> (j + 1 <= count_le c l)%nat.
Proof.
  induction 1 as [|x l Hx Hl IH]; intros j c Hj.
  - destruct j; discriminate.
  - unfold count_le. simpl. destruct j as [|j]; simpl in Hj.
    + injection Hj as ->.
      replace (Py.gtb c c) with false; [simpl; lia|].
      symmetry. apply gtb_false_le, Qcle_refl.
    + assert (Hxc : (x <= c)%Qc).
      { rewrite Forall_forall in Hx. apply Hx. eapply nth_error_In, Hj. }
      apply gtb_false_le in Hxc. rewrite Hxc. simpl.
      specialize (IH j c Hj). unfold count_le in IH. lia.
Qed.

(** The mask of the k-th smallest value marks at least [k] elements false. *)
Lemma kthvalue_count t k c :
  kthvalue t k = Ok c -> (k <= count_false (gt_scalar t c))%Z.
Proof.
  unfold kthvalue.
  destruct ((1 <=? k)%Z && (k <=? Py.len t)%Z) eqn:E; [|discriminate].
  apply andb_prop in E. destruct E as [E1 E2]. apply Z.leb_le in E1.
  destruct (nth_error (sort t) (Z.to_nat (k - 1))) as [v|] eqn:En; [|discriminate].
  intro H. injection H as ->.
  rewrite count_false_gt, <- (count_le_sort c t).
  pose proof (ascending_count _ (sort_ascending t) _ _ En). lia.
Qed.

Lemma num_le (a b : Z) : (a <= b)%Z -> (num a <= num b)%Qc.
Proof.
  intro H. unfold Qcle, num. cbn [this Q2Qc]. rewrite !Qred_correct.
  unfold Qle. simpl. lia.
Qed.

(** [1 + int(x)] is greater than [x]. *)
Lemma succ_int_gt (x : Qc) : (x < num (1 + Py.int x))%Qc.
Proof.
  unfold Qclt, num, Py.int. cbn [this Q2Qc]. rewrite Qred_correct.
  unfold Qlt. cbn [Qnum Qden inject_Z].
  pose proof (Z.quot_rem' (Qnum x) (Zpos (Qden x))) as Hq.
  pose proof (Z.rem_bound_abs (Qnum x) (Zpos (Qden x)) ltac:(lia)) as Hr.
  set (q := (Qnum x ÷ Zpos (Qden x))%Z) in *.
  set (r := Z.rem (Qnum x) (Zpos (Qden x))) in *.
  nia.
Qed.

(** The mask that the per-parameter threshold of [create_masks] gives
    always zeroes more than [max_sparsity * numel] elements: the threshold is
    the value of rank [1 + int(max_sparsity * numel)] and the comparison is
    strict. *)
Lemma param_threshold_exceeds_cap grad max_sparsity param_threshold :
  kthvalue grad (1 + Py.int (max_sparsity * num (Py.len grad))%Qc)
    = Ok param_threshold ->
  (max_sparsity * num (Py.len grad)
   < num (count_false (gt_scalar grad param_threshold)))%Qc.
Proof.
  intro H. apply kthvalue_count in H.
  eapply Qclt_le_trans; [apply succ_int_gt | apply num_le, H].
Qed.

Lemma len_gt_scalar t c : Py.len (gt_scalar t c) = Py.len t.
Proof. unfold Py.len, gt_scalar. rewrite length_map. reflexivity. Qed.

(** The three masks that [create_masks] can give a parameter: the one of
    the global threshold when the cap is not triggered; the one of the
    per-parameter threshold, which zeroes more than the cap allows; or the
    random fill, when the latter keeps no element and the cap is below 100%. *)
Lemma create_mask_cases shuffle threshold max_sparsity grad mask :
  create_mask shuffle threshold max_sparsity grad = Ok mask ->
  mask = gt_scalar grad threshold
  \/ (exists param_threshold,
        mask = gt_scalar grad param_threshold
        /\ (max_sparsity * num (Py.len grad) < num (count_false mask))%Qc)
  \/ mask = shuffle
       (repeat false (Z.to_nat (Py.int (max_sparsity * num (Py.len grad))%Qc))
        ++ repeat true
             (Z.to_nat (Py.len grad
                        - Py.int (max_sparsity * num (Py.len grad))%Qc))).
Proof.
  unfold create_mask. rewrite len_gt_scalar.
  destruct (Py.div _ _) as [ratio|]; simpl; [|discriminate].
  destruct (Py.gtb (1 - ratio)%Qc max_sparsity).
  - destruct (kthvalue grad _) as [pt|] eqn:Ek; simpl; [|discriminate].
    destruct ((count_true (gt_scalar grad pt) =? 0)%Z
              && Py.ltb max_sparsity 1%Qc).
    + destruct (Py.len _ =? Py.len grad)%Z; [|discriminate].
      intro H. injection H as <-. right. right. reflexivity.
    + intro H. injection H as <-. right. left. exists pt.
      split; [reflexivity|]. apply param_threshold_exceeds_cap, Ek.
  - intro H. injection H as <-. left. reflexivity.
Qed.

(** C1. At sparsity 95 with the cap 80 the global threshold zeroes 95 of the
    100 elements of the parameter; the per-parameter threshold that replaces
    it is the 81st smallest value and the comparison is strict, so the mask
    that [create_masks] returns zeroes 81 elements, one more than the cap
    allows. *)
Theorem create_masks_cap_exceeded :
  forall shuffle : list bool -> list bool,
  exists mask,
    create_masks shuffle (num 95) grads_1_to_100 (num 80)
      = Ok [("w"%string, mask)]
    /\ Py.len mask = 100%Z
    /\ count_false mask = 81%Z
    /\ gt_scalar (map (fun n => num (Z.of_nat n)) (seq 1 100)) (num 95)
       = repeat false 95 ++ repeat true 5.
Proof.
  intro shuffle.
  exists (repeat false 81 ++ repeat true 19).
  repeat split; vm_compute; reflexivity.
Qed.

(** * Further properties of the code *)

(** ** Strings: substrings *)

Lemma prefix_app p s :
  String.prefix p s = true <-> exists post, s = (p ++ post)%string.
Proof.
  revert s. induction p as [|c p IH]; intro s; simpl.
  - split; [eauto | destruct s; reflexivity].
  - destruct s as [|d s]; simpl.
    + split; [discriminate | intros [post H]; discriminate].
    + destruct (ascii_dec c d) as [->|N].
      * rewrite IH. split; intros [post H]; exists post; congruence.
      * split; [discriminate | intros [post H]; congruence].
Qed.

(** [sub in s] holds exactly when [s] is [pre + sub + post]. *)
Lemma contains_spec sub s :
  Py.contains sub s = true <-> exists pre post, s = (pre ++ sub ++ post)%string.
Proof.
  induction s as [|c s IH].
  - change (Py.contains sub EmptyString)
      with (String.prefix sub EmptyString || false).
    rewrite orb_false_r. split.
    + intro H. apply prefix_app in H. destruct H as [post H].
      exists EmptyString, post. exact H.
    + intros [[|d pre] [post H]]; [|discriminate].
      apply prefix_app. eauto.
  - change (Py.contains sub (String c s))
      with (String.prefix sub (String c s) || Py.contains sub s).
    rewrite orb_true_iff, IH. split.
    + intros [H|[pre [post H]]].
      * apply prefix_app in H. destruct H as [post H].
        exists EmptyString, post. exact H.
      * exists (String c pre), post. simpl. congruence.
    + intros [[|d pre] [post H]]; simpl in H.
      * left. apply prefix_app. eauto.
      * right. exists pre, post. congruence.
Qed.

(** X1. [will_prune] refuses a parameter exactly when one of the excluded
    strings occurs in its name as a substring; an empty excluded string
    occurs in every name. *)
Theorem will_prune_false_iff_excluded_substring param_name exclude_params :
  (will_prune param_name exclude_params = false
   <-> exists exclude_param pre post,
         In exclude_param exclude_params
         /\ param_name = (pre ++ exclude_param ++ post)%string)
  /\ (In EmptyString exclude_params -> will_prune param_name exclude_params = false).
Proof.
  assert (E : will_prune param_name exclude_params = false
              <-> exists exclude_param pre post,
                    In exclude_param exclude_params
                    /\ param_name = (pre ++ exclude_param ++ post)%string).
  { unfold will_prune. rewrite negb_false_iff, existsb_exists. split.
    - intros (e & Hin & Hc). apply contains_spec in Hc.
      destruct Hc as (pre & post & H). eauto.
    - intros (e & pre & post & Hin & H). exists e. split; [exact Hin|].
      apply contains_spec. eauto. }
  split; [exact E|].
  intro H. apply E. exists EmptyString, EmptyString, param_name. auto.
Qed.

(** ** [load_masks]: the entries that [will_prune] accepts *)

Lemma del_app_notin (pre : MaskSet) k v rest :
  ~ In k (map fst pre) ->
  Py.del String.eqb (pre ++ (k, v) :: rest) k = pre ++ rest.
Proof.
  induction pre as [|[k' v'] pre IH]; simpl; intro H.
  - rewrite String.eqb_refl. reflexivity.
  - destruct (String.eqb k k') eqn:E.
    + apply String.eqb_eq in E. elim H. auto.
    + rewrite IH; [reflexivity|]. intro Hin. apply H. auto.
Qed.

Lemma drop_excluded_loop exclude_params (rest pre : MaskSet) :
  NoDup (map fst (pre ++ rest)) ->
  fold_left
    (fun masks full_name =>
       if existsb (fun exclude_param => Py.contains exclude_param full_name)
            exclude_params
       then Py.del String.eqb masks full_name
       else masks)
    (map fst rest) (pre ++ rest)
  = pre ++ filter (fun e => will_prune (fst e) exclude_params) rest.
Proof.
  revert pre. induction rest as [|[k v] rest IH]; intros pre H; simpl.
  - reflexivity.
  - assert (Hk : ~ In k (map fst pre)).
    { rewrite map_app in H. simpl in H. apply NoDup_remove_2 in H.
      intro Hin. apply H. apply in_or_app. auto. }
    unfold will_prune at 1. simpl.
    destruct (existsb _ exclude_params) eqn:E; simpl.
    + rewrite del_app_notin by exact Hk. apply IH.
      rewrite map_app in *. simpl in H. apply NoDup_remove_1 in H. exact H.
    + replace (pre ++ (k, v) :: rest) with ((pre ++ [(k, v)]) ++ rest)
        by (rewrite <- app_assoc; reflexivity).
      rewrite IH.
      * rewrite <- app_assoc. reflexivity.
      * rewrite <- app_assoc. exact H.
Qed.

(** X2. When the mask file of the sparsity exists, [load_masks] returns its
    entries for which [will_prune] holds, in the order of the file and with
    their masks unchanged, and changes nothing. *)
Theorem load_masks_keeps_what_will_prune cfg sparsity st file :
  Py.get key_eqb (masks_pt (disk st)) (sparsity, max_param_sparsity cfg)
    = Some file ->
  NoDup (map fst file) ->
  load_masks cfg sparsity st
  = (Ok (filter (fun e => will_prune (fst e) (exclude_params cfg)) file), st).
Proof.
  intros Hf H. unfold load_masks. rewrite Hf. unfold drop_excluded.
  pose proof (drop_excluded_loop (exclude_params cfg) file [] H) as E.
  simpl in E. rewrite E. reflexivity.
Qed.

Lemma load_masks_keeps_what_will_prune_witness :
  let st := set_disk (save_masks (num 50, num 100)
                        [("encoder.weight"%string, [true; false]);
                         ("embed.weight"%string, [false; true]);
                         ("decoder.norm.weight"%string, [true]);
                         ("decoder.weight"%string, [false; false])] fx_disk)
              (init_state fx_model fx_disk) in
  load_masks cfg_0_50_0 (num 50) st
  = (Ok [("encoder.weight"%string, [true; false]);
         ("decoder.weight"%string, [false; false])], st).
Proof.
  apply (load_masks_keeps_what_will_prune cfg_0_50_0 (num 50) _
           [("encoder.weight"%string, [true; false]);
            ("embed.weight"%string, [false; true]);
            ("decoder.norm.weight"%string, [true]);
            ("decoder.weight"%string, [false; false])]).
  - vm_compute. reflexivity.
  - repeat constructor; simpl; intuition discriminate.
Defined.

(** ** [get_sparsity] on every schedule *)

Lemma get_In (schedule : Py.dict Z Qc) k s :
  Py.get Z.eqb schedule k = Some s -> In k (map fst schedule).
Proof.
  induction schedule as [|[k' s'] schedule IH]; simpl; intro H.
  - discriminate.
  - destruct (Z.eqb k k') eqn:E; [|auto].
    apply Z.eqb_eq in E. auto.
Qed.

Lemma get_None_notin (schedule : Py.dict Z Qc) k :
  Py.get Z.eqb schedule k = None -> ~ In k (map fst schedule).
Proof.
  intros H Hin. destruct (get_of_key schedule k Hin) as [s Hs]. congruence.
Qed.

(** The sparsity of a key that is the greatest one not above the epoch. *)
Lemma get_sparsity_at schedule k e s :
  Py.get Z.eqb schedule k = Some s -> (k <= e)%Z ->
  (forall k', In k' (map fst schedule) -> (k' <= e)%Z -> (k' <= k)%Z) ->
  get_sparsity schedule e = Ok s.
Proof.
  intros Hs Hle Hmax.
  destruct (get_sparsity_greatest_key schedule e k (get_In _ _ _ Hs) Hle)
    as (k1 & s1 & Hin1 & Hle1 & Hmax1 & Hs1 & Hg).
  assert (k1 = k).
  { apply Z.le_antisymm; [apply Hmax; assumption|].
    apply Hmax1; [eapply get_In, Hs | exact Hle]. }
  subst k1. congruence.
Qed.

Lemma ascending_last_max l k :
  ascending (l ++ [k]) -> Forall (fun y => (y <= k)%Z) l.
Proof.
  intro H. apply (ascending_app_last l k []). rewrite app_nil_r. exact H.
Qed.

(** For an epoch below every key the index [i - 1] is [-1]: the sparsity
    of the greatest key. *)
Lemma get_sparsity_wrap schedule e :
  schedule <> [] ->
  (forall k', In k' (map fst schedule) -> (e < k')%Z) ->
  exists k s,
    Py.get Z.eqb schedule k = Some s
    /\ (forall k', In k' (map fst schedule) -> (k' <= k)%Z)
    /\ get_sparsity schedule e = Ok s.
Proof.
  intros Hne Hall. unfold get_sparsity.
  pose proof (sorted_epochs_ascending (map fst schedule)) as Hasc.
  destruct (while_epoch_spec _ e Hasc 0) as (pre & post & El & Hw & Hpre & Hpost).
  assert (pre = []) as ->.
  { destruct pre as [|x pre]; [reflexivity|]. exfalso.
    assert (Hx : In x (map fst schedule)).
    { apply sorted_epochs_In. rewrite El. left. reflexivity. }
    specialize (Hall x Hx). inversion Hpre; subst. lia. }
  rewrite Hw. simpl in *. subst post.
  destruct (exists_last (l := sorted_epochs (map fst schedule)))
    as (l' & k & El).
  { intro E. destruct schedule as [|[k0 s0] schedule]; [congruence|].
    assert (H : In k0 (sorted_epochs (map fst ((k0, s0) :: schedule))))
      by (apply sorted_epochs_In; left; reflexivity).
    rewrite E in H. contradiction. }
  rewrite El in *. rewrite length_app. simpl.
  replace (List.length l' + 1 - 1)%nat with (List.length l') by lia.
  rewrite nth_error_app2 by lia. rewrite Nat.sub_diag. simpl.
  assert (Hk : In k (map fst schedule)).
  { apply sorted_epochs_In. rewrite El. apply in_or_app. right. left. reflexivity. }
  destruct (get_of_key schedule k Hk) as [s Hs].
  exists k, s. split; [exact Hs|]. split.
  - intros k' Hk'. apply sorted_epochs_In in Hk'. rewrite El in Hk'.
    apply in_app_or in Hk'. destruct Hk' as [H|[<-|[]]]; [|lia].
    pose proof (ascending_last_max _ _ Hasc) as Hf.
    rewrite Forall_forall in Hf. apply Hf, H.
  - unfold Py.getitem. rewrite Hs. reflexivity.
Qed.

(** X3. [get_sparsity] raises [IndexError] on an empty schedule.  On any
    other it returns the sparsity of a key [k] of the schedule: the greatest
    key that is not above the epoch when there is one, and otherwise (the
    epoch is below every key, so that the index [i - 1] is [-1]) the greatest
    key of all. *)
Theorem get_sparsity_entry schedule e :
  match schedule with
  | [] => get_sparsity schedule e = Raise IndexError
  | _ :: _ =>
      exists k s,
        Py.get Z.eqb schedule k = Some s
        /\ get_sparsity schedule e = Ok s
        /\ ((k <= e)%Z
            /\ (forall k', In k' (map fst schedule) -> (k' <= e)%Z -> (k' <= k)%Z)
            \/ (forall k', In k' (map fst schedule) -> (e < k')%Z)
               /\ (forall k', In k' (map fst schedule) -> (k' <= k)%Z))
  end.
Proof.
  destruct schedule as [|entry schedule]; [reflexivity|].
  set (sch := entry :: schedule).
  destruct (Forall_Exists_dec (fun k' => (e < k')%Z)
              (fun k' => Z_lt_dec e k') (map fst sch)) as [Hall|Hex].
  - rewrite Forall_forall in Hall.
    destruct (get_sparsity_wrap sch e) as (k & s & Hs & Hmax & Hg);
      [discriminate | exact Hall |].
    exists k, s. auto.
  - apply Exists_exists in Hex. destruct Hex as (k0 & Hin & Hk0).
    destruct (get_sparsity_greatest_key sch e k0 Hin)
      as (k & s & _ & Hle & Hmax & Hs & Hg); [lia|].
    exists k, s. auto.
Qed.

(** ** The schedule controller over a whole run *)

Lemma rewrite_param_frames_sched m n f : frames sched_view (rewrite_param m n f).
Proof. intro st. unfold rewrite_param. destruct (rbind _ _); reflexivity. Qed.

Ltac frame_sched := repeat first [apply rewrite_param_frames_sched | frame_step].

Lemma register_frames_sched h : frames sched_view (register_forward_pre_hook h).
Proof.
  intro st. unfold register_forward_pre_hook.
  destruct (deref st) as [[|]|]; reflexivity.
Qed.

Lemma update_lrs_frames_sched cfg s : frames sched_view (update_lrs cfg s).
Proof. unfold update_lrs. frame_sched. Qed.

Lemma reset_lrs_frames_sched cfg : frames sched_view (reset_lrs cfg).
Proof.
  unfold reset_lrs. frame_sched.
  intro st'. destruct (unscale_groups _ _); reflexivity.
Qed.

Lemma update_hooks_frames_sched s : frames sched_view (update_hooks s).
Proof.
  unfold update_hooks, remove_handle. frame_sched. apply register_frames_sched.
Qed.

Lemma restore_init_frames_sched cfg : frames sched_view (restore_init cfg).
Proof.
  unfold restore_init. frame_sched.
  intro st. destruct (init_values_pt (disk st)); reflexivity.
Qed.

Lemma transition_frames_sched cfg s :
  frames sched_view (lr_transition cfg s ;;; after_lrs cfg s).
Proof.
  apply frames_bind; [|intros _].
  - unfold lr_transition. destruct (Py.truthy s).
    + apply frames_bind; [apply load_masks_frames|intro].
      apply frames_bind; [apply frames_modify; reflexivity|intro].
      apply update_lrs_frames_sched.
    + apply frames_bind; [apply frames_modify; reflexivity|intro].
      apply reset_lrs_frames_sched.
  - unfold after_lrs. apply frames_bind; [|intros _].
    + destruct (forward_mask cfg);
        [apply update_hooks_frames_sched | apply frames_ret].
    + destruct (restore_init_values cfg);
        [apply restore_init_frames_sched | apply log_nonzeros_count_frames].
Qed.

(** Whether it returns or raises, [step] advances the epoch counter by one
    and makes the entry of the new epoch, if the schedule has one, the current
    sparsity. *)
Lemma step_sched_view cfg st :
  sched_view (snd (step cfg st))
  = ((epoch st + 1)%Z,
     match Py.get Z.eqb (schedule cfg) (epoch st + 1)%Z with
     | Some new_sparsity => new_sparsity
     | None => current_sparsity st
     end).
Proof.
  rewrite step_unfold. simpl.
  destruct (Py.get Z.eqb (schedule cfg) (epoch st + 1)%Z) as [s|]; simpl.
  - rewrite transition_frames_sched. reflexivity.
  - reflexivity.
Qed.

(** Without a resume epoch [train] leaves the epoch counter where it was and
    the entry of epoch 0 as the current sparsity, whether it returns or
    raises. *)
Lemma train_sched_view cfg os ss st start :
  resume_epoch cfg = 0%Z ->
  Py.get Z.eqb (schedule cfg) 0%Z = Some start ->
  sched_view (snd (train cfg os ss st)) = (epoch st, start).
Proof.
  intros Hr Hs. unfold train. rewrite Hs.
  rewrite (frames_after sched_view); [reflexivity|].
  apply frames_bind; [apply frames_modify; reflexivity|intros _].
  apply frames_bind; [apply frames_modify; reflexivity|intros _].
  apply frames_bind; [apply frames_modify; reflexivity|intros _].
  apply frames_bind; [intro st'; reflexivity|intro ref].
  apply frames_bind; [apply frames_modify; reflexivity|intros _].
  apply frames_bind;
    [apply prepare_files_frames; intros; reflexivity|intros _].
  apply frames_bind; [apply frames_modify; reflexivity|intros _].
  apply frames_bind; [apply frames_modify; reflexivity|intros _].
  apply frames_bind; [|intros _].
  { destruct (scale_lr_by_param cfg);
      [apply frames_modify; reflexivity | apply frames_ret]. }
  destruct (Py.truthy start); [|apply frames_ret].
  destruct os as [|o os]; [apply frames_raise|].
  rewrite Hr. simpl.
  apply frames_bind; [apply load_masks_frames|intro].
  apply frames_bind; [apply frames_modify; reflexivity|intros _].
  apply frames_bind; [apply update_lrs_frames_sched|intros _].
  destruct (forward_mask cfg); [|apply frames_ret].
  apply frames_bind; [apply frames_gets|intro].
  apply frames_bind; [apply register_frames_sched|intro].
  apply frames_modify; reflexivity.
Qed.

Lemma on_schedule_step cfg st :
  (exists k0, In k0 (map fst (schedule cfg)) /\ (k0 <= epoch st)%Z) ->
  get_sparsity (schedule cfg) (epoch st) = Ok (current_sparsity st) ->
  let st' := snd (step cfg st) in
  epoch st' = (epoch st + 1)%Z
  /\ (exists k0, In k0 (map fst (schedule cfg)) /\ (k0 <= epoch st')%Z)
  /\ get_sparsity (schedule cfg) (epoch st') = Ok (current_sparsity st').
Proof.
  intros (k0 & Hin & Hle) Hg. cbv zeta.
  pose proof (step_sched_view cfg st) as V. unfold sched_view in V.
  injection V as Ve Vs. rewrite Ve, Vs.
  split; [reflexivity|]. split; [exists k0; split; [exact Hin | lia]|].
  destruct (Py.get Z.eqb (schedule cfg) (epoch st + 1)%Z) as [s|] eqn:E.
  - apply (get_sparsity_at _ (epoch st + 1)%Z); [exact E | lia |].
    intros; assumption.
  - destruct (get_sparsity_greatest_key (schedule cfg) (epoch st) k0 Hin Hle)
      as (k & s & Hk & Hkle & Hmax & Hs & Hg').
    rewrite Hg in Hg'. injection Hg' as ->.
    apply (get_sparsity_at _ k); [exact Hs | lia |].
    intros k' Hk' Hle'. apply Hmax; [exact Hk'|].
    assert (k' <> epoch st + 1)%Z; [|lia].
    intros ->. apply (get_None_notin _ _ E Hk').
Qed.

(** X4. After [train] without a resume epoch on a freshly initialised
    trainer and [n] calls of [step], whether they returned or raised, the
    epoch counter is [n] and the current sparsity is the one that
    [get_sparsity] gives for that epoch. *)
Theorem current_sparsity_follows_schedule cfg m d os ss n :
  resume_epoch cfg = 0%Z ->
  Py.mem Z.eqb (schedule cfg) 0%Z = true ->
  let st := after_calls cfg (repeat do_step n)
              (snd (train cfg os ss (init_state m d))) in
  epoch st = Z.of_nat n
  /\ get_sparsity (schedule cfg) (epoch st) = Ok (current_sparsity st).
Proof.
  intros Hr H0. unfold Py.mem in H0.
  destruct (Py.get Z.eqb (schedule cfg) 0%Z) as [start|] eqn:Es; [|discriminate].
  pose proof (train_sched_view cfg os ss (init_state m d) start Hr Es) as V.
  unfold sched_view in V. injection V as Ve Vs. simpl in Ve.
  set (st0 := snd (train cfg os ss (init_state m d))) in *.
  assert (G : forall n st,
             (exists k0, In k0 (map fst (schedule cfg)) /\ (k0 <= epoch st)%Z) ->
             get_sparsity (schedule cfg) (epoch st) = Ok (current_sparsity st) ->
             let st' := after_calls cfg (repeat do_step n) st in
             epoch st' = (epoch st + Z.of_nat n)%Z
             /\ get_sparsity (schedule cfg) (epoch st') = Ok (current_sparsity st')).
  { clear. induction n as [|n IH]; intros st Hk Hg; cbv zeta.
    - simpl. split; [lia | exact Hg].
    - destruct (on_schedule_step cfg st Hk Hg) as (E1 & Hk1 & Hg1).
      destruct (IH _ Hk1 Hg1) as [E2 Hg2].
      change (after_calls cfg (repeat do_step (S n)) st)
        with (after_calls cfg (repeat do_step n) (snd (step cfg st))).
      split; [rewrite E2, E1; lia | exact Hg2]. }
  destruct (G n st0) as [E Hg].
  - exists 0%Z. split; [eapply get_In, Es | lia].
  - rewrite Ve, Vs. apply (get_sparsity_at _ 0%Z); [exact Es | lia |].
    intros; assumption.
  - split; [rewrite E, Ve; lia | exact Hg].
Qed.

Lemma current_sparsity_follows_schedule_witness :
  let st := after_calls cfg_0_50_0 (repeat do_step 3)
              (snd (train cfg_0_50_0 [fx_optimizer] []
                      (init_state fx_model fx_disk))) in
  epoch st = 3%Z
  /\ get_sparsity (schedule cfg_0_50_0) (epoch st) = Ok (current_sparsity st).
Proof.
  apply (current_sparsity_follows_schedule cfg_0_50_0 fx_model fx_disk
           [fx_optimizer] [] 3); reflexivity.
Defined.

(** X5. Between two transitions the calls of [step] change nothing but the
    epoch counter: when the schedule has no entry for the next [n] epochs,
    [n] calls of [step] return and leave the state as it was, with the counter
    advanced by [n]. *)
Theorem steps_between_transitions cfg st n :
  (forall e, (epoch st < e <= epoch st + Z.of_nat n)%Z ->
     Py.mem Z.eqb (schedule cfg) e = false) ->
  steps cfg n st = (Ok tt, set_epoch (epoch st + Z.of_nat n)%Z st).
Proof.
  revert st. induction n as [|n IH]; intros st H.
  - simpl. unfold ret. f_equal. destruct st; simpl.
    rewrite Z.add_0_r. reflexivity.
  - simpl. unfold bind. rewrite step_not_scheduled.
    + rewrite IH.
      * f_equal. unfold set_epoch. simpl. f_equal. lia.
      * intros e He. simpl in He. apply H. lia.
    + specialize (H (epoch st + 1)%Z). unfold Py.mem in H.
      destruct (Py.get Z.eqb (schedule cfg) (epoch st + 1)%Z); [|reflexivity].
      assert (false = true); [|discriminate]. symmetry. apply H. lia.
Qed.

Lemma steps_between_transitions_witness :
  let st := fx_trained cfg_0_50_0 [] in
  steps cfg_0_50_0 1 st = (Ok tt, set_epoch (epoch st + 1)%Z st).
Proof.
  apply (steps_between_transitions cfg_0_50_0 (fx_trained cfg_0_50_0 []) 1).
  intros e He.
  assert (E0 : epoch (fx_trained cfg_0_50_0 []) = 0%Z) by (vm_compute; reflexivity).
  rewrite E0 in He.
  assert (e = 1%Z) as -> by lia.
  reflexivity.
Defined.

(** ** The hook after a transition *)

(** What a completed [update_hooks] leaves when at most one hook was
    registered: the one hook of the current masks, or none. *)
Lemma update_hooks_result s st st' :
  at_most_one_hook st ->
  update_hooks s st = (Ok tt, st') ->
  current_masks st' = current_masks st
  /\ if Py.truthy s
     then exists id, forward_hook st' = Some id
                     /\ forward_pre_hooks st'
                        = [(id, forward_hook_of (current_masks st))]
     else forward_hook st' = None /\ forward_pre_hooks st' = [].
Proof.
  intros H. unfold update_hooks, remove_handle, bind, gets, modify. simpl.
  assert (E : forward_pre_hooks
                (match forward_hook st with
                 | Some id =>
                     set_forward_pre_hooks
                       (Py.del Nat.eqb (forward_pre_hooks st) id) st
                 | None => st
                 end) = []).
  { destruct H as [H|(id & h & Hf & Hh)].
    - destruct (forward_hook st); simpl; rewrite H; reflexivity.
    - rewrite Hf. simpl. rewrite Hh. simpl. rewrite Nat.eqb_refl. reflexivity. }
  destruct (forward_hook st) as [id|]; simpl in *;
    destruct (Py.truthy s); simpl;
    unfold register_forward_pre_hook, deref; simpl;
    try (intro G; injection G as <-; simpl; auto);
    destruct (reduce_getattr (module_to_snip st) (model st)) as [[t|attrs]|e];
    simpl; try discriminate;
    intro G; injection G as <-; simpl; (split; [reflexivity|]);
    eexists; (split; [reflexivity|]); rewrite E; reflexivity.
Qed.

Lemma lr_transition_masks cfg s st st' :
  lr_transition cfg s st = (Ok tt, st') ->
  if Py.truthy s
  then exists file,
         Py.get key_eqb (masks_pt (disk st)) (s, max_param_sparsity cfg) = Some file
         /\ current_masks st' = Some (drop_excluded (exclude_params cfg) file)
  else current_masks st' = None.
Proof.
  unfold lr_transition. destruct (Py.truthy s); intro H.
  - apply bind_ok_inv in H. destruct H as (masks & st1 & H1 & H).
    apply bind_ok_inv in H. destruct H as ([] & st2 & H2 & H).
    unfold load_masks in H1.
    destruct (Py.get key_eqb (masks_pt (disk st)) (s, max_param_sparsity cfg))
      as [file|]; [|discriminate].
    injection H1 as <- <-. unfold modify in H2. injection H2 as <-.
    exists file. split; [reflexivity|].
    pose proof (update_lrs_frames_hooks cfg s
                  (set_current_masks
                     (Some (drop_excluded (exclude_params cfg) file)) st)) as F.
    rewrite H in F. unfold hook_view in F. simpl in F. congruence.
  - apply bind_ok_inv in H. destruct H as ([] & st1 & H1 & H).
    unfold modify in H1. injection H1 as <-.
    assert (F : frames (fun st => current_masks st) (reset_lrs cfg)).
    { unfold reset_lrs. frame.
      intro st'0. destruct (unscale_groups _ _); reflexivity. }
    specialize (F (set_current_masks None st)). rewrite H in F. exact F.
Qed.

(** What a completed transition leaves of the hook. *)
Lemma step_transition_hook cfg st st' s :
  forward_mask cfg = true ->
  at_most_one_hook st ->
  Py.get Z.eqb (schedule cfg) (epoch st + 1)%Z = Some s ->
  step cfg st = (Ok tt, st') ->
  (if Py.truthy s
   then exists file,
          Py.get key_eqb (masks_pt (disk st)) (s, max_param_sparsity cfg) = Some file
          /\ current_masks st' = Some (drop_excluded (exclude_params cfg) file)
   else current_masks st' = None)
  /\ (if Py.truthy s
      then exists id, forward_hook st' = Some id
                      /\ forward_pre_hooks st'
                         = [(id, forward_hook_of (current_masks st'))]
      else forward_hook st' = None /\ forward_pre_hooks st' = []).
Proof.
  intros Hfm H1 Hs H. rewrite step_unfold in H. simpl in H. rewrite Hs in H.
  apply bind_ok_inv in H. destruct H as ([] & st2 & Ht & H).
  unfold after_lrs in H. rewrite Hfm in H.
  apply bind_ok_inv in H. destruct H as ([] & st3 & Hu & H).
  assert (R2 : registry_view st2 = registry_view st).
  { pose proof (lr_transition_frames_registry cfg s
                  (set_current_sparsity s (set_epoch (epoch st + 1)%Z st))) as F.
    rewrite Ht in F. exact F. }
  assert (A2 : at_most_one_hook st2).
  { unfold registry_view in R2. injection R2 as E1 E2 _.
    unfold at_most_one_hook. rewrite E1, E2. exact H1. }
  destruct (update_hooks_result s st2 st3 A2 Hu) as [C3 H3].
  assert (F : hook_view st' = hook_view st3).
  { destruct (restore_init_values cfg).
    - pose proof (restore_init_frames_hooks cfg st3) as F. rewrite H in F. exact F.
    - pose proof (log_nonzeros_count_frames hook_view st3) as F.
      rewrite H in F. exact F. }
  unfold hook_view in F. injection F as F1 F2 _ F4.
  rewrite F1, F2, F4, C3.
  apply lr_transition_masks in Ht. simpl in Ht.
  split; [exact Ht | exact H3].
Qed.

(** X6. A completed [step] to a scheduled nonzero sparsity, with
    [forward_mask] set and at most one hook registered before: the current
    masks are the entries of the mask file of that sparsity that
    [load_masks] keeps, and the one registered hook is the hook of these
    masks. *)
Theorem step_hook_applies_loaded_masks cfg st st' s :
  forward_mask cfg = true ->
  at_most_one_hook st ->
  Py.get Z.eqb (schedule cfg) (epoch st + 1)%Z = Some s ->
  Py.truthy s = true ->
  step cfg st = (Ok tt, st') ->
  exists file id,
    Py.get key_eqb (masks_pt (disk st)) (s, max_param_sparsity cfg) = Some file
    /\ current_masks st' = Some (drop_excluded (exclude_params cfg) file)
    /\ forward_hook st' = Some id
    /\ forward_pre_hooks st' = [(id, forward_hook_of (current_masks st'))].
Proof.
  intros Hfm H1 Hs Ht H.
  destruct (step_transition_hook cfg st st' s Hfm H1 Hs H) as [A B].
  rewrite Ht in A, B. destruct A as (file & Hf & Hc). destruct B as (id & Hi & Hh).
  exists file, id. auto.
Qed.

Lemma step_hook_applies_loaded_masks_witness :
  let st := snd (step cfg_0_50_0 (fx_trained cfg_0_50_0 [])) in
  exists file id,
    Py.get key_eqb (masks_pt (disk st)) (num 50, max_param_sparsity cfg_0_50_0)
      = Some file
    /\ current_masks (snd (step cfg_0_50_0 st))
       = Some (drop_excluded (exclude_params cfg_0_50_0) file)
    /\ forward_hook (snd (step cfg_0_50_0 st)) = Some id
    /\ forward_pre_hooks (snd (step cfg_0_50_0 st))
       = [(id, forward_hook_of (current_masks (snd (step cfg_0_50_0 st))))].
Proof.
  apply (step_hook_applies_loaded_masks cfg_0_50_0
           (snd (step cfg_0_50_0 (fx_trained cfg_0_50_0 [])))
           (snd (step cfg_0_50_0 (snd (step cfg_0_50_0 (fx_trained cfg_0_50_0 [])))))
           (num 50)).
  - reflexivity.
  - left. vm_compute. reflexivity.
  - vm_compute. reflexivity.
  - vm_compute. reflexivity.
  - vm_compute. reflexivity.
Defined.

(** X7. A completed [step] to a scheduled sparsity 0, with [forward_mask]
    set and at most one hook registered before: no mask set is current and no
    forward pre-hook is registered. *)
Theorem step_to_zero_unregisters_hook cfg st st' s :
  forward_mask cfg = true ->
  at_most_one_hook st ->
  Py.get Z.eqb (schedule cfg) (epoch st + 1)%Z = Some s ->
  Py.truthy s = false ->
  step cfg st = (Ok tt, st') ->
  current_masks st' = None /\ forward_hook st' = None /\ forward_pre_hooks st' = [].
Proof.
  intros Hfm H1 Hs Ht H.
  destruct (step_transition_hook cfg st st' s Hfm H1 Hs H) as [A B].
  rewrite Ht in A, B. tauto.
Qed.

Lemma step_to_zero_unregisters_hook_witness :
  let st := snd (steps cfg_0_50_0 3 (fx_trained cfg_0_50_0 [])) in
  forward_pre_hooks st <> []
  /\ current_masks (snd (step cfg_0_50_0 st)) = None
  /\ forward_hook (snd (step cfg_0_50_0 st)) = None
  /\ forward_pre_hooks (snd (step cfg_0_50_0 st)) = [].
Proof.
  split; [vm_compute; discriminate|].
  apply (step_to_zero_unregisters_hook cfg_0_50_0
           (snd (steps cfg_0_50_0 3 (fx_trained cfg_0_50_0 [])))
           (snd (step cfg_0_50_0 (snd (steps cfg_0_50_0 3 (fx_trained cfg_0_50_0 [])))))
           (num 0)).
  - reflexivity.
  - right. vm_compute. eexists. eexists. split; reflexivity.
  - vm_compute. reflexivity.
  - vm_compute. reflexivity.
  - vm_compute. reflexivity.
Defined.

(** ** The files of [sniper_dir] *)

Lemma key_eqb_eq a b : key_eqb a b = true -> a = b.
Proof.
  unfold key_eqb. intro H. apply andb_prop in H. destruct H as [H1 H2].
  apply eqb_true_eq in H1, H2. destruct a, b; simpl in *. congruence.
Qed.

Lemma get_set_other (d : Py.dict (Qc * Qc) MaskSet) k v key :
  key <> k ->
  Py.get key_eqb (Py.set key_eqb d k v) key = Py.get key_eqb d key.
Proof.
  intro N.
  assert (F : key_eqb key k = false).
  { destruct (key_eqb key k) eqn:E; [|reflexivity]. elim N. apply key_eqb_eq, E. }
  induction d as [|[k' v'] d IH]; simpl.
  - rewrite F. reflexivity.
  - destruct (key_eqb k k') eqn:E; simpl.
    + apply key_eqb_eq in E. subst k'. rewrite F. reflexivity.
    + rewrite IH. reflexivity.
Qed.

Lemma keeps_files_refl d : keeps_files d d.
Proof. repeat split; auto. Qed.

Lemma keeps_save_masks d0 d k masks :
  Py.get key_eqb (masks_pt d0) k = None ->
  keeps_files d0 d -> keeps_files d0 (save_masks k masks d).
Proof.
  intros Hk (H1 & H2 & H3). repeat split; simpl; auto.
  intros key m Hm. rewrite get_set_other; [auto|].
  intros ->. congruence.
Qed.

Lemma preserves_bind_gets {A B} (P : State -> Prop) (f : State -> A)
    (k : A -> M B) :
  (forall st, P st -> preserves P (k (f st))) -> preserves P (bind (gets f) k).
Proof. intros H st HP. unfold bind, gets. apply H; exact HP. Qed.

Lemma preserves_for_each_In {A} (P : State -> Prop) (l : list A) body :
  (forall x, In x l -> preserves P (body x)) -> preserves P (for_each l body).
Proof.
  induction l as [|x l IH]; simpl; intro Hb.
  - apply preserves_ret.
  - apply preserves_bind; [apply Hb; auto | intros _; apply IH; auto].
Qed.

Lemma filter_dedup_In f l x : In x (dedup (filter f l)) -> f x = true.
Proof.
  assert (D : forall l, In x (dedup l) -> In x l).
  { clear. induction l as [|y l IH]; simpl; [auto|].
    intros [H|H]; [auto|]. apply filter_In in H. right. apply IH, H. }
  intro H. apply D in H. apply filter_In in H. apply H.
Qed.

(** [prepare_files] writes a file only where there was none. *)
Lemma prepare_files_keeps cfg d0 :
  preserves (fun st => keeps_files d0 (disk st)) (prepare_files cfg).
Proof.
  unfold prepare_files.
  apply preserves_bind_gets. intros st0 H0.
  apply preserves_bind; [|intro iv].
  { destruct (init_values_pt (disk st0)) eqn:E.
    - apply preserves_bind; [|intro; apply preserves_ret].
      destruct (resume_epoch cfg =? 0)%Z; [|apply preserves_ret].
      intros st H. cbv beta. destruct (load_state_dict _ _); exact H.
    - apply preserves_bind; [|intro; apply preserves_ret].
      apply preserves_modify. intros st (H1 & H2 & H3).
      repeat split; simpl; auto.
      intros iv Hiv. destruct H0 as (G1 & _). rewrite (G1 iv Hiv) in E.
      discriminate. }
  apply preserves_bind; [apply preserves_modify; intros st H; exact H|intros _].
  cbv zeta.
  apply preserves_bind_gets. intros st1 H1.
  destruct (dedup _) as [|x missing] eqn:Em; [apply preserves_ret|].
  apply preserves_bind; [|intro tg].
  { intros st H. cbv beta.
    destruct (total_grads_pt (disk st)) eqn:E; simpl; [exact H|].
    destruct (compute_gradients cfg iv); simpl; [|exact H].
    destruct H as (G1 & G2 & G3). repeat split; simpl; auto.
    intros g Hg. rewrite (G2 g Hg) in E. discriminate. }
  apply preserves_for_each_In. intros sp Hsp.
  apply preserves_bind; [apply preserves_lift|intro masks].
  apply preserves_modify. intros st H. simpl.
  apply keeps_save_masks; [|exact H].
  apply (proj1 (sort_In _ _)) in Hsp. rewrite <- Em in Hsp.
  apply filter_dedup_In in Hsp. apply andb_prop in Hsp. destruct Hsp as [_ Hn].
  apply negb_true_iff in Hn. unfold Py.mem in Hn.
  destruct (Py.get key_eqb (masks_pt d0) (sp, max_param_sparsity cfg)) as [m|] eqn:E;
    [|reflexivity].
  destruct H1 as (_ & _ & G3). rewrite (G3 _ _ E) in Hn. discriminate.
Qed.

Lemma register_frames {V} (view : State -> V) h :
  (forall st hooks, view (set_forward_pre_hooks hooks st) = view st) ->
  (forall st id, view (set_next_handle id st) = view st) ->
  frames view (register_forward_pre_hook h).
Proof.
  intros H1 H2 st. unfold register_forward_pre_hook.
  destruct (deref st) as [[|]|]; simpl; try reflexivity.
  rewrite H2, H1. reflexivity.
Qed.

Lemma update_lrs_frames_disk cfg s : frames (fun st => disk st) (update_lrs cfg s).
Proof. unfold update_lrs. frame. Qed.

Lemma reset_lrs_frames_disk cfg : frames (fun st => disk st) (reset_lrs cfg).
Proof.
  unfold reset_lrs. frame.
  intro st'. destruct (unscale_groups _ _); reflexivity.
Qed.

Lemma update_hooks_frames_disk s : frames (fun st => disk st) (update_hooks s).
Proof. intro st. apply (lr_view_eq _ _ (update_hooks_frames_lr s st)). Qed.

(** [step] and [resume_from] only read the files. *)
Lemma step_frames_disk cfg : frames (fun st => disk st) (step cfg).
Proof.
  intro st. rewrite step_unfold. simpl.
  destruct (Py.get Z.eqb (schedule cfg) (epoch st + 1)%Z) as [s|]; [|reflexivity].
  assert (F : frames (fun st => disk st) (lr_transition cfg s ;;; after_lrs cfg s)).
  { apply frames_bind; [|intros _].
    - unfold lr_transition. destruct (Py.truthy s).
      + apply frames_bind; [apply load_masks_frames|intro].
        apply frames_bind; [apply frames_modify; reflexivity|intro].
        apply update_lrs_frames_disk.
      + apply frames_bind; [apply frames_modify; reflexivity|intro].
        apply reset_lrs_frames_disk.
    - intro st'. apply (lr_view_eq _ _ (after_lrs_frames_lr cfg s st')). }
  rewrite F. reflexivity.
Qed.

Lemma resume_from_frames_disk cfg e os ss :
  frames (fun st => disk st) (resume_from cfg e os ss).
Proof.
  unfold resume_from.
  repeat (apply frames_bind; [apply frames_modify; reflexivity|intros _]).
  apply frames_bind; [apply frames_lift|intro].
  apply update_hooks_frames_disk.
Qed.

Lemma after_calls_disk cfg calls :
  forall st, disk (after_calls cfg calls st) = disk st.
Proof.
  induction calls as [|c calls IH]; intro st; simpl; [reflexivity|].
  rewrite IH. destruct c; simpl.
  - apply step_frames_disk.
  - apply resume_from_frames_disk.
Qed.

(** What [train] does once the files are prepared leaves them alone. *)
Lemma train_start_frames_disk cfg os ss start :
  frames (fun st => disk st)
    (if Py.truthy start then
       match os with
       | [] => raise AssertionError
       | _ :: _ =>
           if negb (resume_epoch cfg =? 0)%Z then
             resume_from cfg (resume_epoch cfg) os ss
           else
             masks <~ load_masks cfg start ;;
             modify (set_current_masks (Some masks)) ;;;
             update_lrs cfg start ;;;
             if forward_mask cfg then
               current <~ gets current_masks ;;
               id <~ register_forward_pre_hook (forward_hook_of current) ;;
               modify (set_forward_hook (Some id))
             else ret tt
       end
     else ret tt).
Proof.
  destruct (Py.truthy start); [|apply frames_ret].
  destruct os as [|o os]; [apply frames_raise|].
  destruct (negb (resume_epoch cfg =? 0)%Z); [apply resume_from_frames_disk|].
  apply frames_bind; [apply load_masks_frames|intro].
  apply frames_bind; [apply frames_modify; reflexivity|intros _].
  apply frames_bind; [apply update_lrs_frames_disk|intros _].
  destruct (forward_mask cfg); [|apply frames_ret].
  apply frames_bind; [apply frames_gets|intro].
  apply frames_bind; [apply register_frames; reflexivity|intro].
  apply frames_modify; reflexivity.
Qed.

(** X8. [train] and the calls of [step] and [resume_from] that follow it
    never overwrite or remove a file of [sniper_dir]: the initial values, the
    gradients and every mask file that existed before [train] are there
    afterwards with the same content, whether the calls returned or raised. *)
Theorem train_keeps_existing_files cfg os ss st calls :
  keeps_files (disk st) (disk (after_calls cfg calls (snd (train cfg os ss st)))).
Proof.
  rewrite after_calls_disk.
  assert (P : preserves (fun st' => keeps_files (disk st) (disk st'))
                (train cfg os ss)).
  { unfold train.
    destruct (Py.get Z.eqb (schedule cfg) 0%Z) as [start|];
      [|apply preserves_raise].
    repeat (apply preserves_bind;
            [apply preserves_modify; intros st' H; exact H | intros _]).
    apply preserves_bind; [intros st' H; exact H|intro ref].
    apply preserves_bind;
      [apply preserves_modify; intros st' H; exact H | intros _].
    apply preserves_bind; [apply prepare_files_keeps|intros _].
    repeat (apply preserves_bind;
            [apply preserves_modify; intros st' H; exact H | intros _]).
    apply preserves_bind; [|intros _].
    { destruct (scale_lr_by_param cfg);
        [apply preserves_modify; intros st' H; exact H | apply preserves_ret]. }
    apply (frames_preserves (fun st => disk st) (keeps_files (disk st))).
    apply train_start_frames_disk. }
  apply P, keeps_files_refl.
Qed.




(** ** [create_masks] without the cap, and at the low end *)




















(** ** [compute_gradients]: which parameters get a sensitivity *)

Lemma set_keys (d : GradMap) k' v' k v :
  In (k, v) (Py.set String.eqb d k' v') -> In k (map fst d) \/ k = k'.
Proof.
  induction d as [|[k0 v0] d IH]; simpl.
  - intros [H|[]]. injection H as <- _. auto.
  - destruct (String.eqb k' k0) eqn:E; simpl.
    + intros [H|H].
      * injection H as <- _. auto.
      * left. right. apply (in_map fst) in H. exact H.
    + intros [H|H].
      * injection H as <- _. auto.
      * destruct (IH H) as [G|G]; auto.
Qed.

Lemma fold_set_keys (f : Tensor -> Tensor) pairs :
  forall (acc : GradMap) k v,
    In (k, v)
      (fold_left (fun d (nt : string * Tensor) =>
                    Py.set String.eqb d (fst nt) (f (snd nt))) pairs acc) ->
    In k (map fst acc) \/ In k (map fst pairs).
Proof.
  induction pairs as [|[k0 t0] pairs IH]; intros acc k v H; simpl in *.
  - left. apply (in_map fst) in H. exact H.
  - destruct (IH _ _ _ H) as [G|G]; [|auto].
    apply in_map_iff in G. destruct G as ([k1 v1] & <- & G).
    apply set_keys in G. simpl. destruct G as [G|G]; auto.
Qed.

(** X12. When [compute_gradients] returns, every entry of the gradient map
    bears the name, relative to the module to prune, of a parameter of that
    module for which [will_prune] holds: a parameter whose name contains an
    excluded string never gets a sensitivity. *)
Theorem compute_gradients_entries_will_prune cfg iv result :
  compute_gradients cfg iv = Ok result ->
  exists model ref module_to_snip,
    load_model cfg iv = Ok model
    /\ get_module_to_snip model (snip_module_name cfg) = Ok ref
    /\ reduce_getattr ref model = Ok module_to_snip
    /\ forall full_name total_grad,
         In (full_name, total_grad) result ->
         In full_name (map fst (named_parameters module_to_snip))
         /\ will_prune full_name (exclude_params cfg) = true.
Proof.
  unfold compute_gradients. intro H.
  destruct (load_model cfg iv) as [model|] eqn:Em; simpl in H; [|discriminate].
  destruct (get_module_to_snip model (snip_module_name cfg)) as [ref|] eqn:Er;
    simpl in H; [|discriminate].
  destruct (reduce_getattr ref model) as [[t|attrs]|] eqn:Eg; simpl in H;
    try discriminate.
  set (params := filter _ _) in H.
  destruct (mask_params (Mod attrs) params) as [masks|]; simpl in H; [|discriminate].
  destruct (grads_loop cfg iv params model (batch_iterator cfg)
              (map zeros_like masks)) as [totals|]; simpl in H; [|discriminate].
  destruct (batch_iterator cfg) as [|b bs]; [discriminate|].
  injection H as <-.
  exists model, ref, (Mod attrs).
  split; [reflexivity|]. split; [exact Er|]. split; [exact Eg|].
  intros full_name total_grad H.
  apply fold_set_keys in H. destruct H as [[]|H].
  apply in_map_iff in H. destruct H as ([k v] & <- & H).
  apply in_combine_l in H. apply filter_In in H. exact H.
Qed.

Lemma compute_gradients_entries_will_prune_witness :
  exists result model ref module_to_snip,
    compute_gradients cfg_0_50_0 (state_dict fx_model) = Ok result
    /\ load_model cfg_0_50_0 (state_dict fx_model) = Ok model
    /\ get_module_to_snip model (snip_module_name cfg_0_50_0) = Ok ref
    /\ reduce_getattr ref model = Ok module_to_snip
    /\ forall full_name total_grad,
         In (full_name, total_grad) result ->
         In full_name (map fst (named_parameters module_to_snip))
         /\ will_prune full_name (exclude_params cfg_0_50_0) = true.
Proof.
  destruct (compute_gradients cfg_0_50_0 (state_dict fx_model))
    as [result|] eqn:E; [|vm_compute in E; discriminate].
  destruct (compute_gradients_entries_will_prune cfg_0_50_0
              (state_dict fx_model) result E)
    as (model & ref & module_to_snip & H).
  exists result, model, ref, module_to_snip. split; [reflexivity | exact H].
Defined.

(** ** Parameters that are direct attributes of the module to prune *)

Lemma rsplit1_no_dot s : Py.contains "." s = false -> Py.rsplit1 "."%char s = None.
Proof.
  induction s as [|c s IH]; [reflexivity|].
  change (Py.contains "." (String c s))
    with (String.prefix "." (String c s) || Py.contains "." s).
  intro H. apply orb_false_elim in H. destruct H as [Hp Hc].
  simpl. rewrite (IH Hc).
  simpl in Hp. destruct (ascii_dec "." c) as [<-|N].
  - destruct s; discriminate.
  - destruct (Ascii.eqb c ".") eqn:E; [|reflexivity].
    apply Ascii.eqb_eq in E. congruence.
Qed.

Lemma map_res_ok {A B} (f : A -> Res B) l r x :
  map_res f l = Ok r -> In x l -> exists y, f x = Ok y.
Proof.
  revert r. induction l as [|a l IH]; intros r H Hin; [contradiction|].
  simpl in H. destruct (f a) as [y|] eqn:E; simpl in H; [|discriminate].
  destruct (map_res f l) as [r'|]; simpl in H; [|discriminate].
  destruct Hin as [<-|Hin]; eauto.
Qed.

Lemma direct_parameter_named attrs full_name t :
  In (full_name, Param t) attrs ->
  In full_name (map fst (named_parameters (Mod attrs))).
Proof.
  unfold named_parameters. simpl.
  induction attrs as [|[n c] attrs IH]; intro H; [contradiction|].
  rewrite map_app. apply in_or_app.
  destruct H as [H|H].
  - injection H as -> ->. left. simpl. auto.
  - right. apply IH, H.
Qed.

(** X13. A parameter that is a direct attribute of the module to prune, so
    that its name has no dot, and that [will_prune] accepts, makes
    [compute_gradients] raise: [full_name.rsplit('.', 1)] has one element, and
    [mask_params] cannot unpack a module name and an attribute name from
    it. *)
Theorem compute_gradients_direct_parameter_raises
    cfg iv model ref attrs full_name t :
  load_model cfg iv = Ok model ->
  get_module_to_snip model (snip_module_name cfg) = Ok ref ->
  reduce_getattr ref model = Ok (Mod attrs) ->
  In (full_name, Param t) attrs ->
  Py.contains "." full_name = false ->
  will_prune full_name (exclude_params cfg) = true ->
  exists e, compute_gradients cfg iv = Raise e.
Proof.
  intros Hm Hr Hg Hin Hdot Hw.
  destruct (compute_gradients cfg iv) as [result|e] eqn:E; [|eauto].
  exfalso. unfold compute_gradients in E. rewrite Hm in E. simpl in E.
  rewrite Hr in E. simpl in E. rewrite Hg in E. simpl in E.
  set (params := filter _ _) in E.
  destruct (mask_params (Mod attrs) params) as [masks|] eqn:Ek;
    simpl in E; [|discriminate].
  unfold mask_params in Ek.
  destruct (map_res _ params) as [fmn|] eqn:Ef in Ek; simpl in Ek; [|discriminate].
  assert (Hp : In full_name params).
  { apply filter_In. split; [|exact Hw].
    eapply direct_parameter_named, Hin. }
  destruct (map_res_ok _ _ _ _ Ef Hp) as [y Hy].
  unfold Py.unpack2 in Hy. rewrite (rsplit1_no_dot _ Hdot) in Hy.
  discriminate.
Qed.

Lemma compute_gradients_direct_parameter_raises_witness :
  let linear := Mod [("weight"%string, Param (tensor [1; 2]%Z));
                     ("bias"%string, Param (tensor [3]%Z))] in
  let cfg :=
    {| schedule := [(0%Z, num 50)];
       model_builder := linear;
       snip_module_name := EmptyString;
       batch_iterator := fx_batches;
       get_loss_grads := fx_loss_grads;
       forward_mask := true;
       scale_lr := true;
       scale_lr_by_param := false;
       max_lr_scaling := num 2;
       max_param_sparsity := num 100;
       exclude_params := ["embed"%string; "norm"%string];
       restore_init_values := true;
       resume_epoch := 0%Z;
       optim_lrs := [num 1];
       track_all_params_lr := false;
       shuffle := fun l => l |} in
  exists e, compute_gradients cfg (state_dict linear) = Raise e.
Proof.
  cbv zeta.
  eapply (compute_gradients_direct_parameter_raises _ _ _ []
            [("weight"%string, Param (tensor [1; 2]%Z));
             ("bias"%string, Param (tensor [3]%Z))]
            "weight"%string (tensor [1; 2]%Z)).
  - vm_compute. reflexivity.
  - vm_compute. reflexivity.
  - reflexivity.
  - left. reflexivity.
  - reflexivity.
  - reflexivity.
Defined.

(** ** The learning-rate factor and its transitions *)

Lemma Qc_inv_ge_1 (x : Qc) : (0 < x)%Qc -> (x <= 1)%Qc -> (1 <= 1 / x)%Qc.
Proof.
  intros H0 H1.
  assert (Hx : x <> 0%Qc) by (intro E; rewrite E in H0; discriminate).
  assert (Hi : (0 < 1 / x)%Qc).
  { unfold Qcdiv. rewrite Qcmult_1_l.
    unfold Qclt, Qcinv. cbn [this Q2Qc]. rewrite !Qred_correct.
    apply Qinv_lt_0_compat, H0. }
  apply Qcnot_lt_le. intro L.
  assert (X : (1 / x * x = 1)%Qc) by (field; exact Hx).
  assert (L2 : (1 / x * x < 1 * x)%Qc)
    by (apply Qcmult_lt_compat_r; assumption).
  rewrite X, Qcmult_1_l in L2. apply (Qclt_not_le _ _ L2 H1).
Qed.

(** X14. For a sparsity ratio in [0, 1) and a cap [max_lr_scaling] of at
    least 1, [scaling_fn] returns a factor between 1 and the cap: the cap
    itself, or the inverse of the density [1 - ratio]. *)
Theorem scaling_fn_between_one_and_cap cfg sparsity_ratio :
  (0 <= sparsity_ratio)%Qc -> (sparsity_ratio < 1)%Qc ->
  (1 <= max_lr_scaling cfg)%Qc ->
  exists factor,
    scaling_fn cfg sparsity_ratio = Ok factor
    /\ (1 <= factor)%Qc /\ (factor <= max_lr_scaling cfg)%Qc
    /\ (factor = max_lr_scaling cfg
        \/ (factor * (1 - sparsity_ratio) = 1)%Qc).
Proof.
  intros H0 H1 Hc.
  assert (Hd : (0 < 1 - sparsity_ratio)%Qc).
  { apply Qclt_minus_iff in H1. exact H1. }
  assert (Hd1 : (1 - sparsity_ratio <= 1)%Qc).
  { apply Qcle_minus_iff. ring_simplify. exact H0. }
  assert (Hnz : (1 - sparsity_ratio)%Qc <> 0%Qc).
  { intro E. rewrite E in Hd. discriminate. }
  unfold scaling_fn, Py.div. rewrite (neq_eqb_false _ _ Hnz). simpl.
  pose proof (Qc_inv_ge_1 _ Hd Hd1) as Hq.
  unfold Py.min.
  destruct (Py.ltb (1 / (1 - sparsity_ratio))%Qc (max_lr_scaling cfg)) eqn:E.
  - apply ltb_lt in E. eexists. split; [reflexivity|].
    split; [exact Hq|]. split; [apply Qclt_le_weak, E|].
    right. field. exact Hnz.
  - eexists. split; [reflexivity|].
    split; [exact Hc|]. split; [apply Qcle_refl|]. left. reflexivity.
Qed.

Lemma scaling_fn_between_one_and_cap_witness :
  exists factor,
    scaling_fn cfg_0_50_0 (Py.frac 1 4) = Ok factor
    /\ (1 <= factor)%Qc /\ (factor <= max_lr_scaling cfg_0_50_0)%Qc
    /\ (factor = max_lr_scaling cfg_0_50_0
        \/ (factor * (1 - Py.frac 1 4) = 1)%Qc).
Proof.
  apply (scaling_fn_between_one_and_cap cfg_0_50_0 (Py.frac 1 4)).
  - vm_compute. discriminate.
  - vm_compute. reflexivity.
  - vm_compute. discriminate.
Defined.





(** ** The per-parameter mode *)

Lemma map_res_raise {A B} (f : A -> Res B) l x e :
  In x l -> f x = Raise e -> exists e', map_res f l = Raise e'.
Proof.
  induction l as [|a l IH]; intros Hin Hx; [contradiction|]. simpl.
  destruct Hin as [->|Hin].
  - rewrite Hx. simpl. eauto.
  - destruct (f a); simpl; [|eauto].
    destruct (IH Hin Hx) as [e' ->]. simpl. eauto.
Qed.

(** X16. In the per-parameter mode every parameter group must carry a
    ['name']: if a group of an optimizer has none, [update_lrs] raises before
    it has changed anything. *)
Theorem update_lrs_by_param_needs_named_groups cfg new_sparsity st optimizer pg :
  scale_lr_by_param cfg = true ->
  In optimizer (optimizers st) -> In pg optimizer -> pg_name pg = None ->
  exists e, update_lrs cfg new_sparsity st = (Raise e, st).
Proof.
  intros Hb Ho Hpg Hn. unfold update_lrs. rewrite Hb.
  rewrite andb_false_r.
  unfold bind at 1.
  destruct (scale_lr cfg).
  - unfold lift at 1.
    destruct (scaling_fn cfg (new_sparsity / num 100)%Qc) as [f|e]; [|eauto].
    unfold bind at 1.
    destruct (map_res_raise
                (group_lr_factor cfg (current_masks st)
                   match snip_module_name cfg with
                   | EmptyString => O
                   | String _ _ => (String.length (snip_module_name cfg) + 1)%nat
                   end f) optimizer pg KeyError Hpg) as [e1 E1].
    { unfold group_lr_factor. rewrite Hn. reflexivity. }
    destruct (map_res_raise
                (fun optim =>
                   map_res (group_lr_factor cfg (current_masks st)
                              match snip_module_name cfg with
                              | EmptyString => O
                              | String _ _ =>
                                  (String.length (snip_module_name cfg) + 1)%nat
                              end f) optim)
                (optimizers st) optimizer e1 Ho E1) as [e2 E2].
    destruct (snip_module_name cfg); rewrite E2; eauto.
  - unfold ret at 1.
    unfold bind at 1.
    destruct (map_res_raise
                (group_lr_factor cfg (current_masks st)
                   match snip_module_name cfg with
                   | EmptyString => O
                   | String _ _ => (String.length (snip_module_name cfg) + 1)%nat
                   end 1%Qc) optimizer pg KeyError Hpg) as [e1 E1].
    { unfold group_lr_factor. rewrite Hn. reflexivity. }
    destruct (map_res_raise
                (fun optim =>
                   map_res (group_lr_factor cfg (current_masks st)
                              match snip_module_name cfg with
                              | EmptyString => O
                              | String _ _ =>
                                  (String.length (snip_module_name cfg) + 1)%nat
                              end 1%Qc) optim)
                (optimizers st) optimizer e1 Ho E1) as [e2 E2].
    destruct (snip_module_name cfg); rewrite E2; eauto.
Qed.

Lemma update_lrs_by_param_needs_named_groups_witness :
  let st := set_optimizers [[ {| pg_name := None; pg_lr := num 1 |} ]]
              (init_state fx_model fx_disk) in
  exists e, update_lrs cfg_by_param (num 75) st = (Raise e, st).
Proof.
  apply (update_lrs_by_param_needs_named_groups cfg_by_param (num 75)
           (set_optimizers [[ {| pg_name := None; pg_lr := num 1 |} ]]
              (init_state fx_model fx_disk))
           [ {| pg_name := None; pg_lr := num 1 |} ]
           {| pg_name := None; pg_lr := num 1 |}).
  - reflexivity.
  - left. reflexivity.
  - left. reflexivity.
  - reflexivity.
Defined.

Lemma update_nth_length {A} i (f : A -> A) l :
  List.length (update_nth i f l) = List.length l.
Proof.
  revert i. induction l as [|x l IH]; intros [|i]; simpl; auto.
Qed.

Lemma update_nth_same {A} (d : A) i l :
  update_nth i (fun _ => nth_default d l i) l = l.
Proof.
  unfold nth_default. revert i.
  induction l as [|x l IH]; intros [|i]; simpl; try reflexivity.
  rewrite IH. reflexivity.
Qed.

Lemma unscale_groups_one o : unscale_groups 1%Qc o = Ok o.
Proof.
  unfold unscale_groups. induction o as [|pg o IH]; [reflexivity|].
  cbn [map_res]. rewrite IH. unfold Py.div.
  replace (Py.eqb 1%Qc 0%Qc) with false by reflexivity.
  cbn [rbind].
  replace (pg_lr pg / 1)%Qc with (pg_lr pg) by (field; discriminate).
  destruct pg; reflexivity.
Qed.

(** The per-parameter branch of [update_lrs] never assigns
    [self.lr_factor], and keeps the number of schedulers. *)
Lemma update_lrs_by_param_lr_factor cfg s :
  scale_lr_by_param cfg = true ->
  frames (fun st => (lr_factor st, List.length (schedulers st)))
    (update_lrs cfg s).
Proof.
  intro Hb. unfold update_lrs. rewrite Hb, andb_false_r.
  repeat first
    [ apply frames_ret | apply frames_lift | apply frames_gets
    | apply frames_bind; [| intro]
    | apply frames_for_each; intro
    | apply frames_modify; intro; simpl; rewrite ?update_nth_length; reflexivity
    | match goal with
      | |- frames _ (match ?x with _ => _ end) => destruct x
      | |- frames _ (if ?x then _ else _) => destruct x
      end
    | (intro st; reflexivity) ].
Qed.

(** With the factor at 1.0, [reset_lrs] in the presence of schedulers
    leaves every learning rate as it is. *)
Lemma reset_lrs_unit_factor cfg st :
  lr_factor st = 1%Qc -> schedulers st <> [] ->
  optimizers (snd (reset_lrs cfg st)) = optimizers st.
Proof.
  intros H1 Hs. unfold reset_lrs. unfold bind at 1. unfold gets at 1.
  destruct (schedulers st) as [|sch rest] eqn:Es; [congruence|].
  unfold bind at 1. unfold gets at 1.
  set (l := seq 0 _). clearbody l.
  assert (P : preserves (fun st' => optimizers st' = optimizers st
                                    /\ lr_factor st' = 1%Qc)
                (for_each l
                   (fun i =>
                      let update := nth_default false (update_step_fns st) i in
                      let step_fn := nth_default class_step (step_fns st) i in
                      if update then
                        modify (fun st => set_schedulers
                          (update_nth i (set_step step_fn) (schedulers st)) st)
                      else
                        fun st =>
                          match unscale_groups (lr_factor st)
                                  (nth_default [] (optimizers st) i) with
                          | Ok o' => (Ok tt, set_optimizers
                                     (update_nth i (fun _ => o') (optimizers st)) st)
                          | Raise e => (Raise e, st)
                          end))).
  { apply preserves_for_each. intro i. cbv zeta.
    destruct (nth_default false (update_step_fns st) i).
    - apply preserves_modify. intros st' H. exact H.
    - intros st' [Ho Hf]. cbv beta. rewrite Hf, unscale_groups_one. simpl.
      rewrite update_nth_same. auto. }
  apply P. auto.
Qed.

(** X17. The per-parameter mode never assigns [self.lr_factor], which is
    what [reset_lrs] divides by in the presence of schedulers: with the factor
    at 1.0, as [__init__] leaves it, [update_lrs] keeps it at 1.0, and the
    [reset_lrs] of the transition back to sparsity 0 leaves every learning
    rate as [update_lrs] left it. *)
Theorem reset_lrs_keeps_per_parameter_scaling cfg new_sparsity st :
  scale_lr_by_param cfg = true ->
  lr_factor st = 1%Qc ->
  schedulers st <> [] ->
  let st1 := snd (update_lrs cfg new_sparsity st) in
  lr_factor st1 = 1%Qc
  /\ optimizers (snd (reset_lrs cfg st1)) = optimizers st1.
Proof.
  intros Hb H1 Hs. cbv zeta.
  pose proof (update_lrs_by_param_lr_factor cfg new_sparsity Hb st) as F.
  simpl in F. injection F as F1 F2.
  split; [congruence|].
  apply reset_lrs_unit_factor; [congruence|].
  intro E. rewrite E in F2. destruct (schedulers st); [congruence | discriminate].
Qed.

Lemma reset_lrs_keeps_per_parameter_scaling_witness :
  let st1 := snd (update_lrs cfg_by_param (num 75) st_by_param) in
  map (map pg_lr) (optimizers st_by_param) = [[num 1; num 1]]
  /\ map (map (fun pg => this (pg_lr pg))) (optimizers st1) = [[1; 2]]%Q
  /\ lr_factor st1 = 1%Qc
  /\ optimizers (snd (reset_lrs cfg_by_param st1)) = optimizers st1.
Proof.
  split; [vm_compute; reflexivity|].
  split; [vm_compute; reflexivity|].
  apply (reset_lrs_keeps_per_parameter_scaling cfg_by_param (num 75) st_by_param).
  - reflexivity.
  - vm_compute. reflexivity.
  - vm_compute. discriminate.
Defined.

(** ** What the forward hook does to the weights *)








(** ** [restore_init] and the weights that stay pruned *)

Lemma NoDup_keys_eq {V} (l : list (string * V)) k v1 v2 :
  NoDup (map fst l) -> In (k, v1) l -> In (k, v2) l -> v1 = v2.
Proof.
  induction l as [|[k0 v0] l IH]; intros Hnd H1 H2; [contradiction|].
  inversion Hnd as [|? ? Hk Hnd']; subst.
  destruct H1 as [H1|H1], H2 as [H2|H2].
  - congruence.
  - injection H1 as -> ->. elim Hk. apply (in_map fst) in H2. exact H2.
  - injection H2 as -> ->. elim Hk. apply (in_map fst) in H1. exact H1.
  - apply IH; assumption.
Qed.

(** A zero at a position that every job for the parameter marks inactive
    is still zero after the loop, whatever its outcome. *)
Lemma run_plans_keep_zero plans q i :
  forall st r st',
    (forall j, In j (planned plans) -> module_to_snip st ++ job_path j = q ->
       exists mk, job_mask j = Some mk /\ nth_error mk i = Some false) ->
    for_each plans run_plan st = (r, st') ->
    lookup_rel (fun t t' => nth_error t i = Some 0%Qc -> nth_error t' i = Some 0%Qc)
      (reduce_getattr q (model st)) (reduce_getattr q (model st')).
Proof.
  induction plans as [|plan plans IH]; intros st r st' Hj H; simpl in H.
  - injection H as _ <-. apply lookup_rel_refl. auto.
  - unfold bind in H. destruct (run_plan plan st) as [[[]|e] st1] eqn:E.
    + destruct plan as [[j|e]|]; simpl in E.
      * destruct (rewrite_param_ok _ _ _ _ _ E) as (data & new & Hl & Hf & Ha & E1).
        assert (M1 : module_to_snip st1 = module_to_snip st)
          by (rewrite E1; reflexivity).
        fold (job_path j) in Hl, Ha.
        pose proof (rewrite_rel _ _ _ _ _ Hl Ha q) as R1.
        assert (A : lookup_rel
                      (fun t t' => nth_error t i = Some 0%Qc ->
                                   nth_error t' i = Some 0%Qc)
                      (reduce_getattr q (model st)) (reduce_getattr q (model st1))).
        { eapply lookup_rel_impl; [|exact R1].
          intros t t' [(Hq & -> & ->)|(_ & ->)]; [|auto].
          intro H0.
          destruct (Hj j (or_introl eq_refl) (eq_sym Hq)) as (mk & Hm & Hi).
          destruct (restore_fn_spec _ _ _ _ Hf) as [_ Sp].
          destruct (Sp i _ H0) as (a & b & _ & Hb & Hn).
          rewrite Hm in Hb. simpl in Hb. rewrite Hi in Hb. injection Hb as <-.
          rewrite andb_false_r in Hn. exact Hn. }
        assert (B : lookup_rel
                      (fun t t' => nth_error t i = Some 0%Qc ->
                                   nth_error t' i = Some 0%Qc)
                      (reduce_getattr q (model st1)) (reduce_getattr q (model st'))).
        { apply (IH st1 r st'); [|exact H].
          intros j' Hin Hp. rewrite M1 in Hp.
          apply Hj; [right; exact Hin|exact Hp]. }
        eapply lookup_rel_trans; [|exact A|exact B].
        intros a b c Hab Hbc Ha0. apply Hbc, Hab, Ha0.
      * discriminate.
      * injection E as <-. apply (IH st r st'); [|exact H].
        intros j' Hin Hp. apply Hj; assumption.
    + injection H as _ <-.
      assert (st1 = st) as ->.
      { destruct plan as [[j|e']|]; simpl in E.
        - eapply rewrite_param_raise, E.
        - injection E as _ <-. reflexivity.
        - discriminate. }
      apply lookup_rel_refl. auto.
Qed.

(** X19. [restore_init] does not bring a pruned weight back: with a current
    mask set (a dict, no name twice), an element of a parameter named by an
    entry of the masks that is zero, at a position where the mask of the
    entry is false, is still zero afterwards, whether [restore_init]
    completes or raises. *)
Theorem restore_init_keeps_pruned_weights cfg st r st' masks name mask m n t :
  current_masks st = Some masks ->
  NoDup (map fst masks) ->
  restore_init cfg st = (r, st') ->
  In (name, mask) masks ->
  Py.unpack2 name = Ok (m, n) ->
  reduce_getattr (module_to_snip st ++ Py.split "."%char m ++ [n]) (model st)
    = Ok (Param t) ->
  exists t',
    reduce_getattr (module_to_snip st ++ Py.split "."%char m ++ [n]) (model st')
      = Ok (Param t')
    /\ forall i, nth_error mask i = Some false -> nth_error t i = Some 0%Qc ->
         nth_error t' i = Some 0%Qc.
Proof.
  intros Hc Hnd H Hin U Ht. rewrite restore_init_plans in H.
  destruct (init_values_pt (disk st)) as [iv|].
  2: { injection H as _ <-. exists t. auto. }
  rewrite Hc in H.
  destruct (run_plans_frame _ _ _ _ H) as (_ & _ & _ & F).
  pose proof (F (module_to_snip st ++ Py.split "."%char m ++ [n])) as Fq.
  rewrite Ht in Fq. destruct (lookup_rel_param _ _ _ Fq) as (t' & Ht' & _).
  exists t'. split; [exact Ht'|].
  intros i Hi H0.
  pose proof (run_plans_keep_zero (map (masked_plan cfg iv) masks)
                (module_to_snip st ++ Py.split "."%char m ++ [n]) i
                st r st') as K.
  rewrite Ht, Ht' in K. simpl in K. apply K; [|exact H|exact H0].
  intros j Hj Hp.
  apply In_planned, in_map_iff in Hj. destruct Hj as ([name2 mask2] & P2 & I2).
  apply masked_plan_ok in P2. destruct P2 as (init2 & m2 & n2 & _ & U2 & ->).
  unfold job_path in Hp. simpl in Hp. apply app_inv_head in Hp.
  rewrite <- (unpack2_path _ _ _ U), <- (unpack2_path _ _ _ U2) in Hp.
  apply split_inj in Hp. subst name2.
  rewrite (NoDup_keys_eq _ _ _ _ Hnd I2 Hin). simpl. eauto.
Qed.

Lemma restore_init_keeps_pruned_weights_witness :
  exists t',
    reduce_getattr ["tts"; "encoder"; "weight"]%string
      (model (snd (restore_init cfg_0_75_50_0 st_relaxed_50))) = Ok (Param t')
    /\ forall i, nth_error [false; false; false; false] i = Some false ->
         nth_error (tensor [0; 0; 0; 0]%Z) i = Some 0%Qc ->
         nth_error t' i = Some 0%Qc.
Proof.
  apply (restore_init_keeps_pruned_weights cfg_0_75_50_0 st_relaxed_50
           (fst (restore_init cfg_0_75_50_0 st_relaxed_50))
           (snd (restore_init cfg_0_75_50_0 st_relaxed_50))
           masks_50 "encoder.weight"%string [false; false; false; false]
           "encoder"%string "weight"%string (tensor [0; 0; 0; 0]%Z)).
  - reflexivity.
  - repeat constructor; simpl; intuition discriminate.
  - vm_compute. reflexivity.
  - left. reflexivity.
  - reflexivity.
  - vm_compute. reflexivity.
Defined.

(** ** Dotted names *)

Lemma split_app sep a b :
  Py.split sep (a ++ String sep b) = Py.split sep a ++ Py.split sep b.
Proof.
  induction a as [|c a IH]; simpl.
  - rewrite Ascii.eqb_refl. reflexivity.
  - rewrite IH. destruct (Ascii.eqb c sep); [reflexivity|].
    destruct (split_cons sep a) as [w [ws E]]. rewrite E. reflexivity.
Qed.

(** X20. Resolving a dotted name is resolving what is before a dot and
    then, from there, what is after it. *)
Theorem get_module_by_name_dotted model a b :
  get_module_by_name model (a ++ "." ++ b)
  = (module <- get_module_by_name model a ;; get_module_by_name module b).
Proof.
  unfold get_module_by_name.
  change (a ++ "." ++ b)%string with (a ++ String "." b)%string.
  rewrite split_app. apply reduce_getattr_app.
Qed.

(** ** The names of [named_parameters] resolve *)

Lemma Obj_nested_ind (P : Obj -> Prop) :
  (forall t, P (Param t)) ->
  (forall attrs, Forall (fun nc => P (snd nc)) attrs -> P (Mod attrs)) ->
  forall o, P o.
Proof.
  intros HP HM. fix IH 1. intros [t|attrs]; [apply HP | apply HM].
  induction attrs as [|[n c] l IHl]; constructor; [apply IH | exact IHl].
Qed.

Lemma get_of_In_NoDup_gen {V} (d : list (string * V)) name v :
  NoDup (map fst d) -> In (name, v) d -> Py.get String.eqb d name = Some v.
Proof.
  induction d as [|[k v0] d IH]; intros Hnd Hin; simpl in *.
  - contradiction.
  - inversion Hnd as [|? ? Hk Hnd']; subst.
    destruct Hin as [E|Hin].
    + injection E as -> ->. rewrite String.eqb_refl. reflexivity.
    + destruct (String.eqb name k) eqn:Ek.
      * apply String.eqb_eq in Ek. subst k. elim Hk.
        apply in_map_iff. exists (name, v). auto.
      * apply IH; assumption.
Qed.

Lemma well_named_attrs attrs n c :
  well_named (Mod attrs) -> In (n, c) attrs -> attr_name n /\ well_named c.
Proof.
  intros [_ H] Hin. induction attrs as [|[n0 c0] l IH]; [contradiction|].
  destruct H as (Hn & Hc & Hl). destruct Hin as [E|Hin].
  - injection E as -> ->. auto.
  - apply IH; assumption.
Qed.

(** Every entry of [named_parameters] is the parameter at some path of
    attribute names, under the name that qualifies this path. *)
Lemma named_parameters_path o :
  well_named o ->
  forall prefix name t,
    In (name, t) (named_parameters_from prefix o) ->
    exists path,
      name = qualify_path prefix path
      /\ reduce_getattr path o = Ok (Param t)
      /\ Forall attr_name path.
Proof.
  induction o as [t0|attrs IH] using Obj_nested_ind; intros Hw prefix name t Hin.
  - simpl in Hin. destruct Hin as [E|[]]. injection E as <- <-.
    exists []. repeat split. constructor.
  - assert (G : exists n c, In (n, c) attrs
                 /\ In (name, t) (named_parameters_from (qualify prefix n) c)).
    { simpl in Hin. clear IH Hw.
      induction attrs as [|[n c] l IHl]; [contradiction|].
      apply in_app_or in Hin. destruct Hin as [H|H].
      - exists n, c. split; [left; reflexivity | exact H].
      - destruct (IHl H) as (n' & c' & Hin' & H'). exists n', c'.
        split; [right; exact Hin' | exact H']. }
    destruct G as (n & c & Hnc & Hin').
    destruct (well_named_attrs _ _ _ Hw Hnc) as [Hn Hc].
    rewrite Forall_forall in IH.
    destruct (IH (n, c) Hnc Hc _ _ _ Hin') as (path & -> & Hl & Hp).
    exists (n :: path). split; [reflexivity|]. split; [|constructor; assumption].
    simpl. destruct Hn as [Hne Hnd].
    destruct (String.eqb n EmptyString) eqn:E;
      [apply String.eqb_eq in E; contradiction|].
    rewrite (get_of_In_NoDup_gen attrs n c (proj1 Hw) Hnc). simpl. exact Hl.
Qed.

Lemma split_no_dot n : Py.contains "." n = false -> Py.split "."%char n = [n].
Proof.
  induction n as [|c n IH]; [reflexivity|].
  change (Py.contains "." (String c n))
    with (String.prefix "." (String c n) || Py.contains "." n).
  intro H. apply orb_false_elim in H. destruct H as [Hp Hc].
  simpl. rewrite (IH Hc).
  destruct (Ascii.eqb c ".") eqn:E; [|reflexivity].
  apply Ascii.eqb_eq in E. subst c. simpl in Hp. destruct n; discriminate.
Qed.

Lemma split_qualify_path path :
  Forall attr_name path ->
  forall prefix, prefix <> EmptyString ->
    Py.split "."%char (qualify_path prefix path) = Py.split "."%char prefix ++ path.
Proof.
  induction 1 as [|n path [Hne Hnd] Hp IH]; intros prefix Hpre.
  - simpl. rewrite app_nil_r. reflexivity.
  - change (qualify_path prefix (n :: path))
      with (qualify_path (qualify prefix n) path).
    rewrite IH.
    + unfold qualify. destruct prefix as [|c p]; [congruence|].
      change (String c p ++ "." ++ n)%string with (String c p ++ String "." n)%string.
      rewrite split_app, (split_no_dot n Hnd), <- app_assoc. reflexivity.
    + unfold qualify. destruct prefix; [congruence | discriminate].
Qed.

(** The qualified name of a parameter below the root splits into its
    path. *)
Lemma split_qualified path :
  Forall attr_name path -> path <> [] ->
  Py.split "."%char (qualify_path EmptyString path) = path.
Proof.
  intros H Hne. destruct path as [|n path]; [congruence|].
  inversion H as [|? ? [Hn Hd] Hp]; subst.
  change (qualify_path EmptyString (n :: path)) with (qualify_path n path).
  rewrite split_qualify_path by assumption.
  rewrite (split_no_dot n Hd). reflexivity.
Qed.

Lemma rsplit1_none_split s :
  Py.rsplit1 "."%char s = None -> Py.split "."%char s = [s].
Proof.
  induction s as [|c s IHs]; simpl; intro E; [reflexivity|].
  destruct (Py.rsplit1 "." s) as [[? ?]|]; [discriminate|].
  destruct (Ascii.eqb c "."); [discriminate|].
  rewrite (IHs eq_refl). reflexivity.
Qed.

(** A parameter that [named_parameters] lists under a dotted name is the
    attribute, named after the last dot, of the module that the name before
    the last dot resolves to. *)
Lemma named_parameter_resolves module full_name t :
  well_named module ->
  In (full_name, t) (named_parameters module) ->
  Py.contains "." full_name = true ->
  exists m n last_module,
    Py.unpack2 full_name = Ok (m, n)
    /\ get_module_by_name module m = Ok last_module
    /\ getattr last_module n = Ok (Param t).
Proof.
  intros Hw Hin Ec. unfold named_parameters in Hin.
  destruct (named_parameters_path module Hw _ _ _ Hin) as (path & -> & Hl & Hp).
  assert (Hne : path <> []).
  { intros ->. discriminate. }
  pose proof (split_qualified path Hp Hne) as Es.
  unfold Py.unpack2.
  destruct (Py.rsplit1 "." (qualify_path EmptyString path)) as [[m n]|] eqn:Er.
  - apply split_rsplit1 in Er. rewrite Es in Er.
    unfold get_module_by_name. rewrite Er, reduce_getattr_app in Hl.
    destruct (reduce_getattr (Py.split "." m) module) as [last|] eqn:Em;
      simpl in *; [|discriminate].
    destruct (getattr last n) as [param|] eqn:Eg; simpl in *; [|discriminate].
    exists m, n, last. split; [reflexivity|]. split; [exact Em|]. congruence.
  - exfalso. apply rsplit1_none_split in Er. rewrite Es in Er.
    destruct path as [|n path]; [congruence|].
    destruct path as [|n2 path].
    + inversion Hp as [|? ? [_ Hd] _]; subst. simpl in Ec. congruence.
    + discriminate.
Qed.

(** X21. In a model whose attribute names are ones that PyTorch accepts,
    [get_param_by_name] finds every parameter that [named_parameters] lists
    under a dotted name, and it is that parameter; for a parameter that is a
    direct attribute, whose name has no dot, it raises [ValueError]. *)
Theorem get_param_by_name_finds_named_parameters module full_name t :
  well_named module ->
  In (full_name, t) (named_parameters module) ->
  get_param_by_name module full_name
  = if Py.contains "." full_name then Ok (Some (Param t)) else Raise ValueError.
Proof.
  intros Hw Hin. unfold get_param_by_name.
  destruct (Py.contains "." full_name) eqn:Ec.
  - destruct (named_parameter_resolves module full_name t Hw Hin Ec)
      as (m & n & last & -> & Hm & Hg).
    simpl. rewrite Hm. simpl. rewrite Hg. reflexivity.
  - unfold Py.unpack2. rewrite (rsplit1_no_dot _ Ec). reflexivity.
Qed.

Lemma get_param_by_name_finds_named_parameters_witness :
  get_param_by_name fx_model "tts.decoder.weight"
  = Ok (Some (Param (tensor [0; 2; 0; 4]%Z))).
Proof.
  apply (get_param_by_name_finds_named_parameters fx_model
           "tts.decoder.weight"%string (tensor [0; 2; 0; 4]%Z)).
  - simpl. unfold attr_name.
    repeat split; try discriminate;
      repeat constructor; simpl; intuition discriminate.
  - simpl. auto.
Defined.

(** ** [mask_params]: the multipliers *)

Lemma map_res_Forall2 {A B C} (f : B -> Res C) (R1 : A -> B -> Prop)
    (R2 : A -> C -> Prop) xs ys :
  Forall2 R1 xs ys ->
  (forall x y, R1 x y -> exists z, f y = Ok z /\ R2 x z) ->
  exists zs, map_res f ys = Ok zs /\ Forall2 R2 xs zs.
Proof.
  intros H Hf. induction H as [|x y xs ys Hxy Hrest IH]; simpl.
  - exists []. split; [reflexivity | constructor].
  - destruct (Hf x y Hxy) as (z & -> & Hz). destruct IH as (zs & -> & Hzs).
    simpl. exists (z :: zs). split; [reflexivity | constructor; assumption].
Qed.

Lemma Forall2_diag {A} (P : A -> Prop) l :
  Forall P l -> Forall2 (fun x y => x = y /\ P x) l l.
Proof. induction 1; constructor; auto. Qed.

(** X26. In a model whose attribute names are ones that PyTorch accepts,
    [mask_params] on dotted names that [named_parameters] lists returns one
    multiplier for each name, in order: a tensor of ones of the size of a
    parameter listed under that name. *)
Theorem mask_params_all_ones module params_to_prune :
  well_named module ->
  Forall (fun full_name =>
            Py.contains "." full_name = true
            /\ In full_name (map fst (named_parameters module)))
    params_to_prune ->
  exists masks,
    mask_params module params_to_prune = Ok masks
    /\ Forall2 (fun full_name mask =>
                  exists t, In (full_name, t) (named_parameters module)
                            /\ mask = ones_like t)
         params_to_prune masks.
Proof.
  intros Hw Hp. unfold mask_params.
  destruct (map_res_Forall2
              (fun full_name =>
                 mn <- Py.unpack2 full_name ;;
                 module0 <- get_module_by_name module (fst mn) ;;
                 Ok (module0, snd mn))
              _
              (fun full_name (mn : Obj * string) =>
                 exists t, In (full_name, t) (named_parameters module)
                           /\ getattr (fst mn) (snd mn) = Ok (Param t))
              _ _ (Forall2_diag _ _ Hp)) as (fmn & -> & Hfmn).
  { intros x y [<- [Hc Hin]].
    apply in_map_iff in Hin. destruct Hin as ([name t] & <- & Hin). simpl in *.
    destruct (named_parameter_resolves module name t Hw Hin Hc)
      as (m & n & last & -> & Hm & Hg).
    simpl. rewrite Hm. simpl. eexists. split; [reflexivity|]. simpl. eauto. }
  simpl.
  apply (map_res_Forall2 _ _ _ _ _ Hfmn).
  intros name [last n] (t & Hin & Hg). simpl in Hg. simpl. rewrite Hg. simpl.
  eexists. split; [reflexivity|]. eauto.
Qed.

Lemma mask_params_all_ones_witness :
  exists masks,
    mask_params fx_model ["tts.encoder.weight"; "head.weight"]%string = Ok masks
    /\ Forall2 (fun full_name mask =>
                  exists t, In (full_name, t) (named_parameters fx_model)
                            /\ mask = ones_like t)
         ["tts.encoder.weight"; "head.weight"]%string masks.
Proof.
  apply (mask_params_all_ones fx_model ["tts.encoder.weight"; "head.weight"]%string).
  - simpl. unfold attr_name.
    repeat split; try discriminate;
      repeat constructor; simpl; intuition discriminate.
  - constructor; [split; [reflexivity | simpl; auto]|].
    constructor; [split; [reflexivity | simpl; auto]|].
    constructor.
Defined.

(** ** [global_prune] *)

Lemma leb_false_lt (c x : Qc) : Py.leb c x = false <-> (x < c)%Qc.
Proof.
  split; intro H.
  - apply Qcnot_le_lt. intro L. apply leb_le in L. congruence.
  - destruct (Py.leb c x) eqn:E; [|reflexivity].
    apply leb_le in E. elim (Qclt_not_le _ _ H E).
Qed.










(** ** The hook registry over a whole run *)

(** X23. After [train] on a freshly initialised trainer and any sequence of
    [step] and [resume_from] calls, whether they returned or raised, the
    module to prune has no forward pre-hook, or exactly one, the one whose
    handle [self.forward_hook] holds. *)
Theorem forward_pre_hooks_at_most_one cfg m d os ss calls :
  let st := after_calls cfg calls (snd (train cfg os ss (init_state m d))) in
  forward_pre_hooks st = []
  \/ exists id h, forward_hook st = Some id /\ forward_pre_hooks st = [(id, h)].
Proof.
  apply at_most_one_hook_after_calls, train_at_most_one. reflexivity.
Qed.

(** ** Resuming and the learning rates *)

Lemma bind_modify {B} f (k : unit -> M B) st :
  bind (modify f) k st = k tt (f st).
Proof. reflexivity. Qed.

(** X24. With a resume epoch [train] leaves the learning rates to the
    checkpoint: on a freshly initialised trainer it returns or raises with
    [self.lr_factor] at 1.0, the optimizers as the caller passed them and the
    schedulers unpatched, whatever the sparsity it resumes into. *)
Theorem train_resume_leaves_learning_rates cfg m d os ss :
  resume_epoch cfg <> 0%Z ->
  Py.mem Z.eqb (schedule cfg) 0%Z = true ->
  let st := snd (train cfg os ss (init_state m d)) in
  lr_factor st = 1%Qc /\ optimizers st = os /\ schedulers st = ss.
Proof.
  intros Hr H0. cbv zeta. unfold Py.mem in H0. unfold train.
  destruct (Py.get Z.eqb (schedule cfg) 0%Z) as [start|]; [|discriminate].
  rewrite !bind_modify.
  set (P := fun st => lr_factor st = 1%Qc /\ optimizers st = os
                      /\ schedulers st = ss).
  assert (Hu : forall s, preserves P (update_hooks s)).
  { intros s st H.
    destruct (lr_view_eq _ _ (update_hooks_frames_lr s st)) as (E1 & E2 & E3 & _).
    unfold P. rewrite E1, E2, E3. exact H. }
  match goal with
  | |- context [snd (?c ?st)] => assert (G : preserves P c)
  end.
  { apply preserves_bind; [intros st H; exact H|intro ref].
    apply preserves_bind;
      [apply preserves_modify; intros st H; exact H | intros _].
    apply preserves_bind; [|intros _].
    { apply (frames_preserves
               (fun st => (lr_factor st, optimizers st, schedulers st))
               (fun v => fst (fst v) = 1%Qc /\ snd (fst v) = os /\ snd v = ss)).
      apply prepare_files_frames; intros; reflexivity. }
    repeat (apply preserves_bind;
            [apply preserves_modify; intros st H; exact H | intros _]).
    apply preserves_bind; [|intros _].
    { destruct (scale_lr_by_param cfg);
        [apply preserves_modify; intros st H; exact H | apply preserves_ret]. }
    destruct (Py.truthy start); [|apply preserves_ret].
    destruct os as [|o os']; [apply preserves_raise|].
    apply Z.eqb_neq in Hr. rewrite Hr. simpl.
    unfold resume_from.
    apply preserves_bind;
      [apply preserves_modify; intros st H; exact H | intros _].
    apply preserves_bind;
      [apply preserves_modify; intros st (H1 & H2 & H3); repeat split; assumption
      | intros _].
    apply preserves_bind;
      [apply preserves_modify; intros st (H1 & H2 & H3); repeat split; assumption
      | intros _].
    apply preserves_bind; [apply preserves_lift | intro s]. apply Hu. }
  apply G. repeat split.
Qed.

Lemma train_resume_leaves_learning_rates_witness :
  let st := fx_trained cfg_resume [fx_lambda_lr] in
  current_sparsity st = num 50
  /\ lr_factor st = 1%Qc /\ optimizers st = [fx_optimizer]
  /\ schedulers st = [fx_lambda_lr].
Proof.
  split; [vm_compute; reflexivity|].
  apply (train_resume_leaves_learning_rates cfg_resume fx_model fx_disk
           [fx_optimizer] [fx_lambda_lr]).
  - discriminate.
  - reflexivity.
Defined.

(** ** The parameter groups that [train] tracks *)

Lemma first_pg_index_spec optim_lr o :
  forall start,
    let idx := first_pg_index optim_lr o start in
    (idx = (-1)%Z /\ Forall (fun pg => pg_lr pg <> optim_lr) o)
    \/ (start <= idx)%Z
       /\ exists pg, nth_error o (Z.to_nat (idx - start)) = Some pg
                     /\ pg_lr pg = optim_lr
                     /\ Forall (fun pg' => pg_lr pg' <> optim_lr)
                          (firstn (Z.to_nat (idx - start)) o).
Proof.
  induction o as [|pg o IH]; intro start; cbv zeta; simpl.
  - left. split; [reflexivity | constructor].
  - destruct (Py.eqb (pg_lr pg) optim_lr) eqn:E.
    + right. split; [lia|]. rewrite Z.sub_diag. simpl.
      exists pg. split; [reflexivity|]. split; [apply eqb_true_eq, E | constructor].
    + apply eqb_false_neq in E.
      destruct (IH (start + 1)%Z) as [[H1 H2]|(H1 & pg' & H2 & H3 & H4)].
      * left. split; [exact H1 | constructor; assumption].
      * right. split; [lia|].
        replace (Z.to_nat (first_pg_index optim_lr o (start + 1) - start))
          with (S (Z.to_nat (first_pg_index optim_lr o (start + 1) - (start + 1))))
          by lia.
        simpl. exists pg'. split; [exact H2|]. split; [exact H3|].
        constructor; assumption.
Qed.

Lemma pg_indices_zip_nth os lrs i o :
  nth_error os i = Some o ->
  nth_error (pg_indices_zip os lrs) i
  = Some match nth_error lrs i with
         | Some optim_lr => first_pg_index optim_lr o 0%Z
         | None => (-1)%Z
         end.
Proof.
  revert lrs i. induction os as [|o' os IH]; intros lrs i H.
  - destruct i; discriminate.
  - destruct lrs as [|lr lrs].
    + destruct i as [|i]; simpl in *; [reflexivity|].
      rewrite nth_error_map, H. reflexivity.
    + destruct i as [|i]; simpl in *.
      * injection H as ->. reflexivity.
      * apply IH, H.
Qed.

(** X25. When [train] has returned, [self.track_pg_indices] has one entry
    for each optimizer: [-1] when all parameters are tracked, when
    [optim_lrs] has no entry for the optimizer or when none of its groups has
    that learning rate, and otherwise the index of the first group of the
    optimizer, as the caller passed it, whose learning rate is the entry of
    [optim_lrs]. *)
Theorem train_tracks_first_group_at_nominal_rate cfg os ss st st' i o :
  train cfg os ss st = (Ok tt, st') ->
  nth_error os i = Some o ->
  exists idx,
    nth_error (track_pg_indices st') i = Some idx
    /\ (idx = (-1)%Z
        /\ (track_all_params_lr cfg = true
            \/ nth_error (optim_lrs cfg) i = None
            \/ exists optim_lr,
                 nth_error (optim_lrs cfg) i = Some optim_lr
                 /\ Forall (fun pg => pg_lr pg <> optim_lr) o)
        \/ (0 <= idx)%Z
           /\ track_all_params_lr cfg = false
           /\ exists optim_lr pg,
                nth_error (optim_lrs cfg) i = Some optim_lr
                /\ nth_error o (Z.to_nat idx) = Some pg
                /\ pg_lr pg = optim_lr
                /\ Forall (fun pg' => pg_lr pg' <> optim_lr)
                     (firstn (Z.to_nat idx) o)).
Proof.
  intros H Ho.
  assert (T : track_pg_indices st'
              = if track_all_params_lr cfg then map (fun _ => (-1)%Z) os
                else pg_indices_zip os (optim_lrs cfg)).
  { unfold train in H.
    destruct (Py.get Z.eqb (schedule cfg) 0%Z) as [start|]; [|discriminate].
    rewrite !bind_modify in H.
    do 3 (apply bind_ok_inv in H;
          let u := fresh "u" in let s := fresh "s" in let E := fresh "E" in
          destruct H as (u & s & E & H)).
    rewrite !bind_modify in H.
    match type of H with
    | ?c ?s = _ => assert (F : frames (fun st => track_pg_indices st) c)
    end.
    { apply frames_bind; [|intros _].
      { destruct (scale_lr_by_param cfg);
          [apply frames_modify; reflexivity | apply frames_ret]. }
      destruct (Py.truthy start); [|apply frames_ret].
      destruct os as [|o0 os0]; [apply frames_raise|].
      destruct (negb (resume_epoch cfg =? 0)%Z).
      - unfold resume_from, update_hooks, remove_handle. frame.
        apply register_frames; reflexivity.
      - apply frames_bind; [apply load_masks_frames|intro].
        apply frames_bind; [apply frames_modify; reflexivity|intros _].
        apply frames_bind; [unfold update_lrs; frame|intros _].
        destruct (forward_mask cfg); [|apply frames_ret].
        apply frames_bind; [apply frames_gets|intro].
        apply frames_bind; [apply register_frames; reflexivity|intro].
        apply frames_modify; reflexivity. }
    match type of H with
    | ?c ?s = _ => specialize (F s)
    end.
    rewrite H in F. simpl in F. exact F. }
  rewrite T. destruct (track_all_params_lr cfg).
  - exists (-1)%Z. split; [rewrite nth_error_map, Ho; reflexivity|].
    left. auto.
  - rewrite (pg_indices_zip_nth _ _ _ _ Ho).
    destruct (nth_error (optim_lrs cfg) i) as [optim_lr|].
    + eexists. split; [reflexivity|].
      destruct (first_pg_index_spec optim_lr o 0%Z)
        as [[H1 H2]|(H1 & pg & H2 & H3 & H4)].
      * left. split; [exact H1|]. right. right. eauto.
      * right. rewrite Z.sub_0_r in H2, H4. split; [exact H1|].
        split; [reflexivity|]. exists optim_lr, pg. auto.
    + exists (-1)%Z. split; [reflexivity|]. left. auto.
Qed.

Lemma train_tracks_first_group_at_nominal_rate_witness :
  exists idx,
    nth_error (track_pg_indices (fx_trained cfg_0_50_0 [])) 0 = Some idx
    /\ (idx = (-1)%Z
        /\ (track_all_params_lr cfg_0_50_0 = true
            \/ nth_error (optim_lrs cfg_0_50_0) 0 = None
            \/ exists optim_lr,
                 nth_error (optim_lrs cfg_0_50_0) 0 = Some optim_lr
                 /\ Forall (fun pg => pg_lr pg <> optim_lr) fx_optimizer)
        \/ (0 <= idx)%Z
           /\ track_all_params_lr cfg_0_50_0 = false
           /\ exists optim_lr pg,
                nth_error (optim_lrs cfg_0_50_0) 0 = Some optim_lr
                /\ nth_error fx_optimizer (Z.to_nat idx) = Some pg
                /\ pg_lr pg = optim_lr
                /\ Forall (fun pg' => pg_lr pg' <> optim_lr)
                     (firstn (Z.to_nat idx) fx_optimizer)).
Proof.
  apply (train_tracks_first_group_at_nominal_rate cfg_0_50_0 [fx_optimizer] []
           (init_state fx_model fx_disk) (fx_trained cfg_0_50_0 []) 0 fx_optimizer).
  - vm_compute. reflexivity.
  - reflexivity.
Defined.

(** ** [log_nonzeros_count] *)




(** ** [create_masks]: which masks respect the cap *)











(** ** The hook that [train] registers *)

(** X29. Without a resume epoch, when [train] on a freshly initialised
    trainer has returned for a schedule that starts at a nonzero sparsity with
    [forward_mask] set: the current masks are the entries of the mask file of
    that sparsity that [load_masks] keeps, and the one registered hook is the
    hook of these masks. *)
Theorem train_hook_applies_loaded_masks cfg m d os ss st' s :
  resume_epoch cfg = 0%Z ->
  forward_mask cfg = true ->
  Py.get Z.eqb (schedule cfg) 0%Z = Some s ->
  Py.truthy s = true ->
  train cfg os ss (init_state m d) = (Ok tt, st') ->
  exists file id,
    Py.get key_eqb (masks_pt (disk st')) (s, max_param_sparsity cfg) = Some file
    /\ current_masks st' = Some (drop_excluded (exclude_params cfg) file)
    /\ forward_hook st' = Some id
    /\ forward_pre_hooks st' = [(id, forward_hook_of (current_masks st'))].
Proof.
  intros Hr Hfm Hs Ht H. unfold train in H. rewrite Hs, Ht, Hr, Hfm in H.
  rewrite !bind_modify in H.
  apply bind_ok_inv in H. destruct H as (ref & st1 & E1 & H).
  injection E1 as _ <-. rewrite bind_modify in H.
  apply bind_ok_inv in H. destruct H as ([] & st2 & E2 & H).
  pose proof (prepare_files_frames_hooks cfg
                (set_module_to_snip ref
                   (set_step_fns (map sched_step ss)
                      (set_schedulers ss
                         (set_optimizers os
                            (set_current_sparsity s (init_state m d))))))) as V2.
  rewrite E2 in V2. unfold hook_view in V2. simpl in V2.
  injection V2 as V21 V22 V23 V24.
  rewrite !bind_modify in H.
  apply bind_ok_inv in H. destruct H as ([] & st3 & E3 & H).
  assert (V3 : forward_pre_hooks st3 = [] /\ disk st3 = disk st2).
  { destruct (scale_lr_by_param cfg).
    - unfold modify in E3. injection E3 as <-. simpl. auto.
    - unfold ret in E3. injection E3 as <-. simpl. auto. }
  destruct V3 as [V31 V32].
  destruct os as [|o os']; [discriminate|].
  change (negb (0 =? 0)%Z) with false in H. cbv iota in H.
  apply bind_ok_inv in H. destruct H as (masks & st4 & E4 & H).
  unfold load_masks in E4.
  destruct (Py.get key_eqb (masks_pt (disk st3)) (s, max_param_sparsity cfg))
    as [file|] eqn:Ef; [|discriminate].
  injection E4 as <- <-. rewrite bind_modify in H.
  apply bind_ok_inv in H. destruct H as ([] & st5 & E5 & H).
  pose proof (update_lrs_frames_hooks cfg s
                (set_current_masks
                   (Some (drop_excluded (exclude_params cfg) file)) st3)) as V5.
  rewrite E5 in V5. unfold hook_view in V5. simpl in V5.
  injection V5 as V51 V52 V53 V54.
  pose proof (update_lrs_frames_disk cfg s
                (set_current_masks
                   (Some (drop_excluded (exclude_params cfg) file)) st3)) as D5.
  rewrite E5 in D5. simpl in D5.
  apply bind_ok_inv in H. destruct H as (current & st6 & E6 & H).
  unfold gets in E6. injection E6 as <- <-.
  apply bind_ok_inv in H. destruct H as (id & st7 & E7 & H).
  unfold modify in H. injection H as <-.
  unfold register_forward_pre_hook in E7.
  destruct (deref st5) as [[t|attrs]|e]; try discriminate.
  injection E7 as <- <-. simpl.
  exists file, (next_handle st5).
  rewrite D5, V52, V54, V31. auto.
Qed.

Lemma train_hook_applies_loaded_masks_witness :
  let cfg := fx_cfg [(0%Z, num 50); (2%Z, num 75)] true 0%Z (num 2) in
  let st' := fx_trained cfg [] in
  exists file id,
    Py.get key_eqb (masks_pt (disk st')) (num 50, max_param_sparsity cfg)
      = Some file
    /\ current_masks st' = Some (drop_excluded (exclude_params cfg) file)
    /\ forward_hook st' = Some id
    /\ forward_pre_hooks st' = [(id, forward_hook_of (current_masks st'))].
Proof.
  apply (train_hook_applies_loaded_masks
           (fx_cfg [(0%Z, num 50); (2%Z, num 75)] true 0%Z (num 2))
           fx_model fx_disk [fx_optimizer] []
           (fx_trained (fx_cfg [(0%Z, num 50); (2%Z, num 75)] true 0%Z (num 2)) [])
           (num 50)).
  - reflexivity.
  - reflexivity.
  - reflexivity.
  - reflexivity.
  - vm_compute. reflexivity.
Defined.

(** ** [scheduler_step] in general *)

Lemma update_nth_spec {A} (f : A -> A) l i x :
  nth_error l i = Some x ->
  nth_error (update_nth i f l) i = Some (f x)
  /\ forall k, k <> i -> nth_error (update_nth i f l) k = nth_error l k.
Proof.
  revert i. induction l as [|y l IH]; intros [|i] H; simpl in *; try discriminate.
  - injection H as ->. split; [reflexivity|].
    intros [|k] Hk; [congruence | reflexivity].
  - destruct (IH i H) as [H1 H2]. split; [exact H1|].
    intros [|k] Hk; [reflexivity|]. simpl. apply H2. congruence.
Qed.

(** Writing the values to the groups, as [zip] pairs them. *)
Lemma write_rates (groups : Optimizer) (values : list Qc) :
  let groups' :=
    (fix write (gs : Optimizer) (vs : list Qc) : Optimizer :=
       match gs, vs with
       | g :: gs', lr :: vs' => set_lr lr g :: write gs' vs'
       | _, _ => gs
       end) groups values in
  List.length groups' = List.length groups
  /\ forall j pg, nth_error groups j = Some pg ->
       exists pg', nth_error groups' j = Some pg'
                   /\ pg_name pg' = pg_name pg
                   /\ pg_lr pg' = match nth_error values j with
                                  | Some lr => lr
                                  | None => pg_lr pg
                                  end.
Proof.
  cbv zeta. revert values.
  induction groups as [|g groups IH]; intros values.
  - split; [destruct values; reflexivity|]. intros [|j] pg H; discriminate.
  - destruct values as [|lr values].
    + split; [reflexivity|]. intros j pg H. exists pg.
      destruct j; simpl; auto.
    + destruct (IH values) as [L N]. split; [simpl; congruence|].
      intros [|j] pg H; simpl in *.
      * injection H as <-. eexists. split; [reflexivity|]. auto.
      * apply N, H.
Qed.

(** X30. [scheduler_step] without an epoch, on a scheduler whose optimizer
    is among the optimizers: it returns, advances [last_epoch] by one and
    leaves the binding of [step] and the other optimizers alone; each group
    of its optimizer keeps its name and takes the value that [get_lr()] has
    for it, multiplied by [lr_factor] when one is given, and otherwise by the
    factor that [lr_factors], when given, has for it; a group for which
    [get_lr()] has no value, or [lr_factors] no factor, keeps its rate;
    [_last_lr] lists the rates of the groups afterwards. *)
Theorem scheduler_step_rates i lr_factor lr_factors st self groups :
  nth_error (schedulers st) i = Some self ->
  nth_error (optimizers st) (sched_optimizer self) = Some groups ->
  exists st' self' groups',
    scheduler_step i None lr_factor lr_factors st = (Ok tt, st')
    /\ nth_error (schedulers st') i = Some self'
    /\ last_epoch self' = (last_epoch self + 1)%Z
    /\ sched_step self' = sched_step self
    /\ last_lr self' = map pg_lr groups'
    /\ nth_error (optimizers st') (sched_optimizer self) = Some groups'
    /\ (forall k, k <> sched_optimizer self ->
          nth_error (optimizers st') k = nth_error (optimizers st) k)
    /\ List.length groups' = List.length groups
    /\ forall j pg, nth_error groups j = Some pg ->
         exists pg',
           nth_error groups' j = Some pg'
           /\ pg_name pg' = pg_name pg
           /\ pg_lr pg'
              = match nth_error
                        (get_lr self (last_epoch self + 1)%Z (map pg_lr groups)) j
                with
                | None => pg_lr pg
                | Some value =>
                    match lr_factor, lr_factors with
                    | Some factor, _ => (factor * value)%Qc
                    | None, Some factors =>
                        match nth_error factors j with
                        | Some factor => (factor * value)%Qc
                        | None => pg_lr pg
                        end
                    | None, None => value
                    end
                end.
Proof.
  intros Hs Ho. unfold scheduler_step. rewrite Hs.
  assert (G : nth_default [] (optimizers st) (sched_optimizer self) = groups).
  { unfold nth_default. apply nth_error_nth. exact Ho. }
  rewrite G.
  set (values0 := get_lr self (last_epoch self + 1)%Z (map pg_lr groups)).
  set (values := match lr_factor, lr_factors with
                 | Some factor, _ => map (fun value => (factor * value)%Qc) values0
                 | None, Some factors =>
                     map (fun fv => (fst fv * snd fv)%Qc) (combine factors values0)
                 | None, None => values0
                 end).
  destruct (write_rates groups values) as [L N].
  set (groups' := (fix write (gs : Optimizer) (vs : list Qc) : Optimizer :=
                     match gs, vs with
                     | g :: gs', lr :: vs' => set_lr lr g :: write gs' vs'
                     | _, _ => gs
                     end) groups values) in *.
  destruct (update_nth_spec (fun _ => groups') (optimizers st)
              (sched_optimizer self) groups Ho) as [U1 U2].
  eexists. eexists. exists groups'.
  split; [reflexivity|]. simpl.
  split; [apply (update_nth_spec _ _ _ _ Hs)|].
  split; [reflexivity|]. split; [reflexivity|]. split; [reflexivity|].
  split; [exact U1|]. split; [exact U2|]. split; [exact L|].
  intros j pg Hpg. destruct (N j pg Hpg) as (pg' & H1 & H2 & H3).
  exists pg'. split; [exact H1|]. split; [exact H2|]. rewrite H3.
  unfold values. destruct lr_factor as [factor|].
  - rewrite nth_error_map. destruct (nth_error values0 j); reflexivity.
  - destruct lr_factors as [factors|]; [|reflexivity].
    rewrite nth_error_map.
    assert (C : forall (fs vs : list Qc) j,
               nth_error (combine fs vs) j
               = match nth_error fs j, nth_error vs j with
                 | Some f, Some v => Some (f, v)
                 | _, _ => None
                 end).
    { clear. induction fs as [|f fs IH]; intros [|v vs] [|j]; simpl;
        try reflexivity.
      - destruct (nth_error fs j); reflexivity.
      - apply IH. }
    rewrite C. destruct (nth_error factors j), (nth_error values0 j); reflexivity.
Qed.

Lemma scheduler_step_rates_witness :
  let st := snd (step cfg_closed_form (fx_trained cfg_closed_form [fx_lambda_lr])) in
  exists st' groups',
    scheduler_step 0 None (Some (num 2)) None st = (Ok tt, st')
    /\ nth_error (optimizers st') 0 = Some groups'
    /\ map (fun pg => this (pg_lr pg)) groups' = [2; 2]%Q.
Proof.
  cbv zeta.
  destruct (nth_error (schedulers (snd (step cfg_closed_form
                                          (fx_trained cfg_closed_form [fx_lambda_lr]))))
              0) as [self|] eqn:Es; [|vm_compute in Es; discriminate].
  assert (Eo : sched_optimizer self = O).
  { vm_compute in Es. injection Es as <-. reflexivity. }
  destruct (scheduler_step_rates 0 (Some (num 2)) None
              (snd (step cfg_closed_form (fx_trained cfg_closed_form [fx_lambda_lr])))
              self fx_optimizer Es)
    as (st' & self' & groups' & H1 & _ & _ & _ & _ & H6 & _).
  { rewrite Eo. vm_compute. reflexivity. }
  rewrite Eo in H6.
  exists st', groups'. split; [exact H1|]. split; [exact H6|].
  vm_compute in H1. injection H1 as <-.
  vm_compute in H6. injection H6 as <-. reflexivity.
Defined.
